(** * deldown shredder: the shredding engine, embedded and verified

    A shallow embedding of [ShredderEngine] from [deldown-Shredder.py]
    (the method table [PATTERNS], [get_file_size], [generate_pattern] and
    [shred_file]) together with the part of the Python runtime the engine
    touches: the file system calls, the [random] module, exceptions and
    the [with] statement.

    Modelling choices.
    - Python integers are [Z]; a [bytes] object is a [list Z] whose
      elements the [bytes] constructor checks to be in [0, 255].
    - The file system is a finite map from path strings to nodes.
    - Every system call that can fail consults a fault plan carried by the
      world, so that I/O errors at any point of a run can be expressed.
    - [random] is an arbitrary stream of draws carried by the world.
    - Exceptions are a result constructor; [except Exception] catches the
      classes deriving from [Exception] only.
    - The [while] loop of a pass is fuelled: running out of fuel stands for
      a loop that has not finished yet, so a run that is out of fuel for
      every amount of fuel is a run that never returns.
    - The progress percentage, a Python float, is modelled by the exact
      rational value of the same expression.
    - A write reaches the file at once; [flush] and [fsync] are calls that
      can fail but move no data.
    - [os.path] and [os.rename] are taken in their POSIX flavour.
    - The [except] branch formats and prints the error.  [shred_file] is
      the engine where this works; [shred_file_on] is the engine with the
      branch as it is written, where [str(e)] and [print] can raise, and
      the two are the same function where they do not
      ([shred_file_on_reports]). *)

From Stdlib Require Import ZArith QArith List Sorted Ascii String Lia.
From stdpp Require Import gmap strings list pretty.

Local Open Scope Z_scope.

(** ** Exceptions *)

Inductive exn : Type :=
| OSError (msg : string)
| ValueError (msg : string)
| ZeroDivisionError
| SinkError (msg : string)
| SinkBaseException (msg : string).

(** [isinstance(e, Exception)]: [SinkBaseException] stands for what a
    progress callback may raise outside of the [Exception] hierarchy
    ([KeyboardInterrupt], [SystemExit], [GeneratorExit]). *)
Definition is_Exception (e : exn) : bool :=
  match e with
  | SinkBaseException _ => false
  | _ => true
  end.

(** [str(e)] where the exception has a text; [py_str] below is [str] on
    any exception. *)
Definition exn_str (e : exn) : string :=
  match e with
  | OSError msg => msg
  | ValueError msg => msg
  | ZeroDivisionError => "division by zero"
  | SinkError msg => msg
  | SinkBaseException msg => msg
  end.

(** ** The world: file system, randomness, fault plan, observable trace *)

Inductive node : Type :=
| RegularFile (content : list Z)
| Directory
| SpecialFile.

Inductive syscall : Type :=
| SysGetsize (p : string)
| SysOpen (p : string)
| SysWrite (p : string) (off : Z) (data : list Z)
| SysFlush (p : string)
| SysFsync (p : string)
| SysClose (p : string)
| SysRename (src dst : string)
| SysRemove (p : string).

(** What an observer of a run sees: each attempted system call with its
    outcome, each invocation of the progress callback with its arguments,
    and each line printed. *)
Inductive event : Type :=
| EvSys (c : syscall) (ok : bool)
| EvProgress (pct : Q) (label : string)
| EvPrint (msg : string).

Record World : Type := mkWorld {
  fs : gmap string node;
  rand_src : nat -> Z;
  rand_pos : nat;
  faults : nat -> bool;
  clock : nat;
  trace : list event
}.

Definition set_fs (f : gmap string node) (w : World) : World :=
  mkWorld f (rand_src w) (rand_pos w) (faults w) (clock w) (trace w).

Definition emit (ev : event) (w : World) : World :=
  mkWorld (fs w) (rand_src w) (rand_pos w) (faults w) (clock w) (trace w ++ [ev]).

Definition tick (w : World) : World :=
  mkWorld (fs w) (rand_src w) (rand_pos w) (faults w) (S (clock w)) (trace w).

Definition advance_rand (w : World) : World :=
  mkWorld (fs w) (rand_src w) (S (rand_pos w)) (faults w) (clock w) (trace w).

(** ** The monad of Python computations *)

Inductive outcome (A : Type) : Type :=
| Ret (a : A) (w : World)
| Exn (e : exn) (w : World)
| Diverge.

Arguments Ret {A} a w.
Arguments Exn {A} e w.
Arguments Diverge {A}.

Definition M (A : Type) : Type := World -> outcome A.

Definition ret {A} (a : A) : M A := fun w => Ret a w.

Definition raise {A} (e : exn) : M A := fun w => Exn e w.

Definition bind {A B} (m : M A) (k : A -> M B) : M B :=
  fun w =>
    match m w with
    | Ret a w' => k a w'
    | Exn e w' => Exn e w'
    | Diverge => Diverge
    end.

Notation "'let*' x ':=' m 'in' k" := (bind m (fun x => k))
  (at level 10, x name, m at level 200, k at level 200).

(** [try: body except Exception as e: handler e]. *)
Definition try_except {A} (body : M A) (handler : exn -> M A) : M A :=
  fun w =>
    match body w with
    | Ret a w' => Ret a w'
    | Exn e w' => if is_Exception e then handler e w' else Exn e w'
    | Diverge => Diverge
    end.

(** ** System calls *)

(** Whether the environment makes the next system call fail. *)
Definition fails (w : World) : bool := faults w (clock w).

Definition sys_fail {A} (c : syscall) (msg : string) : M A :=
  fun w => Exn (OSError msg) (emit (EvSys c false) (tick w)).

Definition sys_ok {A} (c : syscall) (f : gmap string node) (a : A) : M A :=
  fun w => Ret a (emit (EvSys c true) (tick (set_fs f w))).

(** [os.path.isfile]: a query that never raises. *)
Definition isfile (p : string) (w : World) : bool :=
  match fs w !! p with
  | Some (RegularFile _) => true
  | _ => false
  end.

(** [os.path.getsize] *)
Definition getsize (p : string) : M Z :=
  fun w =>
    if fails w then sys_fail (SysGetsize p) "getsize" w
    else match fs w !! p with
         | Some (RegularFile c) => sys_ok (SysGetsize p) (fs w) (Z.of_nat (length c)) w
         | _ => sys_fail (SysGetsize p) "getsize" w
         end.

(** An open file object: the path it was opened at and its position. *)
Record handle : Type := mkHandle { h_path : string; h_pos : Z }.

(** [open(p, "r+b")]: the file must exist and is positioned at offset 0. *)
Definition py_open (p : string) : M handle :=
  fun w =>
    if fails w then sys_fail (SysOpen p) "open" w
    else match fs w !! p with
         | Some (RegularFile _) => sys_ok (SysOpen p) (fs w) (mkHandle p 0) w
         | _ => sys_fail (SysOpen p) "open" w
         end.

(** Writing [data] at position [pos] of a file replaces what was there. *)
Definition overwrite_at (pos : Z) (data content : list Z) : list Z :=
  firstn (Z.to_nat pos) content ++ data
    ++ skipn (Z.to_nat pos + length data) content.

(** [f.write(data)]: the position advances by the number of bytes. *)
Definition f_write (h : handle) (data : list Z) : M handle :=
  fun w =>
    let c := SysWrite (h_path h) (h_pos h) data in
    if fails w then sys_fail c "write" w
    else match fs w !! h_path h with
         | Some (RegularFile old) =>
             sys_ok c (<[h_path h := RegularFile (overwrite_at (h_pos h) data old)]> (fs w))
                    (mkHandle (h_path h) (h_pos h + Z.of_nat (length data))) w
         | _ => sys_fail c "write" w
         end.

(** [f.flush()] *)
Definition f_flush (h : handle) : M unit :=
  fun w =>
    if fails w then sys_fail (SysFlush (h_path h)) "flush" w
    else sys_ok (SysFlush (h_path h)) (fs w) tt w.

(** [os.fsync(f.fileno())] *)
Definition os_fsync (h : handle) : M unit :=
  fun w =>
    if fails w then sys_fail (SysFsync (h_path h)) "fsync" w
    else sys_ok (SysFsync (h_path h)) (fs w) tt w.

(** [f.close()] *)
Definition f_close (h : handle) : M unit :=
  fun w =>
    if fails w then sys_fail (SysClose (h_path h)) "close" w
    else sys_ok (SysClose (h_path h)) (fs w) tt w.

(** [with open(p, "r+b") as f: body f]: the file is closed on the way out,
    normally or not; an error of [close] replaces the one in flight. *)
Definition with_open {A} (p : string) (body : handle -> M (handle * A)) : M A :=
  fun w =>
    match py_open p w with
    | Ret h w1 =>
        match body h w1 with
        | Ret (h', a) w2 => (let* _ := f_close h' in ret a) w2
        | Exn e w2 =>
            match f_close h w2 with
            | Ret _ w3 => Exn e w3
            | Exn e' w3 => Exn e' w3
            | Diverge => Diverge
            end
        | Diverge => Diverge
        end
    | Exn e w1 => Exn e w1
    | Diverge => Diverge
    end.

(** [os.rename(src, dst)] with POSIX semantics: an existing file at [dst]
    is replaced, a directory at [dst] is an error. *)
Definition os_rename (src dst : string) : M unit :=
  fun w =>
    let c := SysRename src dst in
    if fails w then sys_fail c "rename" w
    else match fs w !! src with
         | Some n =>
             match fs w !! dst with
             | Some Directory => sys_fail c "rename" w
             | _ => sys_ok c (<[dst := n]> (delete src (fs w))) tt w
             end
         | None => sys_fail c "rename" w
         end.

(** [os.remove(p)] *)
Definition os_remove (p : string) : M unit :=
  fun w =>
    if fails w then sys_fail (SysRemove p) "remove" w
    else match fs w !! p with
         | Some (RegularFile _) | Some SpecialFile =>
             sys_ok (SysRemove p) (delete p (fs w)) tt w
         | _ => sys_fail (SysRemove p) "remove" w
         end.

(** [print(msg)] on a console that takes the line; [print_on] below is
    [print] on any console. *)
Definition py_print (msg : string) : M unit :=
  fun w => Ret tt (emit (EvPrint msg) w).

(** ** The [random] module *)

(** One draw from the generator. *)
Definition random_draw : M Z :=
  fun w => Ret (rand_src w (rand_pos w)) (advance_rand w).

(** [random.randint(a, b)] *)
Definition randint (a b : Z) : M Z :=
  let* x := random_draw in ret (a + x mod (b - a + 1)).

(** A list comprehension [[m for _ in range(n)]]. *)
Fixpoint replicateM {A} (n : nat) (m : M A) : M (list A) :=
  match n with
  | O => ret []
  | S n' => let* x := m in let* xs := replicateM n' m in ret (x :: xs)
  end.

(** [bytes(l)]: every element must be in [range(256)]. *)
Definition py_bytes (l : list Z) : M (list Z) :=
  if forallb (fun b => (0 <=? b) && (b <=? 255)) l then ret l
  else raise (ValueError "bytes must be in range(0, 256)").

(** ** ShredderEngine *)

(** [PATTERNS] *)
Definition PATTERNS : gmap string Z :=
  <["quick" := 1]> (<["secure" := 3]> (<["dod" := 7]> (<["gutmann" := 35]> ∅))).

(** [dict.get(key, default)] *)
Definition dict_get (d : gmap string Z) (key : string) (default : Z) : Z :=
  match d !! key with
  | Some v => v
  | None => default
  end.

(** [get_file_size] *)
Definition get_file_size (filepath : string) : M Z := getsize filepath.

(** [generate_pattern]: [[0x00] * size] is the empty list for [size <= 0],
    as is [range(size)]. *)
Definition generate_pattern (size pass_num : Z) : M (list Z) :=
  if pass_num mod 3 =? 0 then py_bytes (repeat 0 (Z.to_nat size))
  else if pass_num mod 3 =? 1 then py_bytes (repeat 255 (Z.to_nat size))
  else let* l := replicateM (Z.to_nat size) (randint 0 255) in py_bytes l.

(** ** [os.path] (POSIX flavour) *)

Definition sep : ascii := "/"%char.

Definition is_sep (c : ascii) : bool := Ascii.eqb c sep.

Fixpoint drop_while {A} (f : A -> bool) (l : list A) : list A :=
  match l with
  | [] => []
  | x :: l' => if f x then drop_while f l' else l
  end.

(** [p[:p.rfind('/') + 1]] *)
Definition upto_last_sep (p : list ascii) : list ascii :=
  rev (drop_while (fun c => negb (is_sep c)) (rev p)).

(** [head.rstrip('/')] *)
Definition rstrip_sep (p : list ascii) : list ascii :=
  rev (drop_while is_sep (rev p)).

Definition dirname_chars (p : list ascii) : list ascii :=
  let head := upto_last_sep p in
  match head with
  | [] => head
  | _ :: _ => if forallb is_sep head then head else rstrip_sep head
  end.

(** [os.path.dirname] *)
Definition dirname (p : string) : string :=
  string_of_list_ascii (dirname_chars (list_ascii_of_string p)).

Definition starts_with_sep (p : list ascii) : bool :=
  match p with
  | c :: _ => is_sep c
  | [] => false
  end.

Definition ends_with_sep (p : list ascii) : bool :=
  starts_with_sep (rev p).

Definition is_empty (p : list ascii) : bool :=
  match p with
  | [] => true
  | _ :: _ => false
  end.

Definition join_chars (a b : list ascii) : list ascii :=
  if starts_with_sep b then b
  else if is_empty a || ends_with_sep a then a ++ b
  else a ++ sep :: b.

(** [os.path.join] of two components *)
Definition path_join (a b : string) : string :=
  string_of_list_ascii (join_chars (list_ascii_of_string a) (list_ascii_of_string b)).

(** ** The progress callback *)

(** A caller-supplied callable: it sees what has been observed so far and
    its two arguments, and either returns or raises. *)
Definition Callback : Type := list event -> Q -> string -> option exn.

(** [cb(pct, label)] *)
Definition call_progress (cb : Callback) (pct : Q) (label : string) : M unit :=
  fun w =>
    match cb (trace w) pct label with
    | None => Ret tt (emit (EvProgress pct label) w)
    | Some e => Exn e (emit (EvProgress pct label) w)
    end.

(** [a / b] on integers *)
Definition py_truediv (a b : Z) : M Q :=
  if b =? 0 then raise ZeroDivisionError
  else ret (inject_Z a / inject_Z b)%Q.

(** [range(n)] *)
Definition py_range (n : Z) : list Z := map Z.of_nat (seq 0 (Z.to_nat n)).

(** [for x in l: body x] *)
Fixpoint for_each {A} (l : list A) (body : A -> M unit) : M unit :=
  match l with
  | [] => ret tt
  | x :: l' => let* _ := body x in for_each l' body
  end.

(** [random.choices(population, k=k)] *)
Definition random_choices (population : list ascii) (k : nat) : M (list ascii) :=
  replicateM k
    (let* x := random_draw in
     ret (nth (Z.to_nat (x mod Z.of_nat (length population))) population sep)).

Definition hex_digits : list ascii := list_ascii_of_string "0123456789abcdef".

(** ** [shred_file] *)

(** The status text of a pass: [f"Durchgang {pass_num + 1}/{passes}"]. *)
Definition pass_status (pass_num passes : Z) : string :=
  "Durchgang " +:+ pretty (pass_num + 1) +:+ "/" +:+ pretty passes.

(** The block under [if progress_callback:] inside the chunk loop. *)
Definition update_progress (progress_callback : option Callback)
    (file_size pass_num passes bytes_written : Z) : M unit :=
  match progress_callback with
  | Some cb =>
      let* q := py_truediv (pass_num * file_size + bytes_written) (passes * file_size) in
      let total_progress := (q * inject_Z 100)%Q in
      let status := pass_status pass_num passes in
      call_progress cb total_progress status
  | None => ret tt
  end.

(** The body of the [while] loop: one chunk. It returns the file object
    and the updated [bytes_written]. *)
Definition chunk_step (progress_callback : option Callback)
    (file_size pass_num passes chunk_size : Z) (f : handle) (bytes_written : Z)
    : M (handle * Z) :=
  let remaining := file_size - bytes_written in
  let current_chunk := Z.min chunk_size remaining in
  let* pattern := generate_pattern current_chunk pass_num in
  let* f := f_write f pattern in
  let* _ := f_flush f in
  let* _ := os_fsync f in
  let bytes_written := bytes_written + current_chunk in
  let* _ := update_progress progress_callback file_size pass_num passes bytes_written in
  ret (f, bytes_written).

(** [while bytes_written < file_size: ...]; one unit of fuel per iteration. *)
Fixpoint chunk_loop (fuel : nat) (progress_callback : option Callback)
    (file_size pass_num passes chunk_size : Z) (f : handle) (bytes_written : Z)
    : M handle :=
  if bytes_written <? file_size then
    match fuel with
    | O => fun _ => Diverge
    | S fuel' =>
        let* st := chunk_step progress_callback file_size pass_num passes chunk_size
                     f bytes_written in
        chunk_loop fuel' progress_callback file_size pass_num passes chunk_size
          (fst st) (snd st)
    end
  else ret f.

(** The body of [for pass_num in range(passes)]. *)
Definition overwrite_pass (fuel : nat) (filepath : string)
    (progress_callback : option Callback) (file_size passes chunk_size pass_num : Z)
    : M unit :=
  with_open filepath (fun f =>
    let bytes_written := 0 in
    let* f := chunk_loop fuel progress_callback file_size pass_num passes chunk_size
                f bytes_written in
    ret (f, tt)).

(** The body of [for i in range(3)], iterated [n] times. *)
Fixpoint rename_loop (n : nat) (directory current_path : string) : M string :=
  match n with
  | O => ret current_path
  | S n' =>
      let* chars := random_choices hex_digits 32 in
      let new_name := string_of_list_ascii chars in
      let new_path := path_join directory new_name in
      let* _ := os_rename current_path new_path in
      rename_loop n' directory new_path
  end.

(** The block under the last [if progress_callback:]. *)
Definition final_progress (progress_callback : option Callback) : M unit :=
  match progress_callback with
  | Some cb => call_progress cb (inject_Z 100) "Fertig!"
  | None => ret tt
  end.

(** The [try] block. *)
Definition shred_body (fuel : nat) (filepath method : string)
    (progress_callback : option Callback) (chunk_size : Z) : M bool :=
  fun w =>
    if negb (isfile filepath w) then Ret false w
    else
      (let* file_size := get_file_size filepath in
       let passes := dict_get PATTERNS method 3 in
       let* _ := for_each (py_range passes)
                   (overwrite_pass fuel filepath progress_callback file_size passes chunk_size) in
       let directory := dirname filepath in
       let* current_path := rename_loop 3 directory filepath in
       let* _ := os_remove current_path in
       let* _ := final_progress progress_callback in
       ret true) w.

(** The line the [except] branch prints:
    [f"Error shredding {filepath}: {e}"]. *)
Definition error_line (filepath : string) (e : exn) : string :=
  "Error shredding " +:+ filepath +:+ ": " +:+ exn_str e.

Definition shred_file (fuel : nat) (filepath method : string)
    (progress_callback : option Callback) (chunk_size : Z) : M bool :=
  try_except
    (shred_body fuel filepath method progress_callback chunk_size)
    (fun e =>
       let* _ := py_print (error_line filepath e) in
       ret false).

(** ** Reporting the error

    [shred_file] above is the engine where the error of a run can be
    reported: [exn_str] has a text for every exception and [py_print]
    takes every line.  In general the two steps of
    [print(f"Error shredding {filepath}: {e}")] can raise, and they run in
    the [except] branch, where nothing catches what they raise: [str(e)]
    runs the [__str__] of what the progress callback raised, and [print]
    writes to [sys.stdout], which can be closed or refuse the text.

    [str_raises] says what the [__str__] of an exception raises, if
    anything; [print_raises] what [print] raises, if anything, for a line,
    given what has been observed so far. *)
Record Reporting : Type := mkReporting {
  str_raises : exn -> option exn;
  print_raises : list event -> string -> option exn
}.

(** [str(e)] *)
Definition py_str (r : Reporting) (e : exn) : M string :=
  match str_raises r e with
  | Some raised => raise raised
  | None => ret (exn_str e)
  end.

(** [print(msg)]: a line that is refused is not printed. *)
Definition print_on (r : Reporting) (msg : string) : M unit :=
  fun w =>
    match print_raises r (trace w) msg with
    | Some raised => Exn raised w
    | None => py_print msg w
    end.

(** [shred_file] with the [except] branch as it is written: what [str] or
    [print] raises reaches the caller. *)
Definition shred_file_on (r : Reporting) (fuel : nat) (filepath method : string)
    (progress_callback : option Callback) (chunk_size : Z) : M bool :=
  try_except
    (shred_body fuel filepath method progress_callback chunk_size)
    (fun e =>
       let* text := py_str r e in
       let* _ := print_on r ("Error shredding " +:+ filepath +:+ ": " +:+ text) in
       ret false).

(** * Specification vocabulary *)

(** ** Worlds and patterns *)

Definition advance_rand_by (n : nat) (w : World) : World :=
  mkWorld (fs w) (rand_src w) (rand_pos w + n) (faults w) (clock w) (trace w).

Definition in_byte_range (b : Z) : Prop := 0 <= b <= 255.

(** The bytes the list comprehension of the random branch collects. *)
Definition random_bytes (n : nat) (w : World) : list Z :=
  map (fun i => rand_src w (rand_pos w + i)%nat mod 256) (seq 0 n).

(** What [generate_pattern] returns, as a function of the world. *)
Definition pattern_of (size pass_num : Z) (w : World) : list Z :=
  if pass_num mod 3 =? 0 then repeat 0 (Z.to_nat size)
  else if pass_num mod 3 =? 1 then repeat 255 (Z.to_nat size)
  else random_bytes (Z.to_nat size) w.

Definition pattern_world (size pass_num : Z) (w : World) : World :=
  if pass_num mod 3 =? 0 then w
  else if pass_num mod 3 =? 1 then w
  else advance_rand_by (Z.to_nat size) w.

(** ** One chunk *)

(** [(num / den) * 100] *)
Definition ratio (num den : Z) : Q :=
  (inject_Z num / inject_Z den * inject_Z 100)%Q.

(** The percentage reported after [bytes_written] bytes of pass [pass_num]. *)
Definition percent (file_size pass_num passes bytes_written : Z) : Q :=
  ratio (pass_num * file_size + bytes_written) (passes * file_size).

Definition progress_events (cb : option Callback) (pct : Q) (label : string)
    : list event :=
  match cb with
  | Some _ => [EvProgress pct label]
  | None => []
  end.

Definition synced_write (f : handle) (data : list Z) : list event :=
  [EvSys (SysWrite (h_path f) (h_pos f) data) true;
   EvSys (SysFlush (h_path f)) true;
   EvSys (SysFsync (h_path f)) true].

(** Two worlds have the same regular files (their contents may differ). *)
Definition same_files (w w' : World) : Prop :=
  forall q, isfile q w' = isfile q w.

Inductive step_shape (cb : option Callback) (file_size pass_num passes : Z)
    (f : handle) (bw' : Z) (data : list Z) (w : World)
    : outcome (handle * Z) -> Prop :=
| step_write_fail w' :
    faults w (clock w) = true
    \/ (forall c, fs w !! h_path f <> Some (RegularFile c)) ->
    trace w' = trace w ++ [EvSys (SysWrite (h_path f) (h_pos f) data) false] ->
    same_files w w' ->
    step_shape cb file_size pass_num passes f bw' data w (Exn (OSError "write") w')
| step_flush_fail w' :
    faults w (S (clock w)) = true ->
    trace w' = trace w ++ [EvSys (SysWrite (h_path f) (h_pos f) data) true;
                           EvSys (SysFlush (h_path f)) false] ->
    same_files w w' ->
    step_shape cb file_size pass_num passes f bw' data w (Exn (OSError "flush") w')
| step_fsync_fail w' :
    faults w (S (S (clock w))) = true ->
    trace w' = trace w ++ [EvSys (SysWrite (h_path f) (h_pos f) data) true;
                           EvSys (SysFlush (h_path f)) true;
                           EvSys (SysFsync (h_path f)) false] ->
    same_files w w' ->
    step_shape cb file_size pass_num passes f bw' data w (Exn (OSError "fsync") w')
| step_zero_div c w' :
    cb = Some c ->
    passes * file_size = 0 ->
    trace w' = trace w ++ synced_write f data ->
    same_files w w' ->
    step_shape cb file_size pass_num passes f bw' data w (Exn ZeroDivisionError w')
| step_sink_raise c e w' :
    cb = Some c ->
    passes * file_size <> 0 ->
    c (trace w ++ synced_write f data)
      (percent file_size pass_num passes bw') (pass_status pass_num passes) = Some e ->
    trace w' = trace w ++ synced_write f data
                 ++ [EvProgress (percent file_size pass_num passes bw')
                                (pass_status pass_num passes)] ->
    same_files w w' ->
    step_shape cb file_size pass_num passes f bw' data w (Exn e w')
| step_done old w' :
    fs w !! h_path f = Some (RegularFile old) ->
    trace w' = trace w ++ synced_write f data
                 ++ progress_events cb (percent file_size pass_num passes bw')
                                    (pass_status pass_num passes) ->
    fs w' = <[h_path f := RegularFile (overwrite_at (h_pos f) data old)]> (fs w) ->
    faults w' = faults w ->
    clock w' = (clock w + 3)%nat ->
    rand_src w' = rand_src w ->
    same_files w w' ->
    step_shape cb file_size pass_num passes f bw' data w
      (Ret (mkHandle (h_path f) (h_pos f + Z.of_nat (length data)), bw') w').

(** ** Observations on traces *)

Definition is_progress (ev : event) : bool :=
  match ev with
  | EvProgress _ _ => true
  | _ => false
  end.

Definition is_open (ev : event) : bool :=
  match ev with
  | EvSys (SysOpen _) _ => true
  | _ => false
  end.

Definition is_rename (ev : event) : bool :=
  match ev with
  | EvSys (SysRename _ _) _ => true
  | _ => false
  end.

Definition is_remove (ev : event) : bool :=
  match ev with
  | EvSys (SysRemove _) _ => true
  | _ => false
  end.

(** What the chunk loop can emit. *)
Definition is_chunk_event (ev : event) : bool :=
  match ev with
  | EvSys (SysWrite _ _ _) _ | EvSys (SysFlush _) _ | EvSys (SysFsync _) _ => true
  | EvProgress _ _ => true
  | _ => false
  end.

(** What one pass can emit. *)
Definition is_pass_event (ev : event) : bool :=
  match ev with
  | EvSys (SysOpen _) _ | EvSys (SysClose _) _ => true
  | _ => is_chunk_event ev
  end.

(** The number of passes started: one [open] each. *)
Definition opens (evs : list event) : nat := length (filter (fun ev => is_open ev = true) evs).

(** The percentages handed to the progress callback, in order. *)
Definition progress_values (evs : list event) : list Q :=
  flat_map (fun ev => match ev with EvProgress q _ => [q] | _ => [] end) evs.

(** The percentages in [evs] climb from [lo] to [hi] without ever going
    down. *)
Fixpoint steps (lo hi : Q) (evs : list event) : Prop :=
  match evs with
  | [] => (lo <= hi)%Q
  | EvProgress q _ :: evs' => (lo <= q)%Q /\ steps q hi evs'
  | _ :: evs' => steps lo hi evs'
  end.

(** Whatever the outcome of a computation started in [w], the world [w']
    it ends in and the events [evs] it added to the trace satisfy [P]. *)
Definition after {A} (w : World) (o : outcome A)
    (P : World -> list event -> Prop) : Prop :=
  match o with
  | Ret _ w' | Exn _ w' => exists evs, trace w' = trace w ++ evs /\ P w' evs
  | Diverge => True
  end.

(** An exception that the progress callback raised. *)
Definition sink_raises (cb : option Callback) (e : exn) : Prop :=
  exists c tr q l, cb = Some c /\ c tr q l = Some e.

(** Neither a rename nor a delete. *)
Definition keeps_name (ev : event) : Prop :=
  is_rename ev = false /\ is_remove ev = false.

(** ** The rename chain *)

(** The name built from the 32 draws of the random source that start at
    [pos]. *)
Definition hex_name_chars (src : nat -> Z) (pos : nat) : list ascii :=
  map (fun i => nth (Z.to_nat (src (pos + i)%nat mod Z.of_nat (length hex_digits)))
                    hex_digits sep)
      (seq 0 32).

Definition hex_name (src : nat -> Z) (pos : nat) : string :=
  string_of_list_ascii (hex_name_chars src pos).

(** The targets of [n] successive renames: each name uses its own window
    of 32 draws. *)
Fixpoint rename_targets (n : nat) (directory : string) (src : nat -> Z) (pos : nat)
    : list string :=
  match n with
  | O => []
  | S n' => path_join directory (hex_name src pos)
            :: rename_targets n' directory src (pos + 32)
  end.

(** Successful renames from [current_path] through [targets]. *)
Fixpoint rename_chain (current_path : string) (targets : list string) : list event :=
  match targets with
  | [] => []
  | t :: ts => EvSys (SysRename current_path t) true :: rename_chain t ts
  end.

(** ** A whole pass *)

(** No system call fails for a reason of the environment. *)
Definition fault_free (w : World) : Prop := forall n, faults w n = false.

(** The progress callback, if any, never raises. *)
Definition quiet_sink (cb : option Callback) : Prop :=
  forall c tr q l, cb = Some c -> c tr q l = None.

(** The events of writing [chunks] one after the other from offset [off]. *)
Fixpoint chunk_events (cb : option Callback) (path : string)
    (file_size pass_num passes : Z) (off : Z) (chunks : list (list Z)) : list event :=
  match chunks with
  | [] => []
  | d :: ds =>
      synced_write (mkHandle path off) d
      ++ progress_events cb (percent file_size pass_num passes (off + Z.of_nat (length d)))
                         (pass_status pass_num passes)
      ++ chunk_events cb path file_size pass_num passes (off + Z.of_nat (length d)) ds
  end.

(** [chunks] cut the byte range from [off] to [file_size] into consecutive
    pieces of [min(chunk_size, remaining)] bytes, and stop exactly at
    [file_size]. *)
Fixpoint chunking (chunk_size file_size off : Z) (chunks : list (list Z)) : Prop :=
  match chunks with
  | [] => off = file_size
  | d :: ds =>
      off < file_size
      /\ Z.of_nat (length d) = Z.min chunk_size (file_size - off)
      /\ chunking chunk_size file_size (off + Z.of_nat (length d)) ds
  end.

(** No directory of [directory] bears a name of 32 characters, so that a
    rename to a drawn name cannot hit a directory. *)
Definition no_name_clash (directory : string) (w : World) : Prop :=
  forall name, String.length name = 32%nat ->
               fs w !! path_join directory name <> Some Directory.

(** What a pass over an empty file emits. *)
Definition empty_pass (path : string) : list event :=
  [EvSys (SysOpen path) true; EvSys (SysClose path) true].

(** Whatever the progress callback raises derives from [Exception]. *)
Definition catchable (cb : option Callback) : Prop :=
  forall c tr q l e, cb = Some c -> c tr q l = Some e -> is_Exception e = true.

(** A computation started in [w] with outcome [o]: the percentages it
    reports climb from [lo] to [hi], an exception it raises is one that
    [except Exception] catches as long as the callback raises only such
    exceptions, and it runs out of fuel only if [D] holds. *)
Definition runs {A} (cb : option Callback) (lo hi : Q) (D : Prop)
    (w : World) (o : outcome A) : Prop :=
  match o with
  | Ret _ w' => exists evs, trace w' = trace w ++ evs /\ steps lo hi evs
  | Exn e w' =>
      (catchable cb -> is_Exception e = true)
      /\ exists evs, trace w' = trace w ++ evs /\ steps lo hi evs
  | Diverge => D
  end.

(** ** Reporting *)

(** The error of a run can be reported: [str] and [print] do not raise. *)
Definition reports (r : Reporting) : Prop :=
  (forall e, str_raises r e = None) /\ (forall tr msg, print_raises r tr msg = None).

(** ** The random source *)

(** Whatever the outcome of a computation started in [w], the random source
    is the same stream afterwards, read no further back than in [w]. *)
Definition keeps_source {A} (w : World) (o : outcome A) : Prop :=
  match o with
  | Ret _ w' | Exn _ w' => rand_src w' = rand_src w /\ (rand_pos w <= rand_pos w')%nat
  | Diverge => True
  end.

(** ** Names *)

Fixpoint take_while {A} (f : A -> bool) (l : list A) : list A :=
  match l with
  | [] => []
  | x :: l' => if f x then x :: take_while f l' else []
  end.

(** [p[p.rfind('/') + 1:]], the file name of a path as [os.path.basename]
    gives it. *)
Definition basename_chars (p : list ascii) : list ascii :=
  rev (take_while (fun c => negb (is_sep c)) (rev p)).

Definition basename (p : string) : string :=
  string_of_list_ascii (basename_chars (list_ascii_of_string p)).

(** A string of 32 lowercase hexadecimal digits. *)
Definition is_hex_name (name : string) : Prop :=
  String.length name = 32%nat
  /\ Forall (fun c => In c hex_digits) (list_ascii_of_string name).

(** No separator in a list of characters. *)
Definition sep_free (p : list ascii) : Prop :=
  Forall (fun c => is_sep c = false) p.

(** * The rest of the engine and its callers

    Further vocabulary for the engine, and the callers of the engine: the
    handlers of the window [DeldownShredder] and the labels of a row
    [FileItem].

    Modelling choices for the window.
    - A [str] is the list of its UTF-8 bytes; [len], slicing and the white
      space of [split] are read off the bytes.
    - The window is the record of the fields its handlers read and write;
      the building, packing and colouring of widgets is left out.
    - Handlers run one at a time in the main loop.  What a dialog or
      [os.walk] returns is an argument of the handler, and what
      [os.path.getsize] answers while a handler runs is a function given
      to it.
    - The floats of [_format_size] are taken as the exact rationals, which
      they are for sizes below 2^53.
    - [self.after] schedules a call and never raises. *)

(** ** Invariants of the file system *)

(** Whatever the outcome of a computation, the file system it leaves
    satisfies [I]. *)
Definition holds_after {A} (I : gmap string node -> Prop) (o : outcome A) : Prop :=
  match o with
  | Ret _ w' | Exn _ w' => I (fs w')
  | Diverge => True
  end.

(** A path of [directory] under a name of 32 hexadecimal digits. *)
Definition drawn_path (directory q : string) : Prop :=
  exists name, is_hex_name name /\ q = path_join directory name.

(** The paths a run on [filepath] works on: the file and the names it may
    be renamed to. *)
Definition own_paths (filepath q : string) : Prop :=
  q = filepath \/ drawn_path (dirname filepath) q.

(** [m] is [m0] on every path outside of [S]. *)
Definition unchanged_outside (S : string -> Prop) (m0 m : gmap string node) : Prop :=
  forall q, ~ S q -> m !! q = m0 !! q.

(** There is a regular file of [size] bytes at [path]. *)
Definition file_len (path : string) (size : Z) (m : gmap string node) : Prop :=
  exists content, m !! path = Some (RegularFile content)
                  /\ Z.of_nat (length content) = size.

(** ** What is written *)

(** The data of a write satisfies [P]; any other event passes. *)
Definition write_data (P : list Z -> Prop) (ev : event) : Prop :=
  match ev with
  | EvSys (SysWrite _ _ d) _ => P d
  | _ => True
  end.

(** Every byte of [d] is [b]. *)
Definition all_bytes (b : Z) (d : list Z) : Prop := d = repeat b (length d).

(** An event that is not a write. *)
Definition not_a_write (ev : event) : Prop :=
  match ev with
  | EvSys (SysWrite _ _ _) _ => False
  | _ => True
  end.

(** The byte a pass fills the file with, when its pattern is constant. *)
Definition fill_byte (pass_num : Z) : option Z :=
  if pass_num mod 3 =? 0 then Some 0
  else if pass_num mod 3 =? 1 then Some 255
  else None.

(** ** The worker of the application *)

(** [1024 * 1024], the default of [chunk_size]. *)
Definition default_chunk_size : Z := 1024 * 1024.

(** The callback [_shred_files] hands to the engine: it schedules the
    update of the progress bar with [self.after] and returns. *)
Definition ui_progress_callback : Callback := fun _ _ _ => None.

(** The loop of [_shred_files] over the file paths of the list: each file
    is shredded with the method chosen, the default chunk size and the
    callback above, and its result is what [mark_complete] is scheduled
    with. *)
Fixpoint shred_files_loop (fuel : nat) (method : string) (filepaths : list string)
    : M (list (string * bool)) :=
  match filepaths with
  | [] => ret []
  | filepath :: rest =>
      let* success := shred_file fuel filepath method (Some ui_progress_callback)
                        default_chunk_size in
      let* results := shred_files_loop fuel method rest in
      ret ((filepath, success) :: results)
  end.

(** The same loop with the [except] branch of the engine as it is written:
    what [str] or [print] raises there ends the worker. *)
Fixpoint shred_files_loop_on (r : Reporting) (fuel : nat) (method : string)
    (filepaths : list string) : M (list (string * bool)) :=
  match filepaths with
  | [] => ret []
  | filepath :: rest =>
      let* success := shred_file_on r fuel filepath method (Some ui_progress_callback)
                        default_chunk_size in
      let* results := shred_files_loop_on r fuel method rest in
      ret ((filepath, success) :: results)
  end.

(** No regular file has more than [bound] bytes. *)
Definition bounded_files (bound : nat) (m : gmap string node) : Prop :=
  forall q content, m !! q = Some (RegularFile content) -> (length content <= bound)%nat.

(** ** Strings of the window *)

(** A [str] is its UTF-8 bytes.  A byte 10xxxxxx continues a character,
    every other byte starts one. *)
Definition is_continuation (c : ascii) : bool :=
  let b := N_of_ascii c in
  ((128 <=? b) && (b <? 192))%N.

(** [len(s)] *)
Fixpoint py_len (s : list ascii) : nat :=
  match s with
  | [] => 0
  | c :: s' => if is_continuation c then py_len s' else S (py_len s')
  end.

(** [s[:n]] *)
Fixpoint py_take (n : nat) (s : list ascii) : list ascii :=
  match s with
  | [] => []
  | c :: s' =>
      if is_continuation c then c :: py_take n s'
      else match n with
           | O => []
           | S n' => c :: py_take n' s'
           end
  end.

(** The number of bytes of the white-space character a string starts with,
    0 when it starts with none.  The white space of [str.split()] is
    U+0009..U+000D, U+001C..U+0020, U+0085, U+00A0, U+1680, U+2000..U+200A,
    U+2028, U+2029, U+202F, U+205F and U+3000. *)
Definition space_width (s : list ascii) : nat :=
  match s with
  | [] => 0
  | c1 :: s1 =>
      let b1 := N_of_ascii c1 in
      if ((9 <=? b1) && (b1 <=? 13) || (28 <=? b1) && (b1 <=? 32))%N then 1
      else
        match s1 with
        | [] => 0
        | c2 :: s2 =>
            let b2 := N_of_ascii c2 in
            if ((b1 =? 194) && ((b2 =? 133) || (b2 =? 160)))%N then 2
            else
              match s2 with
              | [] => 0
              | c3 :: _ =>
                  let b3 := N_of_ascii c3 in
                  if ((b1 =? 225) && (b2 =? 154) && (b3 =? 128)
                      || (b1 =? 226) && (b2 =? 128)
                         && ((128 <=? b3) && (b3 <=? 138)
                             || (b3 =? 168) || (b3 =? 169) || (b3 =? 175))
                      || (b1 =? 226) && (b2 =? 129) && (b3 =? 159)
                      || (b1 =? 227) && (b2 =? 128) && (b3 =? 128))%N
                  then 3
                  else 0
              end
        end
  end.

(** The string without the white space it starts with. *)
Fixpoint lstrip (s : list ascii) : list ascii :=
  match space_width s, s with
  | 1%nat, _ :: s1 => lstrip s1
  | 2%nat, _ :: _ :: s2 => lstrip s2
  | 3%nat, _ :: _ :: _ :: s3 => lstrip s3
  | _, _ => s
  end.

(** The characters up to the first white space. *)
Fixpoint until_space (s : list ascii) : list ascii :=
  match s with
  | [] => []
  | c :: s' =>
      match space_width s with
      | O => c :: until_space s'
      | _ => []
      end
  end.

(** [s.split()[0]]; [None] is the [IndexError] of a string of white space
    only. *)
Definition first_word (s : string) : option string :=
  match lstrip (list_ascii_of_string s) with
  | [] => None
  | s' => Some (string_of_list_ascii (until_space s'))
  end.

(** [filename if len(filename) < 40 else filename[:37] + "..."] *)
Definition display_name (filename : string) : string :=
  let chars := list_ascii_of_string filename in
  if (py_len chars <? 40)%nat then filename
  else string_of_list_ascii (py_take 37 chars) +:+ "...".

(** ** Sizes for the reader *)

Definition Qlt_bool (x y : Q) : bool := negb (Qle_bool y x).

(** The nearest integer, a tie going to the even one. *)
Definition round_half_even (x : Q) : Z :=
  let n := Qnum x in
  let d := Z.pos (Qden x) in
  let k := n / d in
  let r := n mod d in
  if 2 * r <? d then k
  else if d <? 2 * r then k + 1
  else if Z.even k then k else k + 1.

(** [f"{x:.1f}"] for a number the float holds exactly: [x] rounded to one
    decimal, a tie going to the even digit. *)
Definition format_1f (x : Q) : string :=
  let t := round_half_even (if Qle_bool 0 x then x * 10 else - x * 10)%Q in
  (if Qle_bool 0 x then "" else "-") +:+ pretty (t / 10) +:+ "." +:+ pretty (t mod 10).

(** The loop of [_format_size] over the units left. *)
Fixpoint format_size_from (units : list string) (size : Q) : string :=
  match units with
  | [] => format_1f size +:+ " TB"
  | unit :: units' =>
      if Qlt_bool size 1024 then format_1f size +:+ " " +:+ unit
      else format_size_from units' (size / 1024)%Q
  end.

(** [_format_size], the same in [FileItem] and in [DeldownShredder]. *)
Definition _format_size (size : Z) : string :=
  format_size_from ["B"; "KB"; "MB"; "GB"] (inject_Z size).

(** ** The window *)

(** A row of the list: the object (two rows are the same object when their
    [item_id] is the same), its path and the texts of its two labels. *)
Record FileItem := mkFileItem {
  item_id : nat;
  item_filepath : string;
  name_label : string;
  size_label : string
}.

(** The fields of [DeldownShredder] the handlers read and write:
    [self.files], [self.is_shredding], [self.method_var], whether
    [empty_label] is on the grid, the text of [count_label], whether
    [shred_btn], [clear_btn] and [method_menu] are in state "normal", the
    titles of the message boxes shown, oldest first, the number of worker
    threads started, and the number of [FileItem] objects created. *)
Record App := mkApp {
  files : list FileItem;
  is_shredding : bool;
  method_var : string;
  empty_label_shown : bool;
  count_label : string;
  controls_enabled : bool;
  dialogs : list string;
  threads_started : nat;
  items_created : nat
}.

Definition set_files (l : list FileItem) (app : App) : App :=
  mkApp l (is_shredding app) (method_var app) (empty_label_shown app)
    (count_label app) (controls_enabled app) (dialogs app) (threads_started app)
    (items_created app).

Definition set_is_shredding (b : bool) (app : App) : App :=
  mkApp (files app) b (method_var app) (empty_label_shown app)
    (count_label app) (controls_enabled app) (dialogs app) (threads_started app)
    (items_created app).

Definition set_method_var (s : string) (app : App) : App :=
  mkApp (files app) (is_shredding app) s (empty_label_shown app)
    (count_label app) (controls_enabled app) (dialogs app) (threads_started app)
    (items_created app).

Definition set_empty_label_shown (b : bool) (app : App) : App :=
  mkApp (files app) (is_shredding app) (method_var app) b
    (count_label app) (controls_enabled app) (dialogs app) (threads_started app)
    (items_created app).

Definition set_count_label (s : string) (app : App) : App :=
  mkApp (files app) (is_shredding app) (method_var app) (empty_label_shown app)
    s (controls_enabled app) (dialogs app) (threads_started app)
    (items_created app).

Definition set_controls_enabled (b : bool) (app : App) : App :=
  mkApp (files app) (is_shredding app) (method_var app) (empty_label_shown app)
    (count_label app) b (dialogs app) (threads_started app)
    (items_created app).

Definition show_dialog (title : string) (app : App) : App :=
  mkApp (files app) (is_shredding app) (method_var app) (empty_label_shown app)
    (count_label app) (controls_enabled app) (dialogs app ++ [title])
    (threads_started app) (items_created app).

Definition start_thread (app : App) : App :=
  mkApp (files app) (is_shredding app) (method_var app) (empty_label_shown app)
    (count_label app) (controls_enabled app) (dialogs app)
    (S (threads_started app)) (items_created app).

Definition count_item (app : App) : App :=
  mkApp (files app) (is_shredding app) (method_var app) (empty_label_shown app)
    (count_label app) (controls_enabled app) (dialogs app) (threads_started app)
    (S (items_created app)).

(** The window as [__init__] leaves it. *)
Definition initial_app : App :=
  mkApp [] false "secure" true "0 Dateien ausgewählt" true [] 0 0.

(** The values of the method menu. *)
Definition menu_values : list string :=
  ["quick (1 Durchgang)"; "secure (3 Durchgänge)"; "dod (7 Durchgänge)";
   "gutmann (35 Durchgänge)"].

(** [f"{count} Datei{'en' if count != 1 else ''} ausgewählt"] *)
Definition count_text (count : nat) : string :=
  pretty count +:+ " Datei" +:+ (if (count =? 1)%nat then "" else "en")
  +:+ " ausgewählt".

(** [list.remove] of an object: the first occurrence goes, [None] is the
    [ValueError] of a list without it. *)
Fixpoint list_remove (id : nat) (l : list FileItem) : option (list FileItem) :=
  match l with
  | [] => None
  | x :: l' =>
      if (item_id x =? id)%nat then Some l'
      else option_map (cons x) (list_remove id l')
  end.

(** [_on_method_change]; [None] is the [IndexError] of [split()[0]]. *)
Definition _on_method_change (app : App) (value : string) : option App :=
  match first_word value with
  | Some method => Some (set_method_var method app)
  | None => None
  end.

(** [_start_shredding], given the answer to the question it asks. *)
Definition _start_shredding (app : App) (answer : bool) : App :=
  match files app with
  | [] => show_dialog "Keine Dateien" app
  | _ :: _ =>
      if is_shredding app then app
      else
        let app := show_dialog "Vernichtung bestätigen" app in
        if negb answer then app
        else start_thread (set_controls_enabled false (set_is_shredding true app))
  end.

(** [_shredding_complete] *)
Definition _shredding_complete (app : App) : App :=
  show_dialog "Vernichtung abgeschlossen"
    (set_controls_enabled true (set_is_shredding false app)).

(** [_shred_files], the body of the worker thread; [None] is the
    [IndexError] of [split()[0]]. *)
Definition _shred_files (fuel : nat) (app : App) : option (M (list (string * bool))) :=
  match first_word (method_var app) with
  | Some method =>
      Some (shred_files_loop fuel method (map item_filepath (files app)))
  | None => None
  end.

(** The handlers that ask the file system for sizes.  [getsize_now] is what
    [os.path.getsize] answers while the handler runs, [None] when it
    raises. *)
Section Handlers.

Variable getsize_now : string -> option Z.

(** [FileItem(master, filepath, on_remove)], the object numbered [id]. *)
Definition new_FileItem (id : nat) (filepath : string) : FileItem :=
  mkFileItem id filepath (display_name (basename filepath))
    match getsize_now filepath with
    | Some size => _format_size size
    | None => "Unknown"
    end.

(** The sum [_update_count] computes. *)
Definition total_size (l : list FileItem) : Z :=
  fold_left
    (fun total item =>
       match getsize_now (item_filepath item) with
       | Some size => total + size
       | None => total
       end)
    l 0.

(** [_update_count] *)
Definition _update_count (app : App) : App :=
  let text := count_text (length (files app)) in
  let total := total_size (files app) in
  set_count_label
    (if 0 <? total then text +:+ " (" +:+ _format_size total +:+ ")" else text)
    app.

(** [_add_file] *)
Definition _add_file (app : App) (filepath : string) : App :=
  if existsb (fun item => String.eqb (item_filepath item) filepath) (files app)
  then app
  else
    let app := set_empty_label_shown false app in
    let item := new_FileItem (items_created app) filepath in
    let app := count_item app in
    let app := set_files (files app ++ [item]) app in
    _update_count app.

(** [_remove_file]; [None] is the [ValueError] of [self.files.remove]. *)
Definition _remove_file (app : App) (item : FileItem) : option App :=
  if is_shredding app then Some app
  else
    match list_remove (item_id item) (files app) with
    | None => None
    | Some l =>
        let app := _update_count (set_files l app) in
        Some match files app with
             | [] => set_empty_label_shown true app
             | _ :: _ => app
             end
    end.

(** [_clear_all] *)
Definition _clear_all (app : App) : App :=
  if is_shredding app then app
  else _update_count (set_empty_label_shown true (set_files [] app)).

(** [_browse_files], given the paths the dialog returns. *)
Definition _browse_files (app : App) (selected : list string) : App :=
  if is_shredding app then app
  else fold_left _add_file selected app.

(** [_browse_folder], given the folder the dialog returns and the
    [(root, files)] pairs [os.walk] yields for it. *)
Definition _browse_folder (app : App) (folder : string)
    (walk : list (string * list string)) : App :=
  if is_shredding app then app
  else if String.eqb folder "" then app
  else
    fold_left
      (fun app '(root, names) =>
         fold_left (fun app file => _add_file app (path_join root file)) names app)
      walk app.

(** What happens in the main loop of the window. *)
Inductive action :=
  | BrowseFiles (selected : list string)
  | BrowseFolder (folder : string) (walk : list (string * list string))
  | RemoveFile (item : FileItem)
  | ClearAll
  | MethodChange (value : string)
  | StartShredding (answer : bool)
  | ShreddingComplete.

(** One event handled.  A handler that raises leaves the fields as they
    were. *)
Definition step (app : App) (a : action) : App :=
  match a with
  | BrowseFiles selected => _browse_files app selected
  | BrowseFolder folder walk => _browse_folder app folder walk
  | RemoveFile item => default app (_remove_file app item)
  | ClearAll => _clear_all app
  | MethodChange value => default app (_on_method_change app value)
  | StartShredding answer => _start_shredding app answer
  | ShreddingComplete => _shredding_complete app
  end.

End Handlers.

(** The menu hands [_on_method_change] one of its values. *)
Definition offered (a : action) : Prop :=
  match a with
  | MethodChange value => In value menu_values
  | _ => True
  end.

(** The states of the window: what [__init__] builds, and what the handlers
    make of it, whatever sizes the file system reports meanwhile. *)
Inductive reachable : App -> Prop :=
  | reachable_initial : reachable initial_app
  | reachable_step getsize_now app a :
      reachable app -> offered a -> reachable (step getsize_now app a).

(** The unit shown for a size divided [k] times. *)
Definition unit_name (k : nat) : string :=
  nth k ["B"; "KB"; "MB"; "GB"; "TB"] "".

(** A number of tenths written with one decimal. *)
Definition one_decimal (t : Z) : string :=
  pretty (t / 10) +:+ "." +:+ pretty (t mod 10).

(** What holds of the window between two events. *)
Record window_ok (app : App) : Prop := mk_window_ok {
  ok_paths : NoDup (map item_filepath (files app));
  ok_ids : NoDup (map item_id (files app));
  ok_created : Forall (fun item => (item_id item < items_created app)%nat) (files app);
  ok_empty_label : empty_label_shown app = true <-> files app = [];
  ok_count : exists rest, count_label app = count_text (length (files app)) +:+ rest;
  ok_controls : controls_enabled app = negb (is_shredding app);
  ok_running : is_shredding app = true -> files app <> []
}.

(** The events of a stretch of the main loop handled one after the other,
    each with the sizes the file system reports at its time. *)
Definition handle_all (events : list ((string -> option Z) * action)) (app : App) : App :=
  fold_left (fun app '(getsize_now, a) => step getsize_now app a) events app.

(** The keys of [PATTERNS]. *)
Definition method_names : list string := ["quick"; "secure"; "dod"; "gutmann"].

(** The paths [_browse_folder] makes of what [os.walk] yields. *)
Definition walked_paths (walk : list (string * list string)) : list string :=
  concat (map (fun '(root, names) => map (path_join root) names) walk).

(** The file of a run is still there, [size] bytes long: under its own name
    or under a drawn one. *)
Definition file_kept (filepath : string) (size : Z) (m : gmap string node) : Prop :=
  exists q, own_paths filepath q /\ file_len q size m.

(** * Verification *)

(** ** World bookkeeping *)

Lemma advance_rand_by_0 w : advance_rand_by 0 w = w.
Proof. destruct w; unfold advance_rand_by; simpl. f_equal. lia. Qed.

Lemma advance_rand_by_S n w :
  advance_rand_by n (advance_rand w) = advance_rand_by (S n) w.
Proof. unfold advance_rand_by, advance_rand; simpl. f_equal. lia. Qed.

Lemma set_fs_same w : set_fs (fs w) w = w.
Proof. now destruct w. Qed.

(** ** [generate_pattern] *)

Lemma py_bytes_ok (l : list Z) (w : World) :
  Forall in_byte_range l -> py_bytes l w = Ret l w.
Proof.
  intros H. unfold py_bytes.
  assert (Hall : forallb (fun b => (0 <=? b) && (b <=? 255)) l = true).
  { apply forallb_forall. intros b Hb.
    rewrite Forall_forall in H. specialize (H b).
    assert (Hr : in_byte_range b) by (apply H; now apply list_elem_of_In).
    unfold in_byte_range in Hr. apply andb_true_intro. split; lia. }
  now rewrite Hall.
Qed.

Lemma random_bytes_length n w : length (random_bytes n w) = n.
Proof. unfold random_bytes. now rewrite length_map, length_seq. Qed.

Lemma random_bytes_range n w : Forall in_byte_range (random_bytes n w).
Proof.
  unfold random_bytes. apply Forall_map, Forall_forall. intros i _.
  unfold in_byte_range.
  pose proof (Z.mod_pos_bound (rand_src w (rand_pos w + i)%nat) 256). lia.
Qed.

Lemma replicateM_draws {A} (g : Z -> A) (n : nat) (w : World) :
  replicateM n (let* x := random_draw in ret (g x)) w
  = Ret (map (fun i => g (rand_src w (rand_pos w + i)%nat)) (seq 0 n))
        (advance_rand_by n w).
Proof.
  revert w. induction n as [|n IH]; intros w.
  - simpl. unfold ret. now rewrite advance_rand_by_0.
  - cbn [replicateM]. unfold bind at 1. unfold bind at 1.
    unfold random_draw at 1. unfold ret at 1.
    unfold bind at 1. rewrite IH. unfold ret.
    rewrite advance_rand_by_S. f_equal.
    cbn [seq map]. f_equal.
    + now rewrite Nat.add_0_r.
    + rewrite <- seq_shift, map_map. apply map_ext. intros i.
      cbn [advance_rand rand_src rand_pos].
      now replace (S (rand_pos w) + i)%nat with (rand_pos w + S i)%nat by lia.
Qed.

Lemma replicateM_randint (n : nat) (w : World) :
  replicateM n (randint 0 255) w = Ret (random_bytes n w) (advance_rand_by n w).
Proof. apply (replicateM_draws (fun x => 0 + x mod (255 - 0 + 1))). Qed.

Lemma random_choices_hex (w : World) :
  random_choices hex_digits 32 w
  = Ret (hex_name_chars (rand_src w) (rand_pos w)) (advance_rand_by 32 w).
Proof.
  apply (replicateM_draws
           (fun x => nth (Z.to_nat (x mod Z.of_nat (length hex_digits))) hex_digits sep)).
Qed.

Lemma repeat_range (b : Z) (n : nat) :
  in_byte_range b -> Forall in_byte_range (repeat b n).
Proof. intros Hb. induction n; simpl; now constructor. Qed.

Lemma generate_pattern_eq (size pass_num : Z) (w : World) :
  generate_pattern size pass_num w
  = Ret (pattern_of size pass_num w) (pattern_world size pass_num w).
Proof.
  unfold generate_pattern, pattern_of, pattern_world.
  destruct (pass_num mod 3 =? 0).
  - apply py_bytes_ok, repeat_range. unfold in_byte_range; lia.
  - destruct (pass_num mod 3 =? 1).
    + apply py_bytes_ok, repeat_range. unfold in_byte_range; lia.
    + unfold bind. rewrite replicateM_randint.
      apply py_bytes_ok, random_bytes_range.
Qed.

Lemma pattern_of_length size pass_num w :
  length (pattern_of size pass_num w) = Z.to_nat size.
Proof.
  unfold pattern_of.
  destruct (pass_num mod 3 =? 0); [apply repeat_length|].
  destruct (pass_num mod 3 =? 1); [apply repeat_length|].
  apply random_bytes_length.
Qed.

Lemma pattern_world_fields size pass_num w :
  fs (pattern_world size pass_num w) = fs w
  /\ faults (pattern_world size pass_num w) = faults w
  /\ clock (pattern_world size pass_num w) = clock w
  /\ trace (pattern_world size pass_num w) = trace w
  /\ rand_src (pattern_world size pass_num w) = rand_src w.
Proof.
  unfold pattern_world.
  destruct (pass_num mod 3 =? 0); [easy|].
  destruct (pass_num mod 3 =? 1); easy.
Qed.

(** C2. For every [size >= 0] and pass index [p >= 0], [generate_pattern]
    returns normally a buffer of exactly [size] bytes, each in [0, 255]:
    all [0x00] when [p mod 3 = 0] and all [0xFF] when [p mod 3 = 1], both
    without touching the random source; when [p mod 3 = 2] the bytes are
    the next [size] draws of the random source, reduced to a byte, and the
    source has advanced by [size]; [size = 0] gives the empty buffer. *)
Theorem C2_generate_pattern (size p : Z) (w : World) :
  0 <= size -> 0 <= p ->
  exists buf w',
    generate_pattern size p w = Ret buf w'
    /\ Z.of_nat (length buf) = size
    /\ Forall in_byte_range buf
    /\ (p mod 3 = 0 -> buf = repeat 0 (Z.to_nat size) /\ w' = w)
    /\ (p mod 3 = 1 -> buf = repeat 255 (Z.to_nat size) /\ w' = w)
    /\ (p mod 3 = 2 ->
        buf = map (fun i => rand_src w (rand_pos w + i)%nat mod 256)
                  (seq 0 (Z.to_nat size))
        /\ w' = advance_rand_by (Z.to_nat size) w)
    /\ (size = 0 -> buf = []).
Proof.
  intros Hsize Hp.
  exists (pattern_of size p w), (pattern_world size p w).
  split; [apply generate_pattern_eq|].
  split; [rewrite pattern_of_length; lia|].
  unfold pattern_of, pattern_world.
  destruct (Z.eqb_spec (p mod 3) 0) as [H0|H0].
  { repeat split; try lia.
    - apply repeat_range; unfold in_byte_range; lia.
    - intros ->. reflexivity. }
  destruct (Z.eqb_spec (p mod 3) 1) as [H1|H1].
  { repeat split; try lia.
    - apply repeat_range; unfold in_byte_range; lia.
    - intros ->. reflexivity. }
  repeat split; try lia.
  - apply random_bytes_range.
  - intros ->. reflexivity.
Qed.

(** The theorem at a three-byte buffer of the random pass. *)
Lemma C2_generate_pattern_witness :
  exists buf w',
    generate_pattern 3 5 (mkWorld ∅ (fun n => Z.of_nat n + 300) 0 (fun _ => false) 0 [])
    = Ret buf w' /\ buf = [44; 45; 46].
Proof.
  destruct (C2_generate_pattern 3 5
              (mkWorld ∅ (fun n => Z.of_nat n + 300) 0 (fun _ => false) 0 []))
    as (buf & w' & Hrun & _ & _ & _ & _ & H2 & _); [lia | lia |].
  exists buf, w'. split; [exact Hrun|].
  destruct H2 as [Hbuf _]; [reflexivity|]. exact Hbuf.
Defined.

(** ** One chunk *)

Lemma same_files_refl w : same_files w w.
Proof. intros q. reflexivity. Qed.

Lemma same_files_trans w1 w2 w3 :
  same_files w1 w2 -> same_files w2 w3 -> same_files w1 w3.
Proof. intros H12 H23 q. now rewrite H23, H12. Qed.

Lemma same_files_fs w w' : fs w' = fs w -> same_files w w'.
Proof. intros H q. unfold isfile. now rewrite H. Qed.

Lemma same_files_write w w' p old new :
  fs w !! p = Some (RegularFile old) ->
  fs w' = <[p := RegularFile new]> (fs w) ->
  same_files w w'.
Proof.
  intros Hold Hnew q. unfold isfile. rewrite Hnew.
  destruct (decide (p = q)) as [->|Hne].
  - now rewrite lookup_insert_eq, Hold.
  - now rewrite lookup_insert_ne.
Qed.

Lemma chunk_step_shape cb file_size pass_num passes chunk_size f bytes_written w :
  step_shape cb file_size pass_num passes f
    (bytes_written + Z.min chunk_size (file_size - bytes_written))
    (pattern_of (Z.min chunk_size (file_size - bytes_written)) pass_num w) w
    (chunk_step cb file_size pass_num passes chunk_size f bytes_written w).
Proof.
  unfold chunk_step.
  set (cc := Z.min chunk_size (file_size - bytes_written)).
  unfold bind at 1. rewrite generate_pattern_eq.
  set (data := pattern_of cc pass_num w).
  destruct (pattern_world_fields cc pass_num w) as (Hfs & Hfl & Hck & Htr & Hrs).
  set (w0 := pattern_world cc pass_num w) in *.
  unfold bind at 1. unfold f_write, fails. rewrite Hfl, Hck, Hfs.
  assert (Hkeep : forall ev, same_files w (emit ev (tick w0))).
  { intros ev. apply same_files_fs. exact Hfs. }
  destruct (faults w (clock w)) eqn:F1.
  { unfold sys_fail. apply step_write_fail; cbn; auto. now rewrite Htr. }
  destruct (fs w !! h_path f) as [[old| |]|] eqn:Hlook.
  2-4: unfold sys_fail; apply step_write_fail; cbn; auto;
       [right; congruence | now rewrite Htr].
  assert (Hwritten : forall w', fs w' = <[h_path f := RegularFile (overwrite_at (h_pos f) data old)]> (fs w) ->
                                same_files w w').
  { intros w' Hw'. eapply same_files_write; eassumption. }
  unfold sys_ok.
  unfold bind at 1. unfold f_flush, fails, sys_fail, sys_ok.
  cbn [faults clock emit tick set_fs fs trace rand_src h_path h_pos].
  rewrite Hfl, Hck.
  destruct (faults w (S (clock w))) eqn:F2.
  { apply step_flush_fail; cbn; auto. now rewrite Htr, <- app_assoc. }
  unfold bind at 1. unfold os_fsync, fails, sys_fail, sys_ok.
  cbn [faults clock emit tick set_fs fs trace rand_src h_path h_pos].
  rewrite Hfl, Hck.
  destruct (faults w (S (S (clock w)))) eqn:F3.
  { apply step_fsync_fail; cbn; auto. rewrite Htr, <- !app_assoc. reflexivity. }
  unfold bind at 1. unfold update_progress.
  destruct cb as [c|].
  - unfold bind at 1. unfold py_truediv.
    destruct (Z.eqb_spec (passes * file_size) 0) as [Hz|Hz].
    + unfold raise. eapply step_zero_div; eauto. cbn.
      rewrite Htr, <- !app_assoc. reflexivity.
    + unfold ret at 1. unfold call_progress.
      cbn [faults clock emit tick set_fs fs trace rand_src h_path h_pos].
      rewrite Htr, <- !app_assoc. cbn [app].
      fold (synced_write f data).
      change (inject_Z (pass_num * file_size + (bytes_written + cc))
              / inject_Z (passes * file_size) * inject_Z 100)%Q
        with (percent file_size pass_num passes (bytes_written + cc)).
      destruct (c _ _ _) as [e|] eqn:Hc.
      * eapply step_sink_raise; eauto. cbn.
        rewrite Htr, <- !app_assoc. reflexivity.
      * unfold ret. eapply step_done; eauto; cbn; auto.
        -- rewrite Htr, <- !app_assoc. reflexivity.
        -- rewrite Hck. lia.
  - unfold ret. eapply step_done; eauto; cbn; auto.
    + rewrite Htr, <- !app_assoc. reflexivity.
    + rewrite Hck. lia.
Qed.

(** ** Traces *)

Lemma opens_app (e1 e2 : list event) : opens (e1 ++ e2) = (opens e1 + opens e2)%nat.
Proof. unfold opens. now rewrite filter_app, length_app. Qed.

Lemma opens_chunk_events (evs : list event) :
  Forall (fun ev => is_chunk_event ev = true) evs -> opens evs = 0%nat.
Proof.
  induction 1 as [|ev evs Hev _ IH]; [reflexivity|].
  change (ev :: evs) with ([ev] ++ evs). rewrite opens_app, IH.
  destruct ev as [[]| |]; try discriminate; reflexivity.
Qed.

Lemma chunk_event_pass_event (evs : list event) :
  Forall (fun ev => is_chunk_event ev = true) evs ->
  Forall (fun ev => is_pass_event ev = true) evs.
Proof.
  intros H. eapply Forall_impl; [exact H|].
  intros [[]| |]; simpl; auto.
Qed.

(** ** The chunk loop emits chunk events only and keeps the files *)

Lemma chunk_step_events cb file_size pass_num passes chunk_size f bytes_written w :
  after w (chunk_step cb file_size pass_num passes chunk_size f bytes_written w)
    (fun w' evs => Forall (fun ev => is_chunk_event ev = true) evs /\ same_files w w').
Proof.
  pose proof (chunk_step_shape cb file_size pass_num passes chunk_size f bytes_written w) as Hs.
  remember (chunk_step _ _ _ _ _ _ _ _) as o eqn:Ho. clear Ho.
  destruct Hs; simpl; eexists; (split; [eassumption|]); (split; [|assumption]);
    unfold synced_write, progress_events; try destruct cb; repeat constructor.
Qed.

Lemma chunk_loop_events fuel cb file_size pass_num passes chunk_size :
  forall f bytes_written w,
    after w (chunk_loop fuel cb file_size pass_num passes chunk_size f bytes_written w)
      (fun w' evs => Forall (fun ev => is_chunk_event ev = true) evs /\ same_files w w').
Proof.
  assert (Hnil : forall (f : handle) w,
             after w (ret f w)
               (fun w' evs => Forall (fun ev => is_chunk_event ev = true) evs
                              /\ same_files w w')).
  { intros f w. exists []. split; [now rewrite app_nil_r|].
    split; [constructor | apply same_files_refl]. }
  induction fuel as [|fuel IH]; intros f bw w; simpl.
  - destruct (bw <? file_size); [exact I | apply Hnil].
  - destruct (bw <? file_size); [|apply Hnil].
    unfold bind.
    pose proof (chunk_step_events cb file_size pass_num passes chunk_size f bw w) as Hs.
    destruct (chunk_step _ _ _ _ _ _ _ _) as [[f' bw'] w1|e w1|]; simpl in *; auto.
    destruct Hs as (evs1 & Ht1 & Hk1 & Hf1).
    specialize (IH f' bw' w1).
    destruct (chunk_loop _ _ _ _ _ _ _ _ _) as [f'' w2|e w2|]; simpl in *; auto;
      destruct IH as (evs2 & Ht2 & Hk2 & Hf2); exists (evs1 ++ evs2);
      (split; [rewrite Ht2, Ht1; now rewrite app_assoc|]);
      (split; [now apply Forall_app | eapply same_files_trans; eassumption]).
Qed.

(** ** A pass opens the file once and emits pass events only *)

Lemma overwrite_pass_events fuel path cb file_size passes chunk_size pass_num w :
  after w (overwrite_pass fuel path cb file_size passes chunk_size pass_num w)
    (fun w' evs => Forall (fun ev => is_pass_event ev = true) evs
                   /\ opens evs = 1%nat /\ same_files w w').
Proof.
  assert (Hfail : forall b (w' := emit (EvSys (SysOpen path) b) (tick w)),
             exists evs, trace w' = trace w ++ evs
               /\ Forall (fun ev => is_pass_event ev = true) evs
               /\ opens evs = 1%nat /\ same_files w w').
  { intros b w'. exists [EvSys (SysOpen path) b]. split; [reflexivity|].
    split; [repeat constructor|]. split; [reflexivity|]. now apply same_files_fs. }
  assert (Hdone : forall w2 w3 evs p b,
             trace w2 = (trace w ++ [EvSys (SysOpen path) true]) ++ evs ->
             Forall (fun ev => is_chunk_event ev = true) evs ->
             same_files (emit (EvSys (SysOpen path) true) (tick w)) w2 ->
             trace w3 = trace w2 ++ [EvSys (SysClose p) b] ->
             fs w3 = fs w2 ->
             exists evs0, trace w3 = trace w ++ evs0
               /\ Forall (fun ev => is_pass_event ev = true) evs0
               /\ opens evs0 = 1%nat /\ same_files w w3).
  { intros w2 w3 evs p b Ht Hk Hf Ht3 Hfs3.
    exists ([EvSys (SysOpen path) true] ++ evs ++ [EvSys (SysClose p) b]).
    split; [rewrite Ht3, Ht, <- !app_assoc; reflexivity|].
    split.
    { apply Forall_app; split; [repeat constructor|].
      apply Forall_app; split; [now apply chunk_event_pass_event | repeat constructor]. }
    split.
    { rewrite !opens_app, (opens_chunk_events evs Hk). reflexivity. }
    eapply same_files_trans; [|eapply same_files_trans; [exact Hf|now apply same_files_fs]].
    now apply same_files_fs. }
  unfold overwrite_pass, with_open, py_open, fails, sys_fail, sys_ok.
  destruct (faults w (clock w)); [apply Hfail|].
  destruct (fs w !! path) as [[c| |]|]; try apply Hfail.
  rewrite set_fs_same.
  unfold bind at 1.
  pose proof (chunk_loop_events fuel cb file_size pass_num passes chunk_size
                (mkHandle path 0) 0 (emit (EvSys (SysOpen path) true) (tick w))) as Hloop.
  destruct (chunk_loop _ _ _ _ _ _ _ _ _) as [f' w2|e w2|]; simpl in Hloop |- *; auto.
  - destruct Hloop as (evs & Ht & Hk & Hf).
    unfold bind, f_close, fails, sys_fail, sys_ok, ret.
    destruct (faults w2 (clock w2)); lazy beta iota;
      eapply (Hdone w2 _ evs); eauto; reflexivity.
  - destruct Hloop as (evs & Ht & Hk & Hf).
    unfold f_close, fails, sys_fail, sys_ok.
    destruct (faults w2 (clock w2)); lazy beta iota;
      eapply (Hdone w2 _ evs); eauto; reflexivity.
Qed.

Lemma passes_events fuel path cb file_size passes chunk_size (l : list Z) :
  forall w,
    match for_each l (overwrite_pass fuel path cb file_size passes chunk_size) w with
    | Ret _ w' =>
        exists evs, trace w' = trace w ++ evs
          /\ Forall (fun ev => is_pass_event ev = true) evs
          /\ opens evs = length l /\ same_files w w'
    | Exn _ w' =>
        exists evs, trace w' = trace w ++ evs
          /\ Forall (fun ev => is_pass_event ev = true) evs
          /\ (1 <= opens evs <= length l)%nat /\ same_files w w'
    | Diverge => True
    end.
Proof.
  induction l as [|p l IH]; intros w; simpl.
  - exists []. rewrite app_nil_r. repeat split; auto using same_files_refl.
  - unfold bind.
    pose proof (overwrite_pass_events fuel path cb file_size passes chunk_size p w) as Hp.
    destruct (overwrite_pass _ _ _ _ _ _ _ _) as [[] w1|e w1|]; simpl in Hp; auto.
    + destruct Hp as (evs1 & Ht1 & Hk1 & Ho1 & Hf1).
      specialize (IH w1).
      destruct (for_each _ _ _) as [[] w2|e w2|]; auto;
        destruct IH as (evs2 & Ht2 & Hk2 & Ho2 & Hf2); exists (evs1 ++ evs2);
        (split; [rewrite Ht2, Ht1; now rewrite app_assoc|]);
        (split; [now apply Forall_app|]);
        (split; [rewrite opens_app; lia | eapply same_files_trans; eassumption]).
    + destruct Hp as (evs1 & Ht1 & Hk1 & Ho1 & Hf1).
      exists evs1. repeat split; auto; lia.
Qed.

(** ** The stages of [shred_file] *)

Lemma getsize_Ret p w n w1 :
  getsize p w = Ret n w1 ->
  exists c, fs w !! p = Some (RegularFile c) /\ n = Z.of_nat (length c)
            /\ faults w (clock w) = false
            /\ w1 = emit (EvSys (SysGetsize p) true) (tick w).
Proof.
  unfold getsize, fails, sys_fail, sys_ok.
  destruct (faults w (clock w)); [discriminate|].
  destruct (fs w !! p) as [[c| |]|]; try discriminate.
  rewrite set_fs_same. intros [= <- <-]. eauto.
Qed.

Lemma os_remove_Ret p w u w1 :
  os_remove p w = Ret u w1 ->
  w1 = emit (EvSys (SysRemove p) true) (tick (set_fs (delete p (fs w)) w)).
Proof.
  unfold os_remove, fails, sys_fail, sys_ok.
  destruct (faults w (clock w)); [discriminate|].
  destruct (fs w !! p) as [[c| |]|]; try discriminate; now intros [= <-].
Qed.


Lemma py_range_length n : length (py_range n) = Z.to_nat n.
Proof. unfold py_range. now rewrite length_map, length_seq. Qed.


Lemma pass_event_keeps_name (evs : list event) :
  Forall (fun ev => is_pass_event ev = true) evs -> Forall keeps_name evs.
Proof.
  intros H. eapply Forall_impl; [exact H|].
  intros [[]| |]; simpl; try discriminate; now split.
Qed.

Lemma PATTERNS_cases (method : string) :
  dict_get PATTERNS method 3 = 1 \/ dict_get PATTERNS method 3 = 3
  \/ dict_get PATTERNS method 3 = 7 \/ dict_get PATTERNS method 3 = 35.
Proof.
  unfold dict_get, PATTERNS.
  destruct (decide (method = "quick")) as [->|H1]; [rewrite lookup_insert_eq; auto|].
  rewrite lookup_insert_ne by congruence.
  destruct (decide (method = "secure")) as [->|H2]; [rewrite lookup_insert_eq; auto|].
  rewrite lookup_insert_ne by congruence.
  destruct (decide (method = "dod")) as [->|H3]; [rewrite lookup_insert_eq; auto|].
  rewrite lookup_insert_ne by congruence.
  destruct (decide (method = "gutmann")) as [->|H4]; [rewrite lookup_insert_eq; auto|].
  rewrite lookup_insert_ne by congruence. rewrite lookup_empty. auto.
Qed.

(** C9. When the path is not an existing regular file (it is missing, a
    directory or a special file), [shred_file] returns [False] and the
    world is untouched: nothing is written, renamed or deleted, the
    progress callback is not invoked and nothing is printed. *)
Theorem C9_not_a_regular_file (fuel : nat) (filepath method : string)
    (progress_callback : option Callback) (chunk_size : Z) (w : World) :
  (forall content, fs w !! filepath <> Some (RegularFile content)) ->
  shred_file fuel filepath method progress_callback chunk_size w = Ret false w.
Proof.
  intros Hnot. unfold shred_file, try_except, shred_body, isfile.
  destruct (fs w !! filepath) as [[c| |]|] eqn:Hlook; try reflexivity.
  now destruct (Hnot c).
Qed.

(** The theorem at a path that is a directory. *)
Lemma C9_not_a_regular_file_witness :
  let w := mkWorld (<["docs" := Directory]> ∅) (fun _ => 0) 0 (fun _ => false) 0 [] in
  shred_file 5 "docs" "dod" (Some (fun _ _ _ => None)) 1024 w = Ret false w.
Proof.
  intros w. apply C9_not_a_regular_file.
  intros content. unfold w. cbn [fs]. rewrite lookup_insert_eq. discriminate.
Defined.



(** ** Successful runs *)

Lemma final_progress_Ret cb w u w' :
  final_progress cb w = Ret u w' ->
  w' = fold_left (fun w ev => emit ev w) (progress_events cb (inject_Z 100) "Fertig!") w.
Proof.
  unfold final_progress, progress_events, call_progress, ret.
  destruct cb as [c|]; [|now intros [= <-]].
  destruct (c _ _ _); [discriminate|]. now intros [= <-].
Qed.

Lemma final_progress_trace cb w u w' :
  final_progress cb w = Ret u w' ->
  trace w' = trace w ++ progress_events cb (inject_Z 100) "Fertig!" /\ fs w' = fs w.
Proof.
  intros H. apply final_progress_Ret in H as ->.
  destruct cb; simpl; [auto|]. now rewrite app_nil_r.
Qed.

(** A run that returns [True] went through every stage. *)
Lemma shred_file_true fuel filepath method cb chunk_size w w' :
  shred_file fuel filepath method cb chunk_size w = Ret true w' ->
  exists file_size w1 w2 current_path w3 w4,
    isfile filepath w = true
    /\ get_file_size filepath w = Ret file_size w1
    /\ for_each (py_range (dict_get PATTERNS method 3))
         (overwrite_pass fuel filepath cb file_size (dict_get PATTERNS method 3) chunk_size)
         w1 = Ret tt w2
    /\ rename_loop 3 (dirname filepath) filepath w2 = Ret current_path w3
    /\ os_remove current_path w3 = Ret tt w4
    /\ final_progress cb w4 = Ret tt w'.
Proof.
  unfold shred_file, try_except.
  destruct (shred_body _ _ _ _ _ w) as [b wb|e wb|] eqn:Hbody; try discriminate.
  2: { destruct (is_Exception e); discriminate. }
  intros [= -> ->]. revert Hbody. unfold shred_body.
  destruct (isfile filepath w); cbn [negb]; [|discriminate].
  unfold bind at 1.
  destruct (get_file_size filepath w) as [file_size w1|?|] eqn:H1; try discriminate.
  unfold bind at 1.
  destruct (for_each _ _ w1) as [[] w2|?|] eqn:H2; try discriminate.
  unfold bind at 1.
  destruct (rename_loop _ _ _ w2) as [current_path w3|?|] eqn:H3; try discriminate.
  unfold bind at 1.
  destruct (os_remove _ w3) as [[] w4|?|] eqn:H4; try discriminate.
  unfold bind at 1.
  destruct (final_progress cb w4) as [[] w5|?|] eqn:H5; try discriminate.
  unfold ret. intros [= ->].
  exists file_size, w1, w2, current_path, w3, w4.
  repeat split; assumption || reflexivity.
Qed.

Lemma os_rename_Ret src dst w u w' :
  os_rename src dst w = Ret u w' ->
  exists n, fs w !! src = Some n
    /\ w' = emit (EvSys (SysRename src dst) true)
              (tick (set_fs (<[dst := n]> (delete src (fs w))) w)).
Proof.
  unfold os_rename, fails, sys_fail, sys_ok.
  destruct (faults w (clock w)); [discriminate|].
  destruct (fs w !! src) as [n|]; [|discriminate].
  destruct (fs w !! dst) as [[| |]|]; try discriminate; intros [= <-]; eauto.
Qed.

Lemma last_cons {A} (l : list A) (x d : A) : List.last (x :: l) d = List.last l x.
Proof.
  revert x d. induction l as [|y l IH]; intros x d; [reflexivity|].
  change (List.last (x :: y :: l) d) with (List.last (y :: l) d).
  now rewrite !IH.
Qed.

Lemma rename_loop_Ret n directory :
  forall current_path w last_path w',
    rename_loop n directory current_path w = Ret last_path w' ->
    trace w' = trace w ++ rename_chain current_path
                            (rename_targets n directory (rand_src w) (rand_pos w))
    /\ last_path = List.last (rename_targets n directory (rand_src w) (rand_pos w))
                             current_path
    /\ fs w' !! last_path = fs w !! current_path.
Proof.
  induction n as [|n IH]; intros cur w last_path w'; cbn [rename_loop rename_targets].
  - unfold ret. intros [= <- <-]. simpl. now rewrite app_nil_r.
  - unfold bind at 1. rewrite random_choices_hex.
    fold (hex_name (rand_src w) (rand_pos w)).
    set (t := path_join directory (hex_name (rand_src w) (rand_pos w))).
    unfold bind at 1.
    destruct (os_rename cur t (advance_rand_by 32 w)) as [[] w1|?|] eqn:Hren;
      try discriminate.
    apply os_rename_Ret in Hren as (nd & Hsrc & ->).
    intros Hrest. apply IH in Hrest.
    cbn [rand_src rand_pos trace fs emit tick set_fs advance_rand_by] in Hrest, Hsrc.
    destruct Hrest as (Htr & Hlast & Hfs).
    split; [|split].
    + rewrite Htr. cbn [rename_chain]. now rewrite <- app_assoc.
    + rewrite Hlast. now rewrite last_cons.
    + rewrite Hfs, lookup_insert_eq. now rewrite Hsrc.
Qed.







(** ** Progress after a chunk *)

(** C7. In pass [pass_num] of [passes], a chunk that has been written,
    flushed and synced is followed by exactly one invocation of the
    progress callback, with the percentage
    [((pass_num * file_size + bytes_written) / (passes * file_size)) * 100]
    taken at the updated [bytes_written], and with the label
    ["Durchgang i/passes"] where [i = pass_num + 1]; when one of the three
    calls fails the callback is not invoked for that chunk. *)
Theorem C7_progress_after_each_chunk (cb : Callback)
    (file_size pass_num passes chunk_size : Z) (f : handle) (bytes_written : Z)
    (w : World) :
  0 < passes -> 0 <= bytes_written < file_size ->
  let written := bytes_written + Z.min chunk_size (file_size - bytes_written) in
  let pct := (inject_Z (pass_num * file_size + written)
              / inject_Z (passes * file_size) * inject_Z 100)%Q in
  let label := "Durchgang " +:+ pretty (pass_num + 1) +:+ "/" +:+ pretty passes in
  let data := pattern_of (Z.min chunk_size (file_size - bytes_written)) pass_num w in
    match chunk_step (Some cb) file_size pass_num passes chunk_size f bytes_written w with
    | Ret (f', bytes_written') w' =>
        bytes_written' = written
        /\ trace w' = trace w ++ synced_write f data ++ [EvProgress pct label]
    | Exn e w' =>
        (trace w' = trace w ++ synced_write f data ++ [EvProgress pct label]
         /\ cb (trace w ++ synced_write f data) pct label = Some e)
        \/ (exists evs c, trace w' = trace w ++ evs ++ [EvSys c false]
                          /\ progress_values (evs ++ [EvSys c false]) = []
                          /\ exists msg, e = OSError msg)
    | Diverge => False
    end.
Proof.
  intros HN Hbw written pct label data.
  assert (Hden : passes * file_size <> 0) by nia.
  pose proof (chunk_step_shape (Some cb) file_size pass_num passes chunk_size
                f bytes_written w) as Hs.
  fold written data in Hs.
  remember (chunk_step _ _ _ _ _ _ _ _) as o eqn:Ho. clear Ho.
  destruct Hs as [w' _ Ht _|w' _ Ht _|w' _ Ht _|c w' _ Hz _ _|c e w' Hc _ Hraise Ht _
                 |old w' _ Ht _ _ _ _ _].
  - right. exists [], (SysWrite (h_path f) (h_pos f) data).
    split; [exact Ht|]. split; [reflexivity | eauto].
  - right. eexists [_], _. split; [exact Ht|]. split; [reflexivity | eauto].
  - right. eexists [_; _], _. split; [exact Ht|]. split; [reflexivity | eauto].
  - contradiction.
  - left. injection Hc as <-. split; [exact Ht | exact Hraise].
  - split; [reflexivity | exact Ht].
Qed.

(** The theorem at the first chunk of a three-byte file written in chunks
    of two. *)
Lemma C7_progress_after_each_chunk_witness :
  let w := mkWorld (<["a/f" := RegularFile [1; 2; 3]]> ∅)
             (fun n => Z.of_nat n) 0 (fun _ => false) 0 [] in
  exists w',
    chunk_step (Some (fun _ _ _ => None)) 3 0 1 2 (mkHandle "a/f" 0) 0 w
    = Ret (mkHandle "a/f" 2, 2) w'
    /\ trace w' = [EvSys (SysWrite "a/f" 0 [0; 0]) true; EvSys (SysFlush "a/f") true;
                   EvSys (SysFsync "a/f") true; EvProgress (200 # 3) "Durchgang 1/1"].
Proof.
  intros w.
  pose proof (C7_progress_after_each_chunk (fun _ _ _ => None) 3 0 1 2
                (mkHandle "a/f" 0) 0 w) as H.
  cbv zeta in H. specialize (H ltac:(lia) ltac:(lia)).
  destruct (chunk_step _ _ _ _ _ _ _ w) as [[f' bw'] w'|e w'|] eqn:Hrun;
    try (vm_compute in Hrun; discriminate).
  destruct H as (_ & Ht).
  exists w'. split; [|exact Ht].
  vm_compute in Hrun. injection Hrun as <- <- _. reflexivity.
Defined.

(** ** A pass over a file with no failure *)

Lemma overwrite_at_length pos data content :
  0 <= pos ->
  (Z.to_nat pos + length data <= length content)%nat ->
  length (overwrite_at pos data content) = length content.
Proof.
  intros Hpos Hfit. unfold overwrite_at.
  rewrite !length_app, length_firstn, length_skipn. lia.
Qed.

Lemma overwrite_at_prefix pos data content :
  0 <= pos ->
  (Z.to_nat pos <= length content)%nat ->
  firstn (Z.to_nat (pos + Z.of_nat (length data))) (overwrite_at pos data content)
  = firstn (Z.to_nat pos) content ++ data.
Proof.
  intros Hpos Hfit. unfold overwrite_at.
  rewrite app_assoc.
  rewrite firstn_app.
  rewrite firstn_all2 by (rewrite length_app, length_firstn; lia).
  replace (Z.to_nat (pos + Z.of_nat (length data))
           - length (firstn (Z.to_nat pos) content ++ data))%nat with 0%nat
    by (rewrite length_app, length_firstn; lia).
  cbn [firstn]. now rewrite app_nil_r.
Qed.

Lemma chunking_total chunk_size file_size chunks :
  forall off, chunking chunk_size file_size off chunks ->
              Z.of_nat (length (concat chunks)) = file_size - off.
Proof.
  induction chunks as [|d ds IH]; intros off; cbn [chunking concat].
  - intros ->. simpl. lia.
  - intros (_ & _ & Hrest). apply IH in Hrest. rewrite length_app. lia.
Qed.

Lemma chunk_loop_ok cb path file_size pass_num passes chunk_size :
  0 < chunk_size -> 0 < passes -> quiet_sink cb ->
  forall fuel bytes_written w old,
    0 <= bytes_written <= file_size ->
    file_size - bytes_written <= Z.of_nat fuel ->
    fault_free w ->
    fs w !! path = Some (RegularFile old) ->
    Z.of_nat (length old) = file_size ->
    exists w' chunks,
      chunk_loop fuel cb file_size pass_num passes chunk_size
        (mkHandle path bytes_written) bytes_written w
      = Ret (mkHandle path file_size) w'
      /\ trace w' = trace w ++ chunk_events cb path file_size pass_num passes
                                bytes_written chunks
      /\ chunking chunk_size file_size bytes_written chunks
      /\ fs w' !! path
         = Some (RegularFile (firstn (Z.to_nat bytes_written) old ++ concat chunks))
      /\ fault_free w'.
Proof.
  intros HC HN Hquiet.
  induction fuel as [|fuel IH]; intros bw w old Hbw Hfuel Hff Hlook Hlen.
  - assert (bw = file_size) as -> by lia.
    exists w, []. cbn [chunk_loop]. rewrite Z.ltb_irrefl.
    repeat split; auto.
    + now rewrite app_nil_r.
    + rewrite Hlook, app_nil_r, firstn_all2 by lia. reflexivity.
  - cbn [chunk_loop]. destruct (Z.ltb_spec bw file_size) as [Hlt|Hge].
    2: { assert (bw = file_size) as -> by lia.
         exists w, []. repeat split; auto.
         - now rewrite app_nil_r.
         - rewrite Hlook, app_nil_r, firstn_all2 by lia. reflexivity. }
    unfold bind.
    pose proof (chunk_step_shape cb file_size pass_num passes chunk_size
                  (mkHandle path bw) bw w) as Hs.
    set (cc := Z.min chunk_size (file_size - bw)) in *.
    set (data := pattern_of cc pass_num w) in *.
    assert (Hdata : Z.of_nat (length data) = cc).
    { unfold data. rewrite pattern_of_length. lia. }
    cbn [h_path h_pos] in Hs.
    remember (chunk_step _ _ _ _ _ _ _ _) as o eqn:Ho. clear Ho.
    destruct Hs as [w1 [Hf|Hf] _ _|w1 Hf _ _|w1 Hf _ _|c w1 _ Hz _ _|c e w1 Hc _ Hraise _ _
                   |old' w1 Hlook' Ht Hfs Hfl _ _ _];
      cbn [h_path h_pos] in *.
    + now rewrite Hff in Hf.
    + now destruct (Hf old).
    + now rewrite Hff in Hf.
    + now rewrite Hff in Hf.
    + nia.
    + now rewrite (Hquiet c _ _ _ Hc) in Hraise.
    + rewrite Hlook in Hlook'. injection Hlook' as <-.
      cbn [fst snd]. rewrite Hdata.
      destruct (IH (bw + cc) w1 (overwrite_at bw data old))
        as (w' & chunks & Hrun & Ht' & Hch & Hfs' & Hff'); try lia.
      * intros n. now rewrite Hfl.
      * rewrite Hfs. apply lookup_insert_eq.
      * rewrite overwrite_at_length; lia.
      * exists w', (data :: chunks). split; [exact Hrun|].
        split.
        { rewrite Ht', Ht. cbn [chunk_events]. rewrite Hdata, <- !app_assoc. reflexivity. }
        split.
        { cbn [chunking]. rewrite Hdata. repeat split; auto. }
        split; [|exact Hff'].
        rewrite Hfs'. cbn [concat]. rewrite app_assoc. do 3 f_equal.
        rewrite <- Hdata. apply overwrite_at_prefix; lia.
Qed.

(** C1. For a file of [S >= 0] bytes and a chunk size [C > 0], a pass in
    which no call fails returns, and between opening and closing the file
    it writes chunks that start at offset 0, follow each other without gap
    or overlap, have [min(C, remaining)] bytes each and stop exactly when
    the bytes written reach [S]: [S] bytes in total, and the file then
    holds exactly the chunks written, whether or not [C] divides [S]. *)
Theorem C1_pass_writes_every_byte_once (fuel : nat) (filepath : string)
    (cb : option Callback) (content : list Z) (pass_num passes chunk_size : Z)
    (w : World) :
  0 < chunk_size ->
  0 <= pass_num < passes ->
  fs w !! filepath = Some (RegularFile content) ->
  Z.of_nat (length content) <= Z.of_nat fuel ->
  fault_free w ->
  quiet_sink cb ->
  let file_size := Z.of_nat (length content) in
  exists w' chunks,
    overwrite_pass fuel filepath cb file_size passes chunk_size pass_num w = Ret tt w'
    /\ trace w' = trace w ++ [EvSys (SysOpen filepath) true]
                    ++ chunk_events cb filepath file_size pass_num passes 0 chunks
                    ++ [EvSys (SysClose filepath) true]
    /\ chunking chunk_size file_size 0 chunks
    /\ Z.of_nat (length (concat chunks)) = file_size
    /\ fs w' !! filepath = Some (RegularFile (concat chunks)).
Proof.
  intros HC Hp Hlook Hfuel Hff Hquiet file_size.
  unfold overwrite_pass, with_open, py_open, fails, sys_ok.
  rewrite Hff, Hlook, set_fs_same.
  destruct (chunk_loop_ok cb filepath file_size pass_num passes chunk_size
              HC ltac:(lia) Hquiet fuel 0
              (emit (EvSys (SysOpen filepath) true) (tick w)) content)
    as (w1 & chunks & Hrun & Ht & Hch & Hfs & Hff1); auto; try (unfold file_size; lia).
  exists (emit (EvSys (SysClose filepath) true) (tick w1)), chunks.
  unfold bind at 1. rewrite Hrun. unfold ret at 1. cbv beta iota.
  unfold bind, f_close, fails, sys_ok, ret. rewrite Hff1, set_fs_same.
  cbn [h_path trace fs emit tick].
  split; [reflexivity|].
  split; [rewrite Ht; cbn [trace emit tick]; now rewrite <- !app_assoc|].
  split; [exact Hch|].
  split; [rewrite (chunking_total _ _ _ _ Hch); lia|].
  rewrite Hfs. reflexivity.
Qed.

(** The theorem at a five-byte file overwritten in chunks of two. *)
Lemma C1_pass_writes_every_byte_once_witness :
  let w := mkWorld (<["a/f" := RegularFile [1; 2; 3; 4; 5]]> ∅)
             (fun n => Z.of_nat n) 0 (fun _ => false) 0 [] in
  exists w' chunks,
    overwrite_pass 5 "a/f" None 5 3 2 1 w = Ret tt w'
    /\ chunking 2 5 0 chunks
    /\ fs w' !! "a/f" = Some (RegularFile (concat chunks)).
Proof.
  intros w.
  destruct (C1_pass_writes_every_byte_once 5 "a/f" None [1; 2; 3; 4; 5] 1 3 2 w)
    as (w' & chunks & Hrun & _ & Hch & _ & Hfs).
  - lia.
  - lia.
  - reflexivity.
  - simpl; lia.
  - intros n; reflexivity.
  - intros c tr q l H; discriminate.
  - exists w', chunks. repeat split; assumption.
Defined.

(** ** Runs with no failure *)

Lemma string_of_list_ascii_length (l : list ascii) :
  String.length (string_of_list_ascii l) = length l.
Proof. induction l as [|c l IH]; simpl; congruence. Qed.

Lemma hex_name_length src pos : String.length (hex_name src pos) = 32%nat.
Proof.
  unfold hex_name, hex_name_chars.
  now rewrite string_of_list_ascii_length, length_map, length_seq.
Qed.

Lemma overwrite_pass_empty fuel path cb passes chunk_size pass_num w c :
  fault_free w ->
  fs w !! path = Some (RegularFile c) ->
  overwrite_pass fuel path cb 0 passes chunk_size pass_num w
  = Ret tt (emit (EvSys (SysClose path) true) (tick (emit (EvSys (SysOpen path) true) (tick w)))).
Proof.
  intros Hff Hlook.
  unfold overwrite_pass, with_open, py_open, fails, sys_ok.
  rewrite Hff, Hlook, set_fs_same.
  unfold bind at 1.
  assert (Hloop : forall w1 f, chunk_loop fuel cb 0 pass_num passes chunk_size f 0 w1 = Ret f w1).
  { intros w1 f. destruct fuel; reflexivity. }
  rewrite Hloop. unfold ret at 1. cbv beta iota.
  unfold bind, f_close, fails, sys_ok, ret.
  cbn [faults clock emit tick h_path]. rewrite Hff, set_fs_same. reflexivity.
Qed.

Lemma passes_empty fuel path cb passes chunk_size c (l : list Z) :
  forall w,
    fault_free w ->
    fs w !! path = Some (RegularFile c) ->
    exists w',
      for_each l (overwrite_pass fuel path cb 0 passes chunk_size) w = Ret tt w'
      /\ trace w' = trace w ++ concat (map (fun _ => empty_pass path) l)
      /\ fs w' = fs w /\ faults w' = faults w
      /\ rand_src w' = rand_src w /\ rand_pos w' = rand_pos w.
Proof.
  induction l as [|p l IH]; intros w Hff Hlook; cbn [for_each map concat].
  - exists w. rewrite app_nil_r. repeat split; reflexivity.
  - unfold bind. rewrite (overwrite_pass_empty _ _ _ _ _ _ _ c Hff Hlook).
    destruct (IH (emit (EvSys (SysClose path) true)
                    (tick (emit (EvSys (SysOpen path) true) (tick w)))))
      as (w' & Hrun & Ht & Hfs & Hfl & Hrs & Hrp); [exact Hff | exact Hlook |].
    exists w'. split; [exact Hrun|].
    split; [rewrite Ht; cbn [trace emit tick]; unfold empty_pass; now rewrite <- !app_assoc|].
    repeat split; assumption.
Qed.

Lemma rename_loop_ok n directory c :
  forall current_path w,
    fault_free w ->
    fs w !! current_path = Some (RegularFile c) ->
    no_name_clash directory w ->
    exists last_path w',
      rename_loop n directory current_path w = Ret last_path w'
      /\ fault_free w'
      /\ fs w' !! last_path = Some (RegularFile c).
Proof.
  induction n as [|n IH]; intros cur w Hff Hlook Hclash; cbn [rename_loop].
  - exists cur, w. repeat split; assumption.
  - unfold bind at 1. rewrite random_choices_hex.
    fold (hex_name (rand_src w) (rand_pos w)).
    set (t := path_join directory (hex_name (rand_src w) (rand_pos w))).
    assert (Ht : fs w !! t <> Some Directory).
    { apply Hclash, hex_name_length. }
    unfold bind at 1. unfold os_rename, fails, sys_fail, sys_ok.
    cbn [faults clock fs advance_rand_by]. rewrite Hff, Hlook.
    set (w1 := emit (EvSys (SysRename cur t) true)
                 (tick (set_fs (<[t := RegularFile c]> (delete cur (fs w)))
                          (advance_rand_by 32 w)))).
    assert (Hnext : exists last_path w',
               rename_loop n directory t w1 = Ret last_path w'
               /\ fault_free w' /\ fs w' !! last_path = Some (RegularFile c)).
    { apply IH.
      - exact Hff.
      - unfold w1. cbn [fs emit tick set_fs]. apply lookup_insert_eq.
      - intros name Hname. unfold w1. cbn [fs emit tick set_fs].
        destruct (decide (t = path_join directory name)) as [<-|Hne].
        + rewrite lookup_insert_eq. discriminate.
        + rewrite lookup_insert_ne by exact Hne.
          destruct (decide (cur = path_join directory name)) as [<-|Hne'].
          * rewrite lookup_delete_eq. discriminate.
          * rewrite lookup_delete_ne by exact Hne'. now apply Hclash. }
    destruct (fs w !! t) as [[| |]|]; try exact Hnext. now destruct Ht.
Qed.

(** C8 (amended). Shredding a zero-byte regular file with method
    "secure", when no call fails: each of the 3 passes opens and closes
    the file and does nothing else, in particular it writes nothing and
    emits no progress update; then come the three renames and the delete;
    a progress callback is invoked once in the whole run, with 100 and the
    completion label; the result is [True]. *)
Theorem C8_zero_byte_file (fuel : nat) (filepath : string) (cb : option Callback)
    (chunk_size : Z) (w : World) :
  fs w !! filepath = Some (RegularFile []) ->
  fault_free w ->
  quiet_sink cb ->
  no_name_clash (dirname filepath) w ->
  let targets := rename_targets 3 (dirname filepath) (rand_src w) (rand_pos w) in
  exists w',
    shred_file fuel filepath "secure" cb chunk_size w = Ret true w'
    /\ trace w' = trace w
         ++ [EvSys (SysGetsize filepath) true]
         ++ empty_pass filepath ++ empty_pass filepath ++ empty_pass filepath
         ++ rename_chain filepath targets
         ++ [EvSys (SysRemove (List.last targets filepath)) true]
         ++ progress_events cb (inject_Z 100) "Fertig!".
Proof.
  intros Hlook Hff Hquiet Hclash targets.
  assert (Hsize : get_file_size filepath w
                  = Ret 0 (emit (EvSys (SysGetsize filepath) true) (tick w))).
  { unfold get_file_size, getsize, fails, sys_ok. now rewrite Hff, Hlook, set_fs_same. }
  set (w1 := emit (EvSys (SysGetsize filepath) true) (tick w)) in *.
  destruct (passes_empty fuel filepath cb 3 chunk_size [] [0; 1; 2] w1 Hff Hlook)
    as (w2 & Hpasses & Ht2 & Hfs2 & Hfl2 & Hrs2 & Hrp2).
  assert (Hff2 : fault_free w2) by (intros n; rewrite Hfl2; apply Hff).
  destruct (rename_loop_ok 3 (dirname filepath) [] filepath w2)
    as (last_path & w3 & Hren & Hff3 & Hlook3); auto.
  { now rewrite Hfs2. }
  { intros name Hname. rewrite Hfs2. now apply Hclash. }
  destruct (rename_loop_Ret _ _ _ _ _ _ Hren) as (Ht3 & Hlast & _).
  rewrite Hrs2, Hrp2 in Ht3, Hlast. cbn [rand_src rand_pos w1 emit tick] in Ht3, Hlast.
  fold targets in Ht3, Hlast.
  assert (Hrm : os_remove last_path w3
                = Ret tt (emit (EvSys (SysRemove last_path) true)
                            (tick (set_fs (delete last_path (fs w3)) w3)))).
  { unfold os_remove, fails, sys_ok. now rewrite Hff3, Hlook3. }
  set (w4 := emit (EvSys (SysRemove last_path) true)
               (tick (set_fs (delete last_path (fs w3)) w3))) in *.
  assert (Hfin : final_progress cb w4
                 = Ret tt (fold_left (fun w ev => emit ev w)
                                     (progress_events cb (inject_Z 100) "Fertig!") w4)).
  { unfold final_progress, progress_events, call_progress.
    destruct cb as [c|]; [|reflexivity].
    now rewrite (Hquiet c _ _ _ eq_refl). }
  eexists. split.
  - unfold shred_file, try_except, shred_body, isfile. rewrite Hlook. cbn [negb].
    unfold bind at 1. rewrite Hsize.
    change (dict_get PATTERNS "secure" 3) with 3.
    change (py_range 3) with [0; 1; 2].
    unfold bind at 1. rewrite Hpasses.
    unfold bind at 1. rewrite Hren.
    unfold bind at 1. rewrite Hrm.
    unfold bind at 1. rewrite Hfin.
    reflexivity.
  - rewrite <- Hlast.
    assert (Ht4 : trace w4 = trace w3 ++ [EvSys (SysRemove last_path) true]) by reflexivity.
    assert (Ht5 : forall evs w0, trace (fold_left (fun w ev => emit ev w) evs w0)
                                 = trace w0 ++ evs).
    { induction evs as [|ev evs IH]; intros w0; simpl; [now rewrite app_nil_r|].
      rewrite IH. cbn [trace emit]. now rewrite <- app_assoc. }
    rewrite Ht5, Ht4, Ht3, Ht2. cbn [trace w1 emit tick map concat].
    rewrite <- !app_assoc. reflexivity.
Qed.

(** The theorem at an empty file, with a callback. *)
Lemma C8_zero_byte_file_witness :
  let w := mkWorld (<["empty.bin" := RegularFile []]> ∅)
             (fun n => Z.of_nat (n / 32)) 0 (fun _ => false) 0 [] in
  exists w',
    shred_file 0 "empty.bin" "secure" (Some (fun _ _ _ => None)) 1048576 w = Ret true w'
    /\ progress_values (trace w') = [inject_Z 100].
Proof.
  intros w.
  destruct (C8_zero_byte_file 0 "empty.bin" (Some (fun _ _ _ => None)) 1048576 w)
    as (w' & Hrun & Ht).
  - reflexivity.
  - intros n. reflexivity.
  - intros c tr q l [= <-]. reflexivity.
  - intros name _. change (dirname "empty.bin") with ""%string.
    unfold w. cbn [fs]. intros H.
    apply lookup_insert_Some in H as [[_ H]|[_ H]]; [discriminate|].
    now rewrite lookup_empty in H.
  - exists w'. split; [exact Hrun|]. rewrite Ht. reflexivity.
Defined.

(** The claim as stated fails: on a zero-byte file the three passes of a
    "secure" run emit no progress update at all; the only update of the
    run is the final one. *)
Lemma C8_no_progress_update_per_pass :
  let w := mkWorld (<["empty.bin" := RegularFile []]> ∅)
             (fun n => Z.of_nat (n / 32)) 0 (fun _ => false) 0 [] in
  exists w',
    shred_file 0 "empty.bin" "secure" (Some (fun _ _ _ => None)) 1048576 w = Ret true w'
    /\ trace w'
       = [EvSys (SysGetsize "empty.bin") true;
          EvSys (SysOpen "empty.bin") true; EvSys (SysClose "empty.bin") true;
          EvSys (SysOpen "empty.bin") true; EvSys (SysClose "empty.bin") true;
          EvSys (SysOpen "empty.bin") true; EvSys (SysClose "empty.bin") true;
          EvSys (SysRename "empty.bin" "00000000000000000000000000000000") true;
          EvSys (SysRename "00000000000000000000000000000000"
                           "11111111111111111111111111111111") true;
          EvSys (SysRename "11111111111111111111111111111111"
                           "22222222222222222222222222222222") true;
          EvSys (SysRemove "22222222222222222222222222222222") true;
          EvProgress (inject_Z 100) "Fertig!"]
    /\ opens (trace w') = 3%nat
    /\ length (progress_values (trace w')) = 1%nat.
Proof.
  intros w. eexists. split; [vm_compute; reflexivity|].
  split; [reflexivity|]. split; reflexivity.
Qed.

(** ** Percentages *)

Lemma Q100_nonneg : (0 <= inject_Z 100)%Q.
Proof. unfold Qle; simpl; lia. Qed.

Lemma ratio_le a b d : 0 <= d -> a <= b -> (ratio a d <= ratio b d)%Q.
Proof.
  intros Hd Hab. unfold ratio, Qdiv.
  apply Qmult_le_compat_r; [|apply Q100_nonneg].
  apply Qmult_le_compat_r; [now rewrite <- Zle_Qle|].
  apply Qinv_le_0_compat. change 0%Q with (inject_Z 0). now rewrite <- Zle_Qle.
Qed.

Lemma ratio_0 d : (ratio 0 d == 0)%Q.
Proof.
  unfold ratio, Qdiv. change (inject_Z 0) with 0%Q.
  now rewrite !Qmult_0_l.
Qed.

Lemma ratio_full d : 0 < d -> (ratio d d == inject_Z 100)%Q.
Proof.
  intros Hd. unfold ratio, Qdiv. rewrite Qmult_inv_r.
  - apply Qmult_1_l.
  - change 0%Q with (inject_Z 0). rewrite inject_Z_injective. lia.
Qed.

Lemma ratio_nonneg a d : 0 <= d -> 0 <= a -> (0 <= ratio a d)%Q.
Proof.
  intros Hd Ha. rewrite <- (ratio_0 d). now apply ratio_le.
Qed.

Lemma ratio_le_100 a d : 0 <= d -> a <= d -> (ratio a d <= inject_Z 100)%Q.
Proof.
  intros Hd Ha. destruct (Z.eq_dec d 0) as [->|Hne].
  - unfold ratio, Qdiv. change (/ inject_Z 0)%Q with 0%Q.
    rewrite Qmult_0_r, Qmult_0_l. apply Q100_nonneg.
  - rewrite <- (ratio_full d) by lia. now apply ratio_le.
Qed.

(** ** Climbing percentages *)

Lemma steps_le lo hi evs : steps lo hi evs -> (lo <= hi)%Q.
Proof.
  revert lo. induction evs as [|ev evs IH]; intros lo; simpl; [auto|].
  destruct ev as [c ok|q l|msg]; auto.
  intros [Hq Hrest]. eapply Qle_trans; [exact Hq | now apply IH].
Qed.

Lemma steps_lower lo lo' hi evs :
  (lo' <= lo)%Q -> steps lo hi evs -> steps lo' hi evs.
Proof.
  revert lo lo'. induction evs as [|ev evs IH]; intros lo lo' Hlo; simpl.
  - intros H. eapply Qle_trans; eassumption.
  - destruct ev as [c ok|q l|msg]; eauto.
    intros [Hq Hrest]. split; [eapply Qle_trans; eassumption | exact Hrest].
Qed.

Lemma steps_raise lo hi hi' evs :
  (hi <= hi')%Q -> steps lo hi evs -> steps lo hi' evs.
Proof.
  revert lo. induction evs as [|ev evs IH]; intros lo Hhi; simpl.
  - intros H. eapply Qle_trans; eassumption.
  - destruct ev as [c ok|q l|msg]; eauto.
    intros [Hq Hrest]. split; [exact Hq | now apply IH].
Qed.

Lemma steps_app lo mid hi e1 e2 :
  steps lo mid e1 -> steps mid hi e2 -> steps lo hi (e1 ++ e2).
Proof.
  revert lo. induction e1 as [|ev e1 IH]; intros lo; simpl.
  - intros H1 H2. eapply steps_lower; eassumption.
  - destruct ev as [c ok|q l|msg]; eauto.
    intros [Hq Hrest] H2. split; [exact Hq | now apply IH].
Qed.

Lemma steps_silent lo hi evs :
  Forall (fun ev => is_progress ev = false) evs -> (lo <= hi)%Q -> steps lo hi evs.
Proof.
  induction 1 as [|ev evs Hev _ IH]; simpl; [auto|].
  destruct ev as [c ok|q l|msg]; auto. discriminate.
Qed.

Lemma steps_values lo hi evs :
  steps lo hi evs ->
  StronglySorted Qle (progress_values evs)
  /\ Forall (fun q => (lo <= q)%Q /\ (q <= hi)%Q) (progress_values evs).
Proof.
  revert lo. induction evs as [|ev evs IH]; intros lo; simpl.
  - intros _. split; constructor.
  - destruct ev as [c ok|q l|msg]; simpl; auto.
    intros [Hq Hrest]. destruct (IH q Hrest) as [Hsorted Hall].
    split.
    + constructor; [exact Hsorted|].
      eapply Forall_impl; [exact Hall|]. now intros x [Hx _].
    + constructor.
      * split; [exact Hq | now apply steps_le in Hrest].
      * eapply Forall_impl; [exact Hall|].
        intros x [Hx1 Hx2]. split; [eapply Qle_trans; eassumption | exact Hx2].
Qed.

Lemma progress_values_app e1 e2 :
  progress_values (e1 ++ e2) = progress_values e1 ++ progress_values e2.
Proof. unfold progress_values. apply flat_map_app. Qed.

(** ** Every outcome of the chunk loop *)

Lemma percent_le file_size pass_num passes a b :
  0 <= passes * file_size -> a <= b ->
  (percent file_size pass_num passes a <= percent file_size pass_num passes b)%Q.
Proof. intros Hd Hab. unfold percent. apply ratio_le; lia. Qed.

Lemma chunk_loop_run cb file_size pass_num passes chunk_size :
  0 < chunk_size -> 0 <= pass_num < passes ->
  forall fuel f bw w,
    0 <= bw <= file_size ->
    match chunk_loop fuel cb file_size pass_num passes chunk_size f bw w with
    | Ret _ w' =>
        exists evs, trace w' = trace w ++ evs
          /\ steps (percent file_size pass_num passes bw)
                   (percent file_size pass_num passes file_size) evs
    | Exn e w' =>
        (catchable cb -> is_Exception e = true)
        /\ exists evs, trace w' = trace w ++ evs
             /\ steps (percent file_size pass_num passes bw)
                      (percent file_size pass_num passes file_size) evs
    | Diverge => Z.of_nat fuel < file_size - bw
    end.
Proof.
  intros HC Hp.
  assert (Hstop : forall (f : handle) bw w, 0 <= bw <= file_size -> ~ bw < file_size ->
             exists evs, trace w = trace w ++ evs
               /\ steps (percent file_size pass_num passes bw)
                        (percent file_size pass_num passes file_size) evs).
  { intros _ bw w Hbw Hge. exists []. split; [now rewrite app_nil_r|].
    assert (bw = file_size) as -> by lia. simpl. apply Qle_refl. }
  induction fuel as [|fuel IH]; intros f bw w Hbw; cbn [chunk_loop];
    destruct (Z.ltb_spec bw file_size) as [Hlt|Hge];
    try (unfold ret; apply (Hstop f); [assumption | lia]).
  - lia.
  - unfold bind.
    pose proof (chunk_step_shape cb file_size pass_num passes chunk_size f bw w) as Hs.
    set (cc := Z.min chunk_size (file_size - bw)) in *.
    set (data := pattern_of cc pass_num w) in *.
    assert (Hcc : 0 < cc <= file_size - bw) by (unfold cc; lia).
    assert (Hden : 0 <= passes * file_size) by nia.
    assert (Hlohi : (percent file_size pass_num passes bw
                     <= percent file_size pass_num passes file_size)%Q).
    { apply percent_le; lia. }
    assert (Hlo : (percent file_size pass_num passes bw
                   <= percent file_size pass_num passes (bw + cc))%Q).
    { apply percent_le; lia. }
    assert (Hhi : (percent file_size pass_num passes (bw + cc)
                   <= percent file_size pass_num passes file_size)%Q).
    { apply percent_le; lia. }
    remember (chunk_step _ _ _ _ _ _ _ _) as o eqn:Ho. clear Ho.
    destruct Hs as [w1 _ Ht _|w1 _ Ht _|w1 _ Ht _|c w1 _ Hz _ _|c e w1 Hc _ Hraise Ht _
                   |old w1 _ Ht _ _ _ _ _].
    + split; [reflexivity|]. eexists. split; [exact Ht|]. exact Hlohi.
    + split; [reflexivity|]. eexists. split; [exact Ht|]. exact Hlohi.
    + split; [reflexivity|]. eexists. split; [exact Ht|]. exact Hlohi.
    + nia.
    + split; [intros Hcatch; eapply Hcatch; eassumption|].
      eexists. split; [exact Ht|]. simpl. split; assumption.
    + cbn [fst snd].
      specialize (IH (mkHandle (h_path f) (h_pos f + Z.of_nat (length data)))
                     (bw + cc) w1 ltac:(lia)).
      assert (Hjoin : forall evs2,
                 steps (percent file_size pass_num passes (bw + cc))
                       (percent file_size pass_num passes file_size) evs2 ->
                 steps (percent file_size pass_num passes bw)
                       (percent file_size pass_num passes file_size)
                       ((synced_write f data
                         ++ progress_events cb (percent file_size pass_num passes (bw + cc))
                              (pass_status pass_num passes)) ++ evs2)).
      { intros evs2 H2. destruct cb as [c|]; simpl.
        - split; assumption.
        - eapply steps_lower; eassumption. }
      destruct (chunk_loop _ _ _ _ _ _ _ _ _) as [f2 w2|e w2|].
      * destruct IH as (evs2 & Ht2 & Hs2). eexists. split; [|apply Hjoin, Hs2].
        rewrite Ht2, Ht. now rewrite <- !app_assoc.
      * destruct IH as (Hexn & evs2 & Ht2 & Hs2). split; [exact Hexn|].
        eexists. split; [|apply Hjoin, Hs2].
        rewrite Ht2, Ht. now rewrite <- !app_assoc.
      * lia.
Qed.

(** ** Every outcome of a run *)

Lemma runs_bind {A B} cb lo mid hi (D : Prop) w (m : M A) (k : A -> M B) :
  runs cb lo mid D w (m w) ->
  (mid <= hi)%Q ->
  (forall a w1, m w = Ret a w1 -> runs cb mid hi D w1 (k a w1)) ->
  runs cb lo hi D w (bind m k w).
Proof.
  intros Hm Hhi Hk. unfold bind.
  destruct (m w) as [a w1|e w1|]; simpl in Hm |- *; auto.
  - destruct Hm as (evs1 & Ht1 & Hs1).
    specialize (Hk a w1 eq_refl).
    destruct (k a w1) as [b w2|e w2|]; simpl in Hk |- *; auto.
    + destruct Hk as (evs2 & Ht2 & Hs2). exists (evs1 ++ evs2).
      split; [rewrite Ht2, Ht1; now rewrite app_assoc | eapply steps_app; eassumption].
    + destruct Hk as (He & evs2 & Ht2 & Hs2). split; [exact He|]. exists (evs1 ++ evs2).
      split; [rewrite Ht2, Ht1; now rewrite app_assoc | eapply steps_app; eassumption].
  - destruct Hm as (He & evs1 & Ht1 & Hs1). split; [exact He|].
    exists evs1. split; [exact Ht1 | eapply steps_raise; eassumption].
Qed.

Lemma runs_bounds {A} cb lo lo' hi hi' (D D' : Prop) w (o : outcome A) :
  (lo' <= lo)%Q -> (hi <= hi')%Q -> (D -> D') ->
  runs cb lo hi D w o -> runs cb lo' hi' D' w o.
Proof.
  intros Hlo Hhi HD. destruct o as [a w'|e w'|]; simpl; auto.
  - intros (evs & Ht & Hs). exists evs. split; [exact Ht|].
    eapply steps_lower; [exact Hlo|]. eapply steps_raise; eassumption.
  - intros (He & evs & Ht & Hs). split; [exact He|]. exists evs. split; [exact Ht|].
    eapply steps_lower; [exact Hlo|]. eapply steps_raise; eassumption.
Qed.

(** A system call adds one event, which is not a progress update, and
    raises [OSError] if anything. *)
Section SystemCalls.

Variable cb : option Callback.
Variables lo hi : Q.
Variable D : Prop.
Hypothesis Hle : (lo <= hi)%Q.

Lemma runs_ret {A} w (a : A) : runs cb lo hi D w (ret a w).
Proof. exists []. split; [now rewrite app_nil_r | exact Hle]. Qed.

Lemma runs_sys_ok {A} c (f : gmap string node) (a : A) w :
  runs cb lo hi D w (sys_ok c f a w).
Proof. exists [EvSys c true]. split; [reflexivity | exact Hle]. Qed.

Lemma runs_sys_fail {A} c msg w : runs cb lo hi D w (@sys_fail A c msg w).
Proof.
  split; [reflexivity|]. exists [EvSys c false]. split; [reflexivity | exact Hle].
Qed.

Ltac sys_call :=
  repeat match goal with
         | |- context [if fails ?w then _ else _] => destruct (fails w)
         | |- context [match fs ?w !! ?p with _ => _ end] =>
             destruct (fs w !! p) as [[| |]|]
         end;
  first [apply runs_sys_fail | apply runs_sys_ok].

Lemma runs_getsize p w : runs cb lo hi D w (getsize p w).
Proof. unfold getsize. sys_call. Qed.

Lemma runs_open p w : runs cb lo hi D w (py_open p w).
Proof. unfold py_open. sys_call. Qed.

Lemma runs_close h w : runs cb lo hi D w (f_close h w).
Proof. unfold f_close. sys_call. Qed.

Lemma runs_rename src dst w : runs cb lo hi D w (os_rename src dst w).
Proof. unfold os_rename. sys_call. Qed.

Lemma runs_remove p w : runs cb lo hi D w (os_remove p w).
Proof. unfold os_remove. sys_call. Qed.

End SystemCalls.

Lemma runs_final_progress cb lo (D : Prop) w :
  (lo <= inject_Z 100)%Q ->
  runs cb lo (inject_Z 100) D w (final_progress cb w).
Proof.
  intros H. unfold final_progress. destruct cb as [c|]; [|now apply runs_ret].
  unfold call_progress. destruct (c _ _ _) as [e|] eqn:Hc; simpl.
  - split; [intros Hcatch; eapply Hcatch; eauto|].
    exists [EvProgress (inject_Z 100) "Fertig!"]. split; [reflexivity|].
    simpl. split; [exact H | apply Qle_refl].
  - exists [EvProgress (inject_Z 100) "Fertig!"]. split; [reflexivity|].
    simpl. split; [exact H | apply Qle_refl].
Qed.

Lemma runs_rename_loop cb lo hi (D : Prop) n directory :
  (lo <= hi)%Q ->
  forall current_path w, runs cb lo hi D w (rename_loop n directory current_path w).
Proof.
  intros H. induction n as [|n IH]; intros cur w; cbn [rename_loop].
  - now apply runs_ret.
  - unfold bind at 1. rewrite random_choices_hex.
    apply (runs_bounds cb lo lo hi hi D D);
      [apply Qle_refl | apply Qle_refl | auto |].
    assert (Hshift : forall (o : outcome string),
               runs cb lo hi D (advance_rand_by 32 w) o -> runs cb lo hi D w o).
    { intros o. destruct o; simpl; auto. }
    apply Hshift.
    eapply runs_bind with (mid := lo); [apply runs_rename, Qle_refl | exact H |].
    intros _ w1 _. apply IH.
Qed.

Lemma percent_next file_size pass_num passes :
  percent file_size pass_num passes file_size = percent file_size (pass_num + 1) passes 0.
Proof. unfold percent. f_equal. ring. Qed.

Lemma runs_overwrite_pass cb file_size pass_num passes chunk_size fuel path w :
  0 < chunk_size -> 0 <= pass_num < passes -> 0 <= file_size ->
  runs cb (percent file_size pass_num passes 0)
          (percent file_size pass_num passes file_size)
          (Z.of_nat fuel < file_size) w
          (overwrite_pass fuel path cb file_size passes chunk_size pass_num w).
Proof.
  intros HC Hp Hfs.
  set (lo := percent file_size pass_num passes 0).
  set (hi := percent file_size pass_num passes file_size).
  unfold overwrite_pass, with_open.
  pose proof (runs_open cb lo lo False (Qle_refl lo) path w) as Hopen.
  destruct (py_open path w) as [h w1|e w1|]; simpl in Hopen; [| |contradiction].
  2: { destruct Hopen as (He & evs & Ht & Hs). split; [exact He|].
       exists evs. split; [exact Ht|]. eapply steps_raise; [|exact Hs].
       apply percent_le; nia. }
  destruct Hopen as (evs0 & Ht0 & Hs0).
  unfold bind at 1.
  pose proof (chunk_loop_run cb file_size pass_num passes chunk_size HC Hp
                fuel h 0 w1 ltac:(lia)) as Hloop.
  fold lo hi in Hloop.
  destruct (chunk_loop _ _ _ _ _ _ _ _ _) as [f' w2|e w2|].
  - destruct Hloop as (evs1 & Ht1 & Hs1).
    unfold ret at 1. cbv beta iota. unfold bind.
    pose proof (runs_close cb hi hi False (Qle_refl hi) f' w2) as Hclose.
    destruct (f_close f' w2) as [[] w3|e w3|]; simpl in Hclose |- *; [| |contradiction].
    + destruct Hclose as (evs2 & Ht2 & Hs2). exists (evs0 ++ evs1 ++ evs2).
      split; [rewrite Ht2, Ht1, Ht0; now rewrite <- !app_assoc|].
      eapply steps_app; [exact Hs0|]. eapply steps_app; eassumption.
    + destruct Hclose as (He & evs2 & Ht2 & Hs2). split; [exact He|].
      exists (evs0 ++ evs1 ++ evs2).
      split; [rewrite Ht2, Ht1, Ht0; now rewrite <- !app_assoc|].
      eapply steps_app; [exact Hs0|]. eapply steps_app; eassumption.
  - destruct Hloop as (He1 & evs1 & Ht1 & Hs1).
    pose proof (runs_close cb hi hi False (Qle_refl hi) h w2) as Hclose.
    destruct (f_close h w2) as [[] w3|e' w3|]; simpl in Hclose |- *; [| |contradiction].
    + destruct Hclose as (evs2 & Ht2 & Hs2). split; [exact He1|].
      exists (evs0 ++ evs1 ++ evs2).
      split; [rewrite Ht2, Ht1, Ht0; now rewrite <- !app_assoc|].
      eapply steps_app; [exact Hs0|]. eapply steps_app; eassumption.
    + destruct Hclose as (He & evs2 & Ht2 & Hs2). split; [exact He|].
      exists (evs0 ++ evs1 ++ evs2).
      split; [rewrite Ht2, Ht1, Ht0; now rewrite <- !app_assoc|].
      eapply steps_app; [exact Hs0|]. eapply steps_app; eassumption.
  - simpl. lia.
Qed.

Lemma runs_passes cb file_size passes chunk_size fuel path :
  0 < chunk_size -> 0 <= file_size ->
  forall m k w,
    Z.of_nat (k + m) <= passes ->
    runs cb (percent file_size (Z.of_nat k) passes 0)
            (percent file_size (Z.of_nat (k + m)) passes 0)
            (Z.of_nat fuel < file_size) w
            (for_each (map Z.of_nat (seq k m))
               (overwrite_pass fuel path cb file_size passes chunk_size) w).
Proof.
  intros HC Hfs. induction m as [|m IH]; intros k w Hk; cbn [seq map for_each].
  - rewrite Nat.add_0_r. apply runs_ret, Qle_refl.
  - eapply runs_bind with (mid := percent file_size (Z.of_nat (S k)) passes 0).
    + replace (Z.of_nat (S k)) with (Z.of_nat k + 1) by lia.
      rewrite <- percent_next. apply runs_overwrite_pass; lia.
    + unfold percent. apply ratio_le; nia.
    + intros _ w1 _. replace (k + S m)%nat with (S k + m)%nat by lia.
      apply IH. lia.
Qed.

Lemma runs_shred_body fuel filepath method cb chunk_size w :
  0 < chunk_size ->
  runs cb 0 (inject_Z 100)
       (exists c, fs w !! filepath = Some (RegularFile c) /\ (fuel < length c)%nat)
       w (shred_body fuel filepath method cb chunk_size w).
Proof.
  intros HC. unfold shred_body.
  destruct (isfile filepath w); cbn [negb]; [|apply runs_ret, Q100_nonneg].
  eapply runs_bind with (mid := 0%Q);
    [apply runs_getsize, Qle_refl | apply Q100_nonneg |].
  intros file_size w1 Hsize.
  apply getsize_Ret in Hsize as (c & Hlook & -> & _ & _).
  set (passes := dict_get PATTERNS method 3).
  assert (HN : 0 < passes) by (pose proof (PATTERNS_cases method); unfold passes; lia).
  apply (runs_bounds cb 0 0 (inject_Z 100) (inject_Z 100)
           (Z.of_nat fuel < Z.of_nat (length c)));
    [apply Qle_refl | apply Qle_refl | intros Hfuel; exists c; split; [exact Hlook | lia] |].
  eapply runs_bind with (mid := inject_Z 100); [|apply Qle_refl|].
  { unfold py_range.
    eapply runs_bounds; [| | intros H; exact H |
      apply (runs_passes cb (Z.of_nat (length c)) passes chunk_size fuel filepath
               HC ltac:(lia) (Z.to_nat passes) 0%nat w1); lia].
    - unfold percent. apply ratio_nonneg; lia.
    - unfold percent. apply ratio_le_100; lia. }
  intros _ w2 _.
  eapply runs_bind with (mid := inject_Z 100);
    [apply runs_rename_loop, Qle_refl | apply Qle_refl |].
  intros current_path w3 _.
  eapply runs_bind with (mid := inject_Z 100);
    [apply runs_remove, Qle_refl | apply Qle_refl |].
  intros _ w4 _.
  eapply runs_bind with (mid := inject_Z 100);
    [apply runs_final_progress, Qle_refl | apply Qle_refl |].
  intros _ w5 _. apply runs_ret, Qle_refl.
Qed.

(** The trace of a run that returns [True]. *)
Lemma shred_file_true_trace fuel filepath method cb chunk_size w w' :
  shred_file fuel filepath method cb chunk_size w = Ret true w' ->
  exists c w2 evs,
    fs w !! filepath = Some (RegularFile c)
    /\ trace w' = trace w
         ++ [EvSys (SysGetsize filepath) true] ++ evs
         ++ rename_chain filepath
              (rename_targets 3 (dirname filepath) (rand_src w2) (rand_pos w2))
         ++ [EvSys (SysRemove
                      (List.last (rename_targets 3 (dirname filepath)
                                    (rand_src w2) (rand_pos w2)) filepath)) true]
         ++ progress_events cb (inject_Z 100) "Fertig!"
    /\ Forall (fun ev => is_pass_event ev = true) evs
    /\ opens evs = Z.to_nat (dict_get PATTERNS method 3)
    /\ fs w' !! List.last (rename_targets 3 (dirname filepath)
                             (rand_src w2) (rand_pos w2)) filepath = None.
Proof.
  intros Hrun.
  apply shred_file_true in Hrun
    as (file_size & w1 & w2 & cur & w3 & w4 & _ & Hsize & Hpasses & Hren & Hrm & Hfin).
  apply getsize_Ret in Hsize as (c & Hlook & -> & _ & ->).
  pose proof (passes_events fuel filepath cb (Z.of_nat (length c))
                (dict_get PATTERNS method 3) chunk_size
                (py_range (dict_get PATTERNS method 3))
                (emit (EvSys (SysGetsize filepath) true) (tick w))) as Hp.
  rewrite Hpasses in Hp. destruct Hp as (evs1 & Ht1 & Hk1 & Ho1 & _).
  apply rename_loop_Ret in Hren as (Ht2 & Hlast & _).
  apply os_remove_Ret in Hrm as ->.
  apply final_progress_trace in Hfin as (Ht4 & Hfs4).
  exists c, w2, evs1. split; [exact Hlook|].
  split.
  { rewrite Ht4. cbn [trace emit tick set_fs]. rewrite Ht2, Ht1. cbn [trace emit tick].
    rewrite <- Hlast, <- !app_assoc. reflexivity. }
  split; [exact Hk1|].
  split; [now rewrite Ho1, py_range_length|].
  rewrite Hfs4, <- Hlast. cbn [fs emit tick set_fs]. apply lookup_delete_eq.
Qed.

(** C6 (amended). With a positive chunk size, whatever the outcome of a
    run, the percentages handed to the progress callback never decrease
    and all lie in [0, 100]; and on a run that returns [True] with a
    callback, the last percentage reported is exactly 100. *)
Theorem C6_progress_values (fuel : nat) (filepath method : string)
    (cb : option Callback) (chunk_size : Z) (w : World) :
  0 < chunk_size ->
  match shred_file fuel filepath method cb chunk_size w with
  | Ret b w' =>
      exists evs, trace w' = trace w ++ evs
        /\ StronglySorted Qle (progress_values evs)
        /\ Forall (fun q => (0 <= q)%Q /\ (q <= inject_Z 100)%Q) (progress_values evs)
        /\ (b = true -> cb <> None ->
            last (progress_values evs) = Some (inject_Z 100))
  | Exn e w' =>
      exists evs, trace w' = trace w ++ evs
        /\ StronglySorted Qle (progress_values evs)
        /\ Forall (fun q => (0 <= q)%Q /\ (q <= inject_Z 100)%Q) (progress_values evs)
  | Diverge => True
  end.
Proof.
  intros HC.
  pose proof (runs_shred_body fuel filepath method cb chunk_size w HC) as Hbody.
  pose proof (shred_file_true_trace fuel filepath method cb chunk_size w) as Htrue.
  unfold shred_file, try_except in *.
  destruct (shred_body _ _ _ _ _ w) as [b0 w0|e0 w0|]; simpl in Hbody; [| |exact I].
  - destruct Hbody as (evs & Ht & Hs).
    exists evs. split; [exact Ht|].
    destruct (steps_values _ _ _ Hs) as [Hsorted Hall].
    split; [exact Hsorted|]. split; [exact Hall|].
    intros -> Hcb.
    destruct (Htrue w0 eq_refl) as (c & w2 & evs1 & _ & Ht' & _).
    rewrite Ht in Ht'. apply app_inv_head in Ht'. subst evs.
    destruct cb as [cb0|]; [|contradiction].
    rewrite !app_assoc, progress_values_app. apply last_snoc.
  - destruct Hbody as (_ & evs & Ht & Hs).
    destruct (steps_values _ _ _ Hs) as [Hsorted Hall].
    destruct (is_Exception e0).
    + exists (evs ++ [EvPrint (error_line filepath e0)]).
      split; [cbn [trace emit]; now rewrite Ht, <- app_assoc|].
      rewrite progress_values_app, app_nil_r.
      split; [exact Hsorted|]. split; [exact Hall | discriminate].
    + exists evs. auto.
Qed.

(** The theorem at a run of two chunks that succeeds. *)
Lemma C6_progress_values_witness :
  let w := mkWorld (<["a/f" := RegularFile [1; 2; 3]]> ∅)
             (fun n => Z.of_nat n) 0 (fun _ => false) 0 [] in
  exists w',
    shred_file 3 "a/f" "quick" (Some (fun _ _ _ => None)) 2 w = Ret true w'
    /\ progress_values (trace w') = [200 # 3; 300 # 3; inject_Z 100]%Q
    /\ last (progress_values (trace w')) = Some (inject_Z 100).
Proof.
  intros w.
  pose proof (C6_progress_values 3 "a/f" "quick" (Some (fun _ _ _ => None)) 2 w
                ltac:(lia)) as H.
  destruct (shred_file 3 "a/f" "quick" (Some (fun _ _ _ => None)) 2 w)
    as [[|] w'|e w'|] eqn:Hrun; try (vm_compute in Hrun; discriminate).
  destruct H as (evs & Ht & _ & _ & Hlast).
  change (trace w) with (@nil event) in Ht. cbn [app] in Ht. subst evs.
  exists w'. split; [reflexivity|].
  split; [|apply Hlast; [reflexivity | discriminate]].
  vm_compute in Hrun. injection Hrun as <-. reflexivity.
Defined.

(** The claim as stated fails. A run that a failing write ends reports 50
    last, not 100; and with a negative chunk size the percentages go down
    and leave [0, 100]. *)
Lemma C6_last_value_not_100 :
  (exists w',
     shred_file 2 "a/f" "quick" (Some (fun _ _ _ => None)) 1
       (mkWorld (<["a/f" := RegularFile [1; 2]]> ∅) (fun n => Z.of_nat n) 0
          (fun n => Nat.eqb n 5) 0 [])
     = Ret false w'
     /\ progress_values (trace w') = [100 # 2]%Q
     /\ ~ (100 # 2 == inject_Z 100)%Q)
  /\ (exists w',
        shred_file 2 "a/f" "quick"
          (Some (fun tr _ _ => if (6 <? length tr)%nat then Some (SinkError "stop") else None))
          (-1)
          (mkWorld (<["a/f" := RegularFile [1]]> ∅) (fun n => Z.of_nat n) 0
             (fun _ => false) 0 [])
        = Ret false w'
        /\ progress_values (trace w') = [-100 # 1; -200 # 1]%Q
        /\ ~ (-100 # 1 <= -200 # 1)%Q).
Proof.
  split.
  - eexists. split; [vm_compute; reflexivity|].
    split; [reflexivity|]. unfold Qeq; simpl; lia.
  - eexists. split; [vm_compute; reflexivity|].
    split; [reflexivity|]. unfold Qle; simpl; lia.
Qed.

(** ** Totality *)

(** With a chunk size of 0 the loop makes no progress. *)
Lemma chunk_loop_stuck file_size pass_num passes :
  forall fuel f bw w old,
    fault_free w ->
    fs w !! h_path f = Some (RegularFile old) ->
    bw < file_size ->
    chunk_loop fuel None file_size pass_num passes 0 f bw w = Diverge.
Proof.
  induction fuel as [|fuel IH]; intros f bw w old Hff Hlook Hlt; cbn [chunk_loop];
    destruct (Z.ltb_spec bw file_size) as [_|Hge]; try lia; [reflexivity|].
  unfold bind.
  pose proof (chunk_step_shape None file_size pass_num passes 0 f bw w) as Hs.
  replace (bw + Z.min 0 (file_size - bw)) with bw in Hs by lia.
  remember (chunk_step _ _ _ _ _ _ _ _) as o eqn:Ho. clear Ho.
  destruct Hs as [w1 [Hf|Hf] _ _|w1 Hf _ _|w1 Hf _ _|c w1 Hc _ _ _|c e w1 Hc _ _ _ _
                 |old' w1 _ _ Hfs Hfl _ _ _]; try discriminate.
  - now rewrite Hff in Hf.
  - now destruct (Hf old).
  - now rewrite Hff in Hf.
  - now rewrite Hff in Hf.
  - cbn [fst snd]. eapply IH; [| |exact Hlt].
    + intros n. rewrite Hfl. apply Hff.
    + cbn [h_path]. rewrite Hfs. apply lookup_insert_eq.
Qed.

(** Where the error can be reported, the [except] branch is the one of
    [shred_file]. *)
Lemma shred_file_on_reports r fuel filepath method cb chunk_size w :
  reports r ->
  shred_file_on r fuel filepath method cb chunk_size w
  = shred_file fuel filepath method cb chunk_size w.
Proof.
  intros (Hstr & Hprint). unfold shred_file_on, shred_file, try_except.
  destruct (shred_body _ _ _ _ _ w) as [b0 w0|e0 w0|]; [reflexivity| |reflexivity].
  destruct (is_Exception e0); [|reflexivity].
  assert (Hs : py_str r e0 w0 = Ret (exn_str e0) w0).
  { unfold py_str. now rewrite Hstr. }
  unfold bind at 1. rewrite Hs.
  unfold bind at 1, print_on. rewrite Hprint. reflexivity.
Qed.

(** C10 (amended). For a positive chunk size and a progress callback that
    raises nothing outside of the [Exception] hierarchy, and where the
    error of a run can be reported (neither [str(e)] nor [print] raises in
    the [except] branch), [shred_file] returns a boolean (given fuel for as
    many loop iterations as the file has bytes): it neither runs forever
    nor lets an exception through, and when the [try] block raised, the
    result is [False] and the error line has been printed. *)
Theorem C10_shred_file_returns (r : Reporting) (fuel : nat) (filepath method : string)
    (cb : option Callback) (chunk_size : Z) (w : World) :
  0 < chunk_size ->
  catchable cb ->
  reports r ->
  (forall c, fs w !! filepath = Some (RegularFile c) -> (length c <= fuel)%nat) ->
  exists b w',
    shred_file_on r fuel filepath method cb chunk_size w = Ret b w'
    /\ (forall e wb,
          shred_body fuel filepath method cb chunk_size w = Exn e wb ->
          b = false /\ w' = emit (EvPrint (error_line filepath e)) wb).
Proof.
  intros HC Hcatch Hrep Hfuel.
  rewrite (shred_file_on_reports r fuel filepath method cb chunk_size w Hrep).
  pose proof (runs_shred_body fuel filepath method cb chunk_size w HC) as Hbody.
  unfold shred_file, try_except.
  destruct (shred_body _ _ _ _ _ w) as [b0 w0|e0 w0|]; simpl in Hbody.
  - exists b0, w0. split; [reflexivity | discriminate].
  - destruct Hbody as (He & _). rewrite (He Hcatch).
    exists false, (emit (EvPrint (error_line filepath e0)) w0).
    split; [reflexivity|]. intros e wb [= <- <-]. auto.
  - destruct Hbody as (c & Hlook & Hlt). apply Hfuel in Hlook. lia.
Qed.

(** The theorem at a run whose callback raises an [Exception]. *)
Lemma C10_shred_file_returns_witness :
  let w := mkWorld (<["a/f" := RegularFile [1; 2]]> ∅)
             (fun n => Z.of_nat n) 0 (fun _ => false) 0 [] in
  let r := mkReporting (fun _ => None) (fun _ _ => None) in
  exists w',
    shred_file_on r 2 "a/f" "dod" (Some (fun _ _ _ => Some (SinkError "boom"))) 1 w
    = Ret false w'.
Proof.
  intros w r.
  destruct (C10_shred_file_returns r 2 "a/f" "dod"
              (Some (fun _ _ _ => Some (SinkError "boom"))) 1 w)
    as (b & w' & Hrun & _).
  - lia.
  - intros c tr q l e [= <-] [= <-]. reflexivity.
  - split; reflexivity.
  - intros c Hc. unfold w in Hc. cbn [fs] in Hc.
    rewrite lookup_insert_eq in Hc. injection Hc as <-. simpl. lia.
  - exists w'. rewrite Hrun. f_equal.
    vm_compute in Hrun. now injection Hrun as <-.
Defined.

Lemma shred_body_zero_chunk (fuel : nat) :
  shred_body fuel "a/f" "quick" None 0
    (mkWorld (<["a/f" := RegularFile [1]]> ∅) (fun n => Z.of_nat n) 0
       (fun _ => false) 0 [])
  = Diverge.
Proof.
  set (w := mkWorld (<["a/f" := RegularFile [1]]> ∅) (fun n => Z.of_nat n) 0
              (fun _ => false) 0 []).
  assert (Hlook : fs w !! "a/f" = Some (RegularFile [1])) by reflexivity.
  assert (Hff : fault_free w) by (intros n; reflexivity).
  unfold shred_body, isfile. rewrite Hlook. cbn [negb].
  unfold bind at 1. unfold get_file_size, getsize, fails, sys_ok.
  rewrite Hff, Hlook, set_fs_same.
  change (dict_get PATTERNS "quick" 3) with 1.
  change (py_range 1) with [0]. cbn [for_each length Z.of_nat].
  set (w1 := emit (EvSys (SysGetsize "a/f") true) (tick w)).
  assert (Hlook1 : fs w1 !! "a/f" = Some (RegularFile [1])) by reflexivity.
  assert (Hff1 : fault_free w1) by (intros n; reflexivity).
  unfold bind at 1. unfold bind at 1.
  unfold overwrite_pass, with_open, py_open, fails, sys_ok.
  rewrite Hff1, Hlook1, set_fs_same.
  unfold bind at 1.
  rewrite (chunk_loop_stuck _ _ _ fuel _ _ _ [1]); [reflexivity| | |].
  - intros n. apply Hff.
  - exact Hlook.
  - simpl. lia.
Qed.

(** The claim as stated fails, in four ways.  With a chunk size of 0 a run
    on a non-empty file never returns, whatever the fuel.  An exception of
    the callback that does not derive from [Exception] reaches the caller.
    When a write fails and [print] raises for the error line (as on a
    closed [sys.stdout]), what [print] raised reaches the caller.  And
    when the callback raises an exception whose [__str__] raises, what
    [__str__] raised reaches the caller. *)
Lemma C10_no_return_or_exception_escapes :
  (forall r fuel,
     shred_file_on r fuel "a/f" "quick" None 0
       (mkWorld (<["a/f" := RegularFile [1]]> ∅) (fun n => Z.of_nat n) 0
          (fun _ => false) 0 [])
     = Diverge)
  /\ (forall r, exists w',
        shred_file_on r 1 "a/f" "quick"
          (Some (fun _ _ _ => Some (SinkBaseException "KeyboardInterrupt"))) 1
          (mkWorld (<["a/f" := RegularFile [1]]> ∅) (fun n => Z.of_nat n) 0
             (fun _ => false) 0 [])
        = Exn (SinkBaseException "KeyboardInterrupt") w')
  /\ (exists w',
        shred_file_on
          (mkReporting (fun _ => None)
             (fun _ _ => Some (ValueError "I/O operation on closed file")))
          1 "a/f" "quick" None 1
          (mkWorld (<["a/f" := RegularFile [1]]> ∅) (fun n => Z.of_nat n) 0
             (fun n => (n =? 2)%nat) 0 [])
        = Exn (ValueError "I/O operation on closed file") w'
        /\ trace w'
           = [EvSys (SysGetsize "a/f") true; EvSys (SysOpen "a/f") true;
              EvSys (SysWrite "a/f" 0 [0]) false; EvSys (SysClose "a/f") true])
  /\ (exists w',
        shred_file_on
          (mkReporting (fun _ => Some (ValueError "__str__ failed")) (fun _ _ => None))
          1 "a/f" "quick" (Some (fun _ _ _ => Some (SinkError "boom"))) 1
          (mkWorld (<["a/f" := RegularFile [1]]> ∅) (fun n => Z.of_nat n) 0
             (fun _ => false) 0 [])
        = Exn (ValueError "__str__ failed") w').
Proof.
  split; [|split; [|split]].
  - intros r fuel. unfold shred_file_on, try_except.
    now rewrite shred_body_zero_chunk.
  - intros r. eexists. vm_compute. reflexivity.
  - eexists. split; [vm_compute; reflexivity | reflexivity].
  - eexists. vm_compute. reflexivity.
Qed.

(** ** Paths *)

Lemma drop_while_app_all {A} (f : A -> bool) (l1 l2 : list A) :
  Forall (fun x => f x = true) l1 -> drop_while f (l1 ++ l2) = drop_while f l2.
Proof. induction 1 as [|x l1 Hx _ IH]; simpl; [reflexivity|]. now rewrite Hx. Qed.

Lemma drop_while_result {A} (f : A -> bool) (l : list A) :
  (drop_while f l = [] /\ Forall (fun x => f x = true) l)
  \/ exists x r, drop_while f l = x :: r /\ f x = false.
Proof.
  induction l as [|x l IH]; simpl; [left; split; [reflexivity | constructor]|].
  destruct (f x) eqn:Hx; [|right; eauto].
  destruct IH as [[Hnil Hall]|Hcons]; [left | right; exact Hcons].
  split; [exact Hnil | now constructor].
Qed.

Lemma take_while_app_all {A} (f : A -> bool) (l1 l2 : list A) :
  Forall (fun x => f x = true) l1 -> take_while f (l1 ++ l2) = l1 ++ take_while f l2.
Proof. induction 1 as [|x l1 Hx _ IH]; simpl; [reflexivity|]. now rewrite Hx, IH. Qed.

Lemma sep_free_rev_not_sep (n : list ascii) :
  sep_free n -> Forall (fun c => negb (is_sep c) = true) (rev n).
Proof.
  intros H. apply Forall_rev. eapply Forall_impl; [exact H|].
  intros c Hc. simpl in Hc. now rewrite Hc.
Qed.

Lemma upto_last_sep_app (d n : list ascii) :
  sep_free n -> upto_last_sep (d ++ n) = upto_last_sep d.
Proof.
  intros Hn. unfold upto_last_sep. rewrite rev_app_distr.
  now rewrite drop_while_app_all by now apply sep_free_rev_not_sep.
Qed.

Lemma upto_last_sep_snoc (d : list ascii) : upto_last_sep (d ++ [sep]) = d ++ [sep].
Proof.
  unfold upto_last_sep. rewrite rev_app_distr. cbn [rev app drop_while].
  change (negb (is_sep sep)) with false. cbv iota.
  change (sep :: rev d) with (rev [sep] ++ rev d).
  now rewrite <- rev_app_distr, rev_involutive.
Qed.

Lemma upto_last_sep_all_sep (d : list ascii) :
  forallb is_sep d = true -> upto_last_sep d = d.
Proof.
  intros Hall. unfold upto_last_sep.
  destruct (rev d) as [|x r] eqn:Hrev.
  - apply (f_equal (@rev ascii)) in Hrev. rewrite rev_involutive in Hrev. now subst.
  - assert (Hx : is_sep x = true).
    { rewrite forallb_forall in Hall. apply Hall, in_rev. rewrite Hrev. now left. }
    cbn [drop_while]. rewrite Hx. cbn [negb]. rewrite <- Hrev. apply rev_involutive.
Qed.

(** What [os.path.dirname] returns is empty, or made of separators only,
    or does not end with a separator. *)
Lemma dirname_chars_shape (p : list ascii) :
  dirname_chars p = []
  \/ (dirname_chars p <> [] /\ forallb is_sep (dirname_chars p) = true)
  \/ exists r x, dirname_chars p = r ++ [x] /\ is_sep x = false.
Proof.
  unfold dirname_chars. destruct (upto_last_sep p) as [|a h] eqn:Hhead; [now left|].
  destruct (forallb is_sep (a :: h)) eqn:Hall.
  - right; left. split; [discriminate | exact Hall].
  - right; right. unfold rstrip_sep.
    destruct (drop_while_result is_sep (rev (a :: h))) as [[_ Hseps]|(x & r & Hdrop & Hx)].
    + apply Forall_rev in Hseps. rewrite rev_involutive in Hseps.
      assert (forallb is_sep (a :: h) = true) as Habs.
      { apply forallb_forall. intros c Hc. rewrite Forall_forall in Hseps.
        apply Hseps. now apply list_elem_of_In. }
      congruence.
    + exists (rev r), x. rewrite Hdrop. split; [reflexivity | exact Hx].
Qed.

Lemma sep_free_starts (n : list ascii) : sep_free n -> starts_with_sep n = false.
Proof. intros H. destruct H as [|c n Hc _]; [reflexivity | exact Hc]. Qed.

(** Joining a directory name as [dirname] returns it with a name without
    separator gives a path of that directory. *)
Lemma dirname_chars_join (p n : list ascii) :
  sep_free n ->
  dirname_chars (join_chars (dirname_chars p) n) = dirname_chars p.
Proof.
  intros Hn. unfold join_chars. rewrite (sep_free_starts n Hn).
  destruct (dirname_chars_shape p) as [Hd|[[Hne Hall]|(r & x & Hd & Hx)]].
  - rewrite Hd. cbn [is_empty orb app].
    unfold dirname_chars. rewrite <- (app_nil_l n), upto_last_sep_app by exact Hn.
    reflexivity.
  - set (d := dirname_chars p) in *.
    assert (Hends : ends_with_sep d = true).
    { unfold ends_with_sep. destruct (rev d) as [|c rd] eqn:Hrev.
      - apply (f_equal (@rev ascii)) in Hrev. rewrite rev_involutive in Hrev.
        now destruct Hne.
      - cbn [starts_with_sep]. rewrite forallb_forall in Hall.
        apply Hall, in_rev. rewrite Hrev. now left. }
    rewrite Hends, orb_true_r.
    unfold dirname_chars at 1.
    rewrite upto_last_sep_app, upto_last_sep_all_sep by assumption.
    destruct d as [|a h]; [now destruct Hne|]. now rewrite Hall.
  - rewrite Hd.
    assert (Hne : is_empty (r ++ [x]) = false) by (destruct r; reflexivity).
    assert (Hends : ends_with_sep (r ++ [x]) = false).
    { unfold ends_with_sep. rewrite rev_app_distr. exact Hx. }
    rewrite Hne, Hends. cbn [orb].
    change (sep :: n) with ([sep] ++ n). rewrite app_assoc.
    unfold dirname_chars at 1.
    rewrite upto_last_sep_app, upto_last_sep_snoc by exact Hn.
    destruct ((r ++ [x]) ++ [sep]) as [|a h] eqn:Hlist.
    { now destruct r. }
    assert (Hall : forallb is_sep (a :: h) = false).
    { rewrite <- Hlist, !forallb_app. cbn [forallb]. rewrite Hx.
      now rewrite andb_false_r. }
    rewrite Hall, <- Hlist. unfold rstrip_sep.
    rewrite !rev_app_distr. cbn [rev app drop_while].
    change (is_sep sep) with true. cbv iota. rewrite Hx.
    change (x :: rev r) with (rev [x] ++ rev r).
    now rewrite <- rev_app_distr, rev_involutive.
Qed.

(** The file name of a joined path is the name joined. *)
Lemma basename_chars_join (d n : list ascii) :
  sep_free n -> basename_chars (join_chars d n) = n.
Proof.
  intros Hn. unfold join_chars, basename_chars. rewrite (sep_free_starts n Hn).
  pose proof (sep_free_rev_not_sep n Hn) as Hrev.
  destruct (is_empty d || ends_with_sep d) eqn:Hcase.
  - rewrite rev_app_distr, take_while_app_all by exact Hrev.
    assert (Hd : take_while (fun c => negb (is_sep c)) (rev d) = []).
    { destruct d as [|a h]; [reflexivity|]. cbn [is_empty orb] in Hcase.
      unfold ends_with_sep in Hcase. destruct (rev (a :: h)) as [|c rd]; [reflexivity|].
      cbn [starts_with_sep] in Hcase. cbn [take_while]. now rewrite Hcase. }
    rewrite Hd, app_nil_r. apply rev_involutive.
  - rewrite rev_app_distr. cbn [rev]. rewrite <- app_assoc.
    rewrite take_while_app_all by exact Hrev.
    cbn [app take_while]. change (negb (is_sep sep)) with false. cbv iota.
    rewrite app_nil_r. apply rev_involutive.
Qed.

(** ** Drawn names *)

Lemma hex_digits_sep_free (c : ascii) : In c hex_digits -> is_sep c = false.
Proof.
  unfold hex_digits. simpl.
  intros H. repeat (destruct H as [<-|H]; [reflexivity|]). contradiction.
Qed.

Lemma hex_name_chars_hex src pos :
  Forall (fun c => In c hex_digits) (hex_name_chars src pos).
Proof.
  unfold hex_name_chars. apply Forall_map, Forall_forall. intros i _.
  apply nth_In.
  pose proof (Z.mod_pos_bound (src (pos + i)%nat) (Z.of_nat (length hex_digits))
                ltac:(simpl; lia)).
  lia.
Qed.

Lemma hex_name_chars_sep_free src pos : sep_free (hex_name_chars src pos).
Proof.
  eapply Forall_impl; [apply hex_name_chars_hex|]. apply hex_digits_sep_free.
Qed.

Lemma hex_name_is_hex_name src pos : is_hex_name (hex_name src pos).
Proof.
  split; [apply hex_name_length|].
  unfold hex_name. rewrite list_ascii_of_string_of_list_ascii.
  apply hex_name_chars_hex.
Qed.

Lemma dirname_join_hex_name (p : string) src pos :
  dirname (path_join (dirname p) (hex_name src pos)) = dirname p.
Proof.
  unfold dirname at 1, path_join, hex_name. rewrite !list_ascii_of_string_of_list_ascii.
  unfold dirname at 1. rewrite list_ascii_of_string_of_list_ascii.
  rewrite dirname_chars_join by apply hex_name_chars_sep_free. reflexivity.
Qed.

Lemma basename_join_hex_name (d : string) src pos :
  basename (path_join d (hex_name src pos)) = hex_name src pos.
Proof.
  unfold basename, path_join, hex_name. rewrite !list_ascii_of_string_of_list_ascii.
  now rewrite basename_chars_join by apply hex_name_chars_sep_free.
Qed.

(** ** The random source along a run *)

Lemma keeps_source_bind {A B} w (m : M A) (k : A -> M B) :
  keeps_source w (m w) ->
  (forall a w1, m w = Ret a w1 -> keeps_source w1 (k a w1)) ->
  keeps_source w (bind m k w).
Proof.
  intros Hm Hk. unfold bind.
  destruct (m w) as [a w1|e w1|]; cbn [keeps_source] in *; auto.
  specialize (Hk a w1 eq_refl).
  destruct (k a w1); cbn [keeps_source] in *; auto;
    destruct Hm, Hk; split; try congruence; lia.
Qed.

Lemma keeps_source_refl {A} w (a : A) : keeps_source w (Ret a w).
Proof. split; [reflexivity | lia]. Qed.

Lemma keeps_source_sys_fail {A} c msg w : keeps_source w (@sys_fail A c msg w).
Proof. split; [reflexivity | cbn; lia]. Qed.

Lemma keeps_source_sys_ok {A} c f (a : A) w : keeps_source w (sys_ok c f a w).
Proof. split; [reflexivity | cbn; lia]. Qed.

Lemma keeps_source_open p w : keeps_source w (py_open p w).
Proof.
  unfold py_open. destruct (fails w); [apply keeps_source_sys_fail|].
  destruct (fs w !! p) as [[| |]|];
    first [apply keeps_source_sys_ok | apply keeps_source_sys_fail].
Qed.

Lemma keeps_source_write h data w : keeps_source w (f_write h data w).
Proof.
  unfold f_write. destruct (fails w); [apply keeps_source_sys_fail|].
  destruct (fs w !! h_path h) as [[| |]|];
    first [apply keeps_source_sys_ok | apply keeps_source_sys_fail].
Qed.

Lemma keeps_source_flush h w : keeps_source w (f_flush h w).
Proof.
  unfold f_flush. destruct (fails w);
    [apply keeps_source_sys_fail | apply keeps_source_sys_ok].
Qed.

Lemma keeps_source_fsync h w : keeps_source w (os_fsync h w).
Proof.
  unfold os_fsync. destruct (fails w);
    [apply keeps_source_sys_fail | apply keeps_source_sys_ok].
Qed.

Lemma keeps_source_close h w : keeps_source w (f_close h w).
Proof.
  unfold f_close. destruct (fails w);
    [apply keeps_source_sys_fail | apply keeps_source_sys_ok].
Qed.

Lemma keeps_source_update_progress cb file_size pass_num passes bw w :
  keeps_source w (update_progress cb file_size pass_num passes bw w).
Proof.
  unfold update_progress. destruct cb as [c|]; [|apply keeps_source_refl].
  unfold bind, py_truediv, raise, ret, call_progress.
  destruct (_ =? 0); [split; [reflexivity | lia]|].
  destruct (c _ _ _); split; try reflexivity; cbn; lia.
Qed.

Lemma keeps_source_generate_pattern size pass_num w :
  keeps_source w (generate_pattern size pass_num w).
Proof.
  rewrite generate_pattern_eq. unfold pattern_world.
  destruct (pass_num mod 3 =? 0); [apply keeps_source_refl|].
  destruct (pass_num mod 3 =? 1); [apply keeps_source_refl|].
  split; [reflexivity | cbn; lia].
Qed.

Lemma keeps_source_chunk_step cb file_size pass_num passes chunk_size f bw w :
  keeps_source w (chunk_step cb file_size pass_num passes chunk_size f bw w).
Proof.
  unfold chunk_step.
  apply keeps_source_bind; [apply keeps_source_generate_pattern|]. intros pattern w1 _.
  apply keeps_source_bind; [apply keeps_source_write|]. intros f1 w2 _.
  apply keeps_source_bind; [apply keeps_source_flush|]. intros _ w3 _.
  apply keeps_source_bind; [apply keeps_source_fsync|]. intros _ w4 _.
  apply keeps_source_bind; [apply keeps_source_update_progress|]. intros _ w5 _.
  apply keeps_source_refl.
Qed.

Lemma keeps_source_chunk_loop cb file_size pass_num passes chunk_size :
  forall fuel f bw w,
    keeps_source w (chunk_loop fuel cb file_size pass_num passes chunk_size f bw w).
Proof.
  induction fuel as [|fuel IH]; intros f bw w; cbn [chunk_loop];
    destruct (bw <? file_size); try apply keeps_source_refl; [exact Logic.I|].
  apply keeps_source_bind; [apply keeps_source_chunk_step|].
  intros st w1 _. apply IH.
Qed.

Lemma keeps_source_overwrite_pass fuel path cb file_size passes chunk_size pass_num w :
  keeps_source w (overwrite_pass fuel path cb file_size passes chunk_size pass_num w).
Proof.
  unfold overwrite_pass, with_open.
  pose proof (keeps_source_open path w) as Hopen.
  destruct (py_open path w) as [h w1|e w1|]; cbn [keeps_source] in Hopen |- *; auto.
  pose proof (keeps_source_bind w1
                (chunk_loop fuel cb file_size pass_num passes chunk_size h 0)
                (fun f => ret (f, tt))
                (keeps_source_chunk_loop cb file_size pass_num passes chunk_size fuel h 0 w1)
                (fun f w2 _ => keeps_source_refl w2 (f, tt))) as Hbody.
  destruct (bind _ _ w1) as [[h' a] w2|e w2|]; cbn [keeps_source] in Hbody |- *; auto.
  - pose proof (keeps_source_bind w2 (f_close h') (fun _ => ret a)
                  (keeps_source_close h' w2)
                  (fun u w3 _ => keeps_source_refl w3 a)) as Hclose.
    destruct (bind _ _ w2); cbn [keeps_source] in Hclose |- *; auto;
      destruct Hopen, Hbody, Hclose; split; try congruence; lia.
  - pose proof (keeps_source_close h w2) as Hclose.
    destruct (f_close h w2); cbn [keeps_source] in Hclose |- *; auto;
      destruct Hopen, Hbody, Hclose; split; try congruence; lia.
Qed.

Lemma keeps_source_passes fuel path cb file_size passes chunk_size (l : list Z) :
  forall w,
    keeps_source w
      (for_each l (overwrite_pass fuel path cb file_size passes chunk_size) w).
Proof.
  induction l as [|p l IH]; intros w; cbn [for_each]; [apply keeps_source_refl|].
  apply keeps_source_bind; [apply keeps_source_overwrite_pass|].
  intros _ w1 _. apply IH.
Qed.

(** The rename loop reads 32 draws for each name and nothing else. *)
Lemma rename_loop_source n directory :
  forall current_path w last_path w',
    rename_loop n directory current_path w = Ret last_path w' ->
    rand_src w' = rand_src w /\ rand_pos w' = (rand_pos w + 32 * n)%nat.
Proof.
  induction n as [|n IH]; intros cur w last_path w'; cbn [rename_loop].
  - unfold ret. intros [= _ <-]. split; [reflexivity | lia].
  - unfold bind at 1. rewrite random_choices_hex.
    unfold bind at 1.
    destruct (os_rename cur _ (advance_rand_by 32 w)) as [[] w1|?|] eqn:Hren;
      try discriminate.
    apply os_rename_Ret in Hren as (nd & _ & ->).
    intros Hrest. apply IH in Hrest as (Hsrc & Hpos).
    cbn [rand_src rand_pos emit tick set_fs advance_rand_by] in Hsrc, Hpos.
    split; [exact Hsrc | lia].
Qed.

(** A name is made of the 32 draws of its window and of nothing else. *)
Lemma hex_name_window (src src' : nat -> Z) (pos : nat) :
  (forall j, (j < 32)%nat -> src' (pos + j)%nat = src (pos + j)%nat) ->
  hex_name src' pos = hex_name src pos.
Proof.
  intros H. unfold hex_name, hex_name_chars. f_equal.
  apply map_ext_in. intros j Hj. apply in_seq in Hj. rewrite H by lia. reflexivity.
Qed.

(** C5 (amended). On every run that succeeds, what precedes the rename
    chain contains no rename and no delete; then the file is renamed
    exactly 3 times in a row, each time to a name joined to the directory
    of the original path, so that it stays in its parent directory; then
    the file is removed under its third name and is gone.  The names are
    drawn when the passes are done, from the random source of the run where
    the passes left it: name [i] is made of the draws [32 i .. 32 i + 31]
    from there on and of nothing else, so each name has its own 32 draws,
    and these 96 draws are the last ones the run takes.  Each name is a
    string of 32 lowercase hexadecimal digits.  A drawn name differs from
    the original file name whenever that one is not itself such a string. *)
Theorem C5_rename_chain (fuel : nat) (filepath method : string)
    (cb : option Callback) (chunk_size : Z) (w w' : World) :
  shred_file fuel filepath method cb chunk_size w = Ret true w' ->
  exists before file_size w1 w2,
    let passes := dict_get PATTERNS method 3 in
    let name := fun i : nat => hex_name (rand_src w) (rand_pos w2 + 32 * i) in
    let target := fun i : nat => path_join (dirname filepath) (name i) in
    get_file_size filepath w = Ret file_size w1
    /\ for_each (py_range passes)
         (overwrite_pass fuel filepath cb file_size passes chunk_size) w1 = Ret tt w2
    /\ rand_src w2 = rand_src w
    /\ (rand_pos w <= rand_pos w2)%nat
    /\ rand_src w' = rand_src w
    /\ rand_pos w' = (rand_pos w2 + 96)%nat
    /\ (forall (i : nat) (src' : nat -> Z),
          (forall j, (j < 32)%nat ->
                     src' (rand_pos w2 + 32 * i + j)%nat
                     = rand_src w (rand_pos w2 + 32 * i + j)%nat) ->
          hex_name src' (rand_pos w2 + 32 * i) = name i)
    /\ trace w' = trace w ++ before
                 ++ [EvSys (SysRename filepath (target 0%nat)) true;
                     EvSys (SysRename (target 0%nat) (target 1%nat)) true;
                     EvSys (SysRename (target 1%nat) (target 2%nat)) true;
                     EvSys (SysRemove (target 2%nat)) true]
                 ++ progress_events cb (inject_Z 100) "Fertig!"
    /\ Forall keeps_name before
    /\ (forall i, is_hex_name (name i)
                  /\ dirname (target i) = dirname filepath
                  /\ basename (target i) = name i)
    /\ (~ is_hex_name (basename filepath) -> forall i, target i <> filepath)
    /\ fs w' !! target 2%nat = None.
Proof.
  intros Hrun.
  destruct (shred_file_true _ _ _ _ _ _ _ Hrun)
    as (file_size & w1 & w2 & cur & w3 & w4 & _ & Hsize & Hpasses & Hren & Hrm & Hfin).
  pose proof (keeps_source_passes fuel filepath cb file_size
                (dict_get PATTERNS method 3) chunk_size
                (py_range (dict_get PATTERNS method 3)) w1) as Hsrc2.
  rewrite Hpasses in Hsrc2. cbn [keeps_source] in Hsrc2. destruct Hsrc2 as (Hs2 & Hp2).
  pose proof (rename_loop_source _ _ _ _ _ _ Hren) as (Hs3 & Hp3).
  pose proof (passes_events fuel filepath cb file_size
                (dict_get PATTERNS method 3) chunk_size
                (py_range (dict_get PATTERNS method 3)) w1) as Hp.
  rewrite Hpasses in Hp. destruct Hp as (evs1 & Ht1 & Hk1 & _ & _).
  exists ([EvSys (SysGetsize filepath) true] ++ evs1), file_size, w1, w2.
  cbv beta zeta.
  split; [exact Hsize|]. split; [exact Hpasses|].
  apply getsize_Ret in Hsize as (c & Hlook & -> & _ & ->).
  cbn [rand_src rand_pos emit tick] in Hs2, Hp2.
  apply rename_loop_Ret in Hren as (Ht2 & Hlast & _).
  apply os_remove_Ret in Hrm as ->.
  pose proof (final_progress_Ret _ _ _ _ Hfin) as Hw'.
  apply final_progress_trace in Hfin as (Ht4 & Hfs4).
  cbn [rename_targets rename_chain] in Ht2, Hlast.
  rewrite !last_cons in Hlast. cbn [List.last] in Hlast.
  rewrite Hs2 in Ht2, Hlast.
  replace (rand_pos w2 + 32 * 0)%nat with (rand_pos w2) by lia.
  replace (rand_pos w2 + 32 * 1)%nat with (rand_pos w2 + 32)%nat by lia.
  replace (rand_pos w2 + 32 * 2)%nat with (rand_pos w2 + 32 + 32)%nat by lia.
  split; [exact Hs2|]. split; [exact Hp2|].
  split.
  { rewrite Hw'. unfold progress_events. destruct cb; cbn; congruence. }
  split.
  { rewrite Hw'. unfold progress_events. destruct cb; cbn; lia. }
  split.
  { intros i src' Hwin. apply hex_name_window. exact Hwin. }
  split.
  { rewrite Ht4. cbn [trace emit tick set_fs]. rewrite Ht2, Ht1. cbn [trace emit tick].
    rewrite <- Hlast, <- !app_assoc. reflexivity. }
  split.
  { apply Forall_app; split; [repeat constructor | now apply pass_event_keeps_name]. }
  split.
  { intros i. split; [apply hex_name_is_hex_name|].
    split; [apply dirname_join_hex_name | apply basename_join_hex_name]. }
  split.
  { intros Hnot i Heq. apply Hnot.
    rewrite <- Heq, basename_join_hex_name. apply hex_name_is_hex_name. }
  rewrite Hfs4, <- Hlast. cbn [fs emit tick set_fs]. apply lookup_delete_eq.
Qed.

(** The theorem at a run on an empty file in a directory: the source
    draws the digit [a] 32 times, then [b], then [c]. *)
Lemma C5_rename_chain_witness :
  let w := mkWorld (<["tmp/old.txt" := RegularFile []]> ∅)
             (fun n => Z.of_nat (n / 32) + 10) 0 (fun _ => false) 0 [] in
  exists w',
    shred_file 0 "tmp/old.txt" "quick" None 4 w = Ret true w'
    /\ trace w'
       = [EvSys (SysGetsize "tmp/old.txt") true;
          EvSys (SysOpen "tmp/old.txt") true; EvSys (SysClose "tmp/old.txt") true;
          EvSys (SysRename "tmp/old.txt" "tmp/aaaaaaaaaaaaaaaaaaaaaaaaaaaaaaaa") true;
          EvSys (SysRename "tmp/aaaaaaaaaaaaaaaaaaaaaaaaaaaaaaaa"
                           "tmp/bbbbbbbbbbbbbbbbbbbbbbbbbbbbbbbb") true;
          EvSys (SysRename "tmp/bbbbbbbbbbbbbbbbbbbbbbbbbbbbbbbb"
                           "tmp/cccccccccccccccccccccccccccccccc") true;
          EvSys (SysRemove "tmp/cccccccccccccccccccccccccccccccc") true]
    /\ fs w' !! "tmp/cccccccccccccccccccccccccccccccc" = None
    /\ rand_pos w' = 96%nat.
Proof.
  intros w.
  destruct (shred_file 0 "tmp/old.txt" "quick" None 4 w) as [[|] w'|e w'|] eqn:Hrun;
    try (vm_compute in Hrun; discriminate).
  destruct (C5_rename_chain 0 "tmp/old.txt" "quick" None 4 w w' Hrun)
    as (before & file_size & w1 & w2 & _).
  exists w'. split; [reflexivity|].
  vm_compute in Hrun. injection Hrun as <-. repeat split; reflexivity.
Defined.

(** The claim as stated fails: nothing keeps a drawn name from being the
    original file name. Here the file is named by 32 zeros and the random
    source draws the digit 0: the run succeeds and every rename targets
    the original name. *)
Lemma C5_name_can_equal_original :
  exists w',
    shred_file 0 "00000000000000000000000000000000" "quick" None 4
      (mkWorld (<["00000000000000000000000000000000" := RegularFile []]> ∅)
         (fun _ => 0) 0 (fun _ => false) 0 [])
    = Ret true w'
    /\ trace w'
       = [EvSys (SysGetsize "00000000000000000000000000000000") true;
          EvSys (SysOpen "00000000000000000000000000000000") true;
          EvSys (SysClose "00000000000000000000000000000000") true;
          EvSys (SysRename "00000000000000000000000000000000"
                           "00000000000000000000000000000000") true;
          EvSys (SysRename "00000000000000000000000000000000"
                           "00000000000000000000000000000000") true;
          EvSys (SysRename "00000000000000000000000000000000"
                           "00000000000000000000000000000000") true;
          EvSys (SysRemove "00000000000000000000000000000000") true].
Proof. eexists. split; [vm_compute; reflexivity | reflexivity]. Qed.

(** * More properties of the code *)

(** ** Invariants of the file system along a run *)

Lemma holds_bind {A B} (I : gmap string node -> Prop) w (m : M A) (k : A -> M B) :
  holds_after I (m w) ->
  (forall a w1, m w = Ret a w1 -> I (fs w1) -> holds_after I (k a w1)) ->
  holds_after I (bind m k w).
Proof.
  intros Hm Hk. unfold bind.
  destruct (m w) as [a w1|e w1|]; simpl in *; auto.
Qed.

Lemma holds_and {A} (I J : gmap string node -> Prop) (o : outcome A) :
  holds_after I o -> holds_after J o -> holds_after (fun m => I m /\ J m) o.
Proof. destruct o; simpl; auto. Qed.

Lemma holds_impl {A} (I J : gmap string node -> Prop) (o : outcome A) :
  (forall m, I m -> J m) -> holds_after I o -> holds_after J o.
Proof. intros H. destruct o; simpl; auto. Qed.

(** Calls that leave the file system alone. *)
Section Readers.

Variable I : gmap string node -> Prop.
Variable w : World.
Hypothesis HI : I (fs w).

Lemma holds_sys_fail {A} c msg : holds_after I (@sys_fail A c msg w).
Proof. exact HI. Qed.

Lemma holds_sys_same {A} c (a : A) : holds_after I (sys_ok c (fs w) a w).
Proof. exact HI. Qed.

Ltac reader :=
  repeat match goal with
         | |- context [if fails ?w then _ else _] => destruct (fails w)
         | |- context [match fs ?w !! ?p with _ => _ end] =>
             destruct (fs w !! p) as [[| |]|]
         end;
  first [apply holds_sys_fail | apply holds_sys_same].

Lemma holds_getsize p : holds_after I (getsize p w).
Proof. unfold getsize. reader. Qed.

Lemma holds_open p : holds_after I (py_open p w).
Proof. unfold py_open. reader. Qed.

Lemma holds_flush h : holds_after I (f_flush h w).
Proof. unfold f_flush. reader. Qed.

Lemma holds_fsync h : holds_after I (os_fsync h w).
Proof. unfold os_fsync. reader. Qed.

Lemma holds_close h : holds_after I (f_close h w).
Proof. unfold f_close. reader. Qed.

Lemma holds_ret {A} (a : A) : holds_after I (ret a w).
Proof. exact HI. Qed.

Lemma holds_call_progress c q l : holds_after I (call_progress c q l w).
Proof. unfold call_progress. destruct (c _ _ _); exact HI. Qed.

Lemma holds_update_progress cb file_size pass_num passes bw :
  holds_after I (update_progress cb file_size pass_num passes bw w).
Proof.
  unfold update_progress. destruct cb as [c|]; [|exact HI].
  unfold bind, py_truediv. destruct (_ =? 0); [exact HI|].
  apply holds_call_progress.
Qed.

Lemma holds_final_progress cb : holds_after I (final_progress cb w).
Proof.
  unfold final_progress. destruct cb; [apply holds_call_progress | exact HI].
Qed.

End Readers.

(** A write changes the file written, a rename the two names, a delete
    the name deleted. *)
Lemma holds_write (I : gmap string node -> Prop) h data w :
  I (fs w) ->
  (forall old, fs w !! h_path h = Some (RegularFile old) ->
               I (<[h_path h := RegularFile (overwrite_at (h_pos h) data old)]> (fs w))) ->
  holds_after I (f_write h data w).
Proof.
  intros HI Hw. unfold f_write. destruct (fails w); [exact HI|].
  destruct (fs w !! h_path h) as [[old| |]|]; try exact HI. now apply Hw.
Qed.

Lemma holds_rename (I : gmap string node -> Prop) src dst w :
  I (fs w) ->
  (forall n, fs w !! src = Some n -> I (<[dst := n]> (delete src (fs w)))) ->
  holds_after I (os_rename src dst w).
Proof.
  intros HI Hr. unfold os_rename. destruct (fails w); [exact HI|].
  destruct (fs w !! src) as [n|]; [|exact HI].
  destruct (fs w !! dst) as [[| |]|]; try exact HI; now apply Hr.
Qed.

Lemma holds_remove (I : gmap string node -> Prop) p w :
  I (fs w) -> I (delete p (fs w)) -> holds_after I (os_remove p w).
Proof.
  intros HI Hd. unfold os_remove. destruct (fails w); [exact HI|].
  destruct (fs w !! p) as [[| |]|]; assumption.
Qed.

Lemma holds_with_open {A} (I : gmap string node -> Prop) p
    (body : handle -> M (handle * A)) w :
  I (fs w) ->
  (forall h w1, py_open p w = Ret h w1 -> holds_after I (body h w1)) ->
  holds_after I (with_open p body w).
Proof.
  intros HI Hbody. unfold with_open.
  pose proof (holds_open I w HI p) as Hopen.
  destruct (py_open p w) as [h w1|e w1|]; simpl in Hopen |- *; auto.
  specialize (Hbody h w1 eq_refl).
  destruct (body h w1) as [[h' a] w2|e w2|]; simpl in Hbody |- *; auto.
  - apply holds_bind; [now apply holds_close|].
    intros _ w3 _ H3. exact H3.
  - pose proof (holds_close I w2 Hbody h) as Hclose.
    destruct (f_close h w2); simpl in *; auto.
Qed.

Lemma holds_for_each {A} (I : gmap string node -> Prop) (body : A -> M unit) l :
  (forall x w1, I (fs w1) -> holds_after I (body x w1)) ->
  forall w, I (fs w) -> holds_after I (for_each l body w).
Proof.
  intros Hbody. induction l as [|x l IH]; intros w HI; cbn [for_each]; [exact HI|].
  apply holds_bind; [now apply Hbody|].
  intros _ w1 _ H1. now apply IH.
Qed.

(** ** What a pass does to the file system *)

Lemma chunk_step_Ret cb file_size pass_num passes chunk_size f bw w f' bw' w' :
  chunk_step cb file_size pass_num passes chunk_size f bw w = Ret (f', bw') w' ->
  h_path f' = h_path f
  /\ h_pos f' = h_pos f + Z.of_nat (length (pattern_of (Z.min chunk_size (file_size - bw))
                                                         pass_num w))
  /\ bw' = bw + Z.min chunk_size (file_size - bw).
Proof.
  intros Hrun.
  pose proof (chunk_step_shape cb file_size pass_num passes chunk_size f bw w) as Hs.
  rewrite Hrun in Hs. inversion Hs; subst. auto.
Qed.

Lemma holds_chunk_step (I : gmap string node -> Prop)
    cb file_size pass_num passes chunk_size f bw w :
  I (fs w) ->
  (forall old, fs w !! h_path f = Some (RegularFile old) ->
     I (<[h_path f := RegularFile
            (overwrite_at (h_pos f)
               (pattern_of (Z.min chunk_size (file_size - bw)) pass_num w) old)]> (fs w))) ->
  holds_after I (chunk_step cb file_size pass_num passes chunk_size f bw w).
Proof.
  intros HI Hw. unfold chunk_step.
  destruct (pattern_world_fields (Z.min chunk_size (file_size - bw)) pass_num w)
    as (Hfs & _).
  apply holds_bind.
  { rewrite generate_pattern_eq. simpl. now rewrite Hfs. }
  intros pattern w1 Hgen H1. rewrite generate_pattern_eq in Hgen. injection Hgen as <- <-.
  apply holds_bind.
  { apply holds_write; [exact H1|]. rewrite Hfs. exact Hw. }
  intros f1 w2 _ H2.
  apply holds_bind; [now apply holds_flush|]. intros _ w3 _ H3.
  apply holds_bind; [now apply holds_fsync|]. intros _ w4 _ H4.
  apply holds_bind; [now apply holds_update_progress|]. intros _ w5 _ H5.
  exact H5.
Qed.

(** An invariant that writes to the file do not break survives the chunk
    loop, for any chunk size. *)
Lemma holds_chunk_loop_any (I : gmap string node -> Prop) path
    cb file_size pass_num passes chunk_size :
  (forall m old pos data,
      I m -> m !! path = Some (RegularFile old) ->
      I (<[path := RegularFile (overwrite_at pos data old)]> m)) ->
  forall fuel f bw w,
    h_path f = path -> I (fs w) ->
    holds_after I (chunk_loop fuel cb file_size pass_num passes chunk_size f bw w).
Proof.
  intros Hcl. induction fuel as [|fuel IH]; intros f bw w Hf HI; cbn [chunk_loop];
    destruct (bw <? file_size); try exact HI; [constructor|].
  apply holds_bind.
  { apply holds_chunk_step; [exact HI|]. rewrite Hf. intros old Hold. now apply Hcl. }
  intros [f' bw'] w1 Hstep H1. apply chunk_step_Ret in Hstep as (Hf' & _).
  apply IH; [cbn [fst]; congruence | exact H1].
Qed.

(** With a positive chunk size the chunk loop keeps the size of the file,
    however it ends. *)
Lemma holds_chunk_loop_len path cb file_size pass_num passes chunk_size :
  0 < chunk_size ->
  forall fuel f bw w,
    h_path f = path -> h_pos f = bw -> 0 <= bw <= file_size ->
    file_len path file_size (fs w) ->
    holds_after (file_len path file_size)
      (chunk_loop fuel cb file_size pass_num passes chunk_size f bw w).
Proof.
  intros HC. induction fuel as [|fuel IH]; intros f bw w Hf Hpos Hbw HI; cbn [chunk_loop];
    destruct (Z.ltb_spec bw file_size) as [Hlt|Hge]; try exact HI; [constructor|].
  set (cc := Z.min chunk_size (file_size - bw)).
  assert (Hcc : 0 < cc <= file_size - bw) by (unfold cc; lia).
  apply holds_bind.
  { apply holds_chunk_step; [exact HI|]. fold cc. rewrite Hf, Hpos.
    intros old Hold. destruct HI as (content & Hlook & Hlen).
    rewrite Hlook in Hold. injection Hold as <-.
    exists (overwrite_at bw (pattern_of cc pass_num w) content).
    split; [apply lookup_insert_eq|].
    rewrite overwrite_at_length; [exact Hlen | lia |].
    rewrite pattern_of_length. lia. }
  intros [f' bw'] w1 Hstep H1. apply chunk_step_Ret in Hstep as (Hf' & Hpos' & Hbw').
  fold cc in Hpos', Hbw'. rewrite pattern_of_length in Hpos'.
  apply IH; cbn [fst snd]; [congruence | lia | lia | exact H1].
Qed.

Lemma py_open_Ret p w h w1 :
  py_open p w = Ret h w1 -> h = mkHandle p 0 /\ fs w1 = fs w.
Proof.
  unfold py_open, sys_fail, sys_ok. destruct (fails w); [discriminate|].
  destruct (fs w !! p) as [[| |]|]; try discriminate. now intros [= <- <-].
Qed.

Lemma holds_overwrite_pass_any (I : gmap string node -> Prop) path
    fuel cb file_size passes chunk_size pass_num w :
  (forall m old pos data,
      I m -> m !! path = Some (RegularFile old) ->
      I (<[path := RegularFile (overwrite_at pos data old)]> m)) ->
  I (fs w) ->
  holds_after I (overwrite_pass fuel path cb file_size passes chunk_size pass_num w).
Proof.
  intros Hcl HI. unfold overwrite_pass. apply holds_with_open; [exact HI|].
  intros h w1 Hopen. apply py_open_Ret in Hopen as (-> & Hfs).
  apply holds_bind.
  - apply (holds_chunk_loop_any I path); [exact Hcl | reflexivity | now rewrite Hfs].
  - intros f w2 _ H2. exact H2.
Qed.

Lemma holds_overwrite_pass_len path fuel cb file_size passes chunk_size pass_num w :
  0 < chunk_size ->
  file_len path file_size (fs w) ->
  holds_after (file_len path file_size)
    (overwrite_pass fuel path cb file_size passes chunk_size pass_num w).
Proof.
  intros HC HI. unfold overwrite_pass. apply holds_with_open; [exact HI|].
  intros h w1 Hopen. apply py_open_Ret in Hopen as (-> & Hfs).
  assert (0 <= file_size) by (destruct HI as (c & _ & <-); lia).
  apply holds_bind.
  - apply holds_chunk_loop_len; [exact HC | reflexivity | reflexivity | lia |].
    now rewrite Hfs.
  - intros f w2 _ H2. exact H2.
Qed.

Lemma unchanged_outside_write (S : string -> Prop) path m0 m old pos data :
  S path ->
  unchanged_outside S m0 m ->
  unchanged_outside S m0 (<[path := RegularFile (overwrite_at pos data old)]> m).
Proof.
  intros HS Hm q Hq. rewrite lookup_insert_ne; [now apply Hm|].
  intros <-. now apply Hq.
Qed.



(** ** What a run does to the file system *)

Section RunInvariant.

Variable I : gmap string node -> Prop.
Variable filepath : string.

(** [I] survives the renames and the delete of a run on [filepath]. *)
Hypothesis Hrename :
  forall m n src dst,
    I m -> own_paths filepath src -> drawn_path (dirname filepath) dst ->
    m !! src = Some n -> I (<[dst := n]> (delete src m)).
Hypothesis Hremove :
  forall m p, I m -> own_paths filepath p -> I (delete p m).

Lemma holds_rename_loop n :
  forall current_path w,
    own_paths filepath current_path -> I (fs w) ->
    holds_after I (rename_loop n (dirname filepath) current_path w).
Proof.
  induction n as [|n IH]; intros cur w Hcur HI; cbn [rename_loop]; [exact HI|].
  unfold bind at 1. rewrite random_choices_hex.
  fold (hex_name (rand_src w) (rand_pos w)).
  assert (Hdrawn : drawn_path (dirname filepath)
                     (path_join (dirname filepath) (hex_name (rand_src w) (rand_pos w)))).
  { eexists. split; [apply hex_name_is_hex_name | reflexivity]. }
  apply holds_bind.
  - apply holds_rename; [exact HI|]. intros nd Hsrc. now apply Hrename.
  - intros _ w1 _ H1. apply IH; [now right | exact H1].
Qed.

Variables (fuel : nat) (method : string) (cb : option Callback) (chunk_size : Z).

(** [I] survives the passes. *)
Hypothesis Hpasses :
  forall file_size w1,
    I (fs w1) -> file_len filepath file_size (fs w1) ->
    holds_after I
      (for_each (py_range (dict_get PATTERNS method 3))
         (overwrite_pass fuel filepath cb file_size (dict_get PATTERNS method 3) chunk_size)
         w1).

Lemma holds_shred_body w :
  I (fs w) -> holds_after I (shred_body fuel filepath method cb chunk_size w).
Proof.
  intros HI. unfold shred_body.
  destruct (isfile filepath w); cbn [negb]; [|exact HI].
  apply holds_bind; [now apply holds_getsize|].
  intros file_size w1 Hsize H1.
  apply getsize_Ret in Hsize as (c & Hlook & -> & _ & ->).
  apply holds_bind.
  { apply Hpasses; [exact H1|]. exists c. split; [exact Hlook | reflexivity]. }
  intros _ w2 _ H2.
  apply holds_bind; [apply holds_rename_loop; [now left | exact H2]|].
  intros current_path w3 Hren H3.
  assert (Hown : own_paths filepath current_path).
  { apply rename_loop_Ret in Hren as (_ & -> & _).
    cbn [rename_targets]. rewrite !last_cons. cbn [List.last].
    right. eexists. split; [apply hex_name_is_hex_name | reflexivity]. }
  apply holds_bind; [apply holds_remove; [exact H3 | now apply Hremove]|].
  intros _ w4 _ H4.
  apply holds_bind; [now apply holds_final_progress|].
  intros _ w5 _ H5. exact H5.
Qed.

Lemma holds_shred_file w :
  I (fs w) -> holds_after I (shred_file fuel filepath method cb chunk_size w).
Proof.
  intros HI. pose proof (holds_shred_body w HI) as Hbody.
  unfold shred_file, try_except.
  destruct (shred_body _ _ _ _ _ w) as [b w1|e w1|]; simpl in Hbody |- *; auto.
  destruct (is_Exception e); exact Hbody.
Qed.

End RunInvariant.


(** ** A run that succeeds removes the file *)

Lemma rename_loop_gone (path : string) n directory :
  forall current_path w last_path w',
    rename_loop n directory current_path w = Ret last_path w' ->
    path = current_path \/ fs w !! path = None ->
    path = last_path \/ fs w' !! path = None.
Proof.
  induction n as [|n IH]; intros cur w last_path w'; cbn [rename_loop].
  - unfold ret. now intros [= <- <-].
  - unfold bind at 1. rewrite random_choices_hex.
    fold (hex_name (rand_src w) (rand_pos w)).
    set (t := path_join directory (hex_name (rand_src w) (rand_pos w))).
    unfold bind at 1.
    destruct (os_rename cur t (advance_rand_by 32 w)) as [[] w1|?|] eqn:Hren;
      try discriminate.
    apply os_rename_Ret in Hren as (nd & Hsrc & ->).
    intros Hrest Hpath. eapply IH; [exact Hrest|].
    destruct (decide (path = t)) as [Heq|Hne]; [now left|right].
    cbn [fs emit tick set_fs advance_rand_by].
    rewrite lookup_insert_ne by congruence.
    destruct Hpath as [->|Hnone]; [apply lookup_delete_eq|].
    destruct (decide (cur = path)) as [->|Hne'];
      [apply lookup_delete_eq | now rewrite lookup_delete_ne].
Qed.

(** X3. After a run that returns [True] there is nothing left at the
    original path, whatever names were drawn. *)
Theorem X3_success_removes_original_path (fuel : nat) (filepath method : string)
    (cb : option Callback) (chunk_size : Z) (w w' : World) :
  shred_file fuel filepath method cb chunk_size w = Ret true w' ->
  fs w' !! filepath = None.
Proof.
  intros Hrun.
  apply shred_file_true in Hrun
    as (file_size & w1 & w2 & cur & w3 & w4 & _ & _ & _ & Hren & Hrm & Hfin).
  apply (rename_loop_gone filepath) in Hren; [|now left].
  apply os_remove_Ret in Hrm as ->.
  apply final_progress_trace in Hfin as (_ & ->).
  cbn [fs emit tick set_fs].
  destruct Hren as [->|Hnone]; [apply lookup_delete_eq|].
  destruct (decide (cur = filepath)) as [->|Hne];
    [apply lookup_delete_eq | now rewrite lookup_delete_ne].
Qed.

(** The theorem at a run whose last drawn name is the original name
    again. *)
Lemma X3_success_removes_original_path_witness :
  let name := "11111111111111111111111111111111"%string in
  let w := mkWorld (<[name := RegularFile [5]]> ∅)
             (fun n => Z.of_nat ((n + 32) / 32 mod 2)) 0 (fun _ => false) 0 [] in
  exists w',
    shred_file 1 name "quick" None 1 w = Ret true w'
    /\ In (EvSys (SysRename "00000000000000000000000000000000" name) true) (trace w')
    /\ fs w' !! name = None.
Proof.
  intros name w.
  destruct (shred_file 1 name "quick" None 1 w) as [[|] w'|e w'|] eqn:Hrun;
    try (vm_compute in Hrun; discriminate).
  exists w'. split; [reflexivity|].
  split; [|exact (X3_success_removes_original_path _ _ _ _ _ _ _ Hrun)].
  vm_compute in Hrun. injection Hrun as <-. cbn [trace]. simpl. tauto.
Defined.

(** ** What a run writes *)

Lemma after_bind {A B} (P : list event -> Prop) w (m : M A) (k : A -> M B) :
  (forall e1 e2, P e1 -> P e2 -> P (e1 ++ e2)) ->
  after w (m w) (fun _ => P) ->
  (forall a w1, m w = Ret a w1 -> after w1 (k a w1) (fun _ => P)) ->
  after w (bind m k w) (fun _ => P).
Proof.
  intros Happ Hm Hk. unfold bind.
  destruct (m w) as [a w1|e w1|]; simpl in Hm |- *; auto.
  destruct Hm as (evs1 & Ht1 & H1). specialize (Hk a w1 eq_refl).
  destruct (k a w1) as [b w2|e w2|]; simpl in Hk |- *; auto;
    destruct Hk as (evs2 & Ht2 & H2); exists (evs1 ++ evs2);
    (split; [rewrite Ht2, Ht1; now rewrite app_assoc | now apply Happ]).
Qed.

Lemma after_impl {A} (P Q : World -> list event -> Prop) w (o : outcome A) :
  (forall w' evs, P w' evs -> Q w' evs) -> after w o P -> after w o Q.
Proof.
  intros H. destruct o; simpl; auto; intros (evs & Ht & HP); eauto.
Qed.

Section Writes.

(** A property [P] of the data of the pattern of every pass in [good]. *)
Variable P : list Z -> Prop.
Variable good : Z -> Prop.
Hypothesis Hpattern :
  forall pass_num size w, good pass_num -> P (pattern_of size pass_num w).

Let Q := Forall (write_data P).

Lemma Q_app e1 e2 : Q e1 -> Q e2 -> Q (e1 ++ e2).
Proof. intros H1 H2. apply Forall_app. now split. Qed.

Lemma Q_other (evs : list event) :
  Forall (fun ev => match ev with EvSys (SysWrite _ _ _) _ => False | _ => True end) evs ->
  Q evs.
Proof.
  intros H. eapply Forall_impl; [exact H|].
  intros [[]| |]; simpl; tauto.
Qed.

Lemma writes_chunk_step cb file_size pass_num passes chunk_size f bw w :
  good pass_num ->
  after w (chunk_step cb file_size pass_num passes chunk_size f bw w) (fun _ => Q).
Proof.
  intros Hp.
  pose proof (chunk_step_shape cb file_size pass_num passes chunk_size f bw w) as Hs.
  pose proof (Hpattern pass_num (Z.min chunk_size (file_size - bw)) w Hp) as Hdata.
  remember (chunk_step _ _ _ _ _ _ _ _) as o eqn:Ho. clear Ho.
  destruct Hs; simpl; eexists; (split; [eassumption|]);
    unfold Q, synced_write, progress_events; try destruct cb;
    repeat (constructor; simpl; auto).
Qed.

Lemma writes_chunk_loop cb file_size pass_num passes chunk_size :
  good pass_num ->
  forall fuel f bw w,
    after w (chunk_loop fuel cb file_size pass_num passes chunk_size f bw w) (fun _ => Q).
Proof.
  intros Hp. induction fuel as [|fuel IH]; intros f bw w; cbn [chunk_loop];
    destruct (bw <? file_size);
    try (exists []; split; [now rewrite app_nil_r | constructor]); [exact Logic.I|].
  apply after_bind; [exact Q_app | now apply writes_chunk_step|].
  intros st w1 _. apply IH.
Qed.

Lemma writes_overwrite_pass fuel path cb file_size passes chunk_size pass_num w :
  good pass_num ->
  after w (overwrite_pass fuel path cb file_size passes chunk_size pass_num w)
    (fun _ => Q).
Proof.
  intros Hp.
  pose proof (overwrite_pass_events fuel path cb file_size passes chunk_size pass_num w)
    as Hev.
  unfold overwrite_pass, with_open in *.
  destruct (py_open path w) as [h w1|e w1|] eqn:Hopen; simpl in Hev |- *; auto.
  2: { destruct Hev as (evs & Ht & _). exists evs. split; [exact Ht|].
       revert Hopen Ht. unfold py_open, sys_fail, sys_ok.
       destruct (fails w); [|destruct (fs w !! path) as [[| |]|]]; intros [= <- <-] Ht;
         try discriminate; cbn [trace emit tick] in Ht; apply app_inv_head in Ht;
         subst evs; repeat constructor. }
  assert (Ht1 : exists ev, trace w1 = trace w ++ [ev] /\ write_data P ev).
  { revert Hopen. unfold py_open, sys_fail, sys_ok.
    destruct (fails w); [discriminate|].
    destruct (fs w !! path) as [[| |]|]; try discriminate. intros [= <- <-].
    eexists. split; [reflexivity | exact Logic.I]. }
  destruct Ht1 as (ev1 & Ht1 & Hq1).
  assert (Hclose : forall h2 w2, after w2 (f_close h2 w2) (fun _ => Q)).
  { intros h2 w2. unfold f_close, sys_fail, sys_ok.
    destruct (fails w2); simpl; eexists; (split; [reflexivity|]); repeat constructor. }
  pose proof (writes_chunk_loop cb file_size pass_num passes chunk_size Hp fuel h 0 w1)
    as Hloop.
  unfold bind at 1.
  destruct (chunk_loop _ _ _ _ _ _ _ _ _) as [f' w2|e w2|]; simpl in Hloop |- *; auto.
  - destruct Hloop as (evs2 & Ht2 & Hq2).
    unfold ret at 1. cbv beta iota. unfold bind.
    specialize (Hclose f' w2).
    destruct (f_close f' w2) as [[] w3|e w3|]; simpl in Hclose |- *; auto;
      destruct Hclose as (evs3 & Ht3 & Hq3); exists ([ev1] ++ evs2 ++ evs3);
      (split; [rewrite Ht3, Ht2, Ht1; now rewrite <- !app_assoc|]);
      (apply Q_app; [repeat constructor; exact Hq1 | now apply Q_app]).
  - destruct Hloop as (evs2 & Ht2 & Hq2).
    specialize (Hclose h w2).
    destruct (f_close h w2) as [[] w3|e' w3|]; simpl in Hclose |- *; auto;
      destruct Hclose as (evs3 & Ht3 & Hq3); exists ([ev1] ++ evs2 ++ evs3);
      (split; [rewrite Ht3, Ht2, Ht1; now rewrite <- !app_assoc|]);
      (apply Q_app; [repeat constructor; exact Hq1 | now apply Q_app]).
Qed.

Lemma writes_passes fuel path cb file_size passes chunk_size (l : list Z) :
  Forall good l ->
  forall w,
    after w (for_each l (overwrite_pass fuel path cb file_size passes chunk_size) w)
      (fun _ => Q).
Proof.
  induction 1 as [|p l Hp _ IH]; intros w; cbn [for_each].
  - exists []. split; [now rewrite app_nil_r | constructor].
  - apply after_bind; [exact Q_app | now apply writes_overwrite_pass|].
    intros _ w1 _. apply IH.
Qed.

End Writes.

Lemma no_write_sys_ok {A} c (f : gmap string node) (a : A) w :
  not_a_write (EvSys c true) ->
  after w (sys_ok c f a w) (fun _ => Forall not_a_write).
Proof. intros H. exists [EvSys c true]. split; [reflexivity | now repeat constructor]. Qed.

Lemma no_write_sys_fail {A} c msg w :
  not_a_write (EvSys c false) ->
  after w (@sys_fail A c msg w) (fun _ => Forall not_a_write).
Proof. intros H. exists [EvSys c false]. split; [reflexivity | now repeat constructor]. Qed.

Lemma no_write_getsize p w : after w (getsize p w) (fun _ => Forall not_a_write).
Proof.
  unfold getsize. destruct (fails w); [now apply no_write_sys_fail|].
  destruct (fs w !! p) as [[| |]|];
    first [now apply no_write_sys_fail | now apply no_write_sys_ok].
Qed.

Lemma no_write_rename src dst w :
  after w (os_rename src dst w) (fun _ => Forall not_a_write).
Proof.
  unfold os_rename. destruct (fails w); [now apply no_write_sys_fail|].
  destruct (fs w !! src) as [n|]; [|now apply no_write_sys_fail].
  destruct (fs w !! dst) as [[| |]|];
    first [now apply no_write_sys_fail | now apply no_write_sys_ok].
Qed.

Lemma no_write_remove p w : after w (os_remove p w) (fun _ => Forall not_a_write).
Proof.
  unfold os_remove. destruct (fails w); [now apply no_write_sys_fail|].
  destruct (fs w !! p) as [[| |]|];
    first [now apply no_write_sys_fail | now apply no_write_sys_ok].
Qed.

Lemma no_write_final_progress cb w :
  after w (final_progress cb w) (fun _ => Forall not_a_write).
Proof.
  unfold final_progress. destruct cb as [c|].
  - unfold call_progress. destruct (c _ _ _); simpl;
      eexists; (split; [reflexivity | now repeat constructor]).
  - exists []. split; [now rewrite app_nil_r | constructor].
Qed.

Lemma no_write_app (e1 e2 : list event) :
  Forall not_a_write e1 -> Forall not_a_write e2 -> Forall not_a_write (e1 ++ e2).
Proof. intros H1 H2. apply Forall_app. now split. Qed.

Lemma no_write_rename_loop n directory :
  forall current_path w,
    after w (rename_loop n directory current_path w) (fun _ => Forall not_a_write).
Proof.
  induction n as [|n IH]; intros cur w; cbn [rename_loop].
  - exists []. split; [now rewrite app_nil_r | constructor].
  - unfold bind at 1. rewrite random_choices_hex.
    assert (Hshift : forall (o : outcome string),
               after (advance_rand_by 32 w) o (fun _ => Forall not_a_write) ->
               after w o (fun _ => Forall not_a_write)).
    { intros o. destruct o; simpl; auto. }
    apply Hshift. apply after_bind; [exact no_write_app | apply no_write_rename|].
    intros _ w1 _. apply IH.
Qed.

Section RunWrites.

Variable P : list Z -> Prop.
Variable method : string.
Hypothesis Hpattern :
  forall pass_num size w,
    0 <= pass_num < dict_get PATTERNS method 3 -> P (pattern_of size pass_num w).

Lemma write_data_app (e1 e2 : list event) :
  Forall (write_data P) e1 -> Forall (write_data P) e2 -> Forall (write_data P) (e1 ++ e2).
Proof. intros H1 H2. apply Forall_app. now split. Qed.

Lemma no_write_data {A} w (o : outcome A) :
  after w o (fun _ => Forall not_a_write) ->
  after w o (fun _ => Forall (write_data P)).
Proof.
  apply after_impl. intros _ evs H. eapply Forall_impl; [exact H|].
  intros [[]| |]; simpl; tauto.
Qed.

Lemma py_range_bounds n : Forall (fun i => 0 <= i < n) (py_range n).
Proof.
  unfold py_range. apply Forall_map, Forall_forall. intros i Hi.
  apply list_elem_of_In, in_seq in Hi. simpl. lia.
Qed.

Lemma writes_shred_body fuel filepath cb chunk_size w :
  after w (shred_body fuel filepath method cb chunk_size w)
    (fun _ => Forall (write_data P)).
Proof.
  unfold shred_body. destruct (isfile filepath w); cbn [negb].
  2: { exists []. split; [now rewrite app_nil_r | constructor]. }
  apply after_bind; [exact write_data_app | apply no_write_data, no_write_getsize|].
  intros file_size w1 _.
  apply after_bind; [exact write_data_app | |].
  { apply (writes_passes P (fun i => 0 <= i < dict_get PATTERNS method 3) Hpattern).
    apply py_range_bounds. }
  intros _ w2 _.
  apply after_bind; [exact write_data_app | apply no_write_data, no_write_rename_loop|].
  intros current_path w3 _.
  apply after_bind; [exact write_data_app | apply no_write_data, no_write_remove|].
  intros _ w4 _.
  apply after_bind; [exact write_data_app | apply no_write_data, no_write_final_progress|].
  intros _ w5 _. exists []. split; [now rewrite app_nil_r | constructor].
Qed.

Lemma writes_shred_file fuel filepath cb chunk_size w :
  after w (shred_file fuel filepath method cb chunk_size w)
    (fun _ => Forall (write_data P)).
Proof.
  pose proof (writes_shred_body fuel filepath cb chunk_size w) as Hbody.
  unfold shred_file, try_except.
  destruct (shred_body _ _ _ _ _ w) as [b w1|e w1|]; simpl in Hbody |- *; auto.
  destruct (is_Exception e); simpl; [|exact Hbody].
  destruct Hbody as (evs & Ht & Hq).
  exists (evs ++ [EvPrint (error_line filepath e)]).
  split; [cbn [trace emit]; now rewrite Ht, <- app_assoc|].
  apply write_data_app; [exact Hq | repeat constructor].
Qed.

End RunWrites.

(** X4. In a run with method "quick", whatever its outcome, every write
    carries zero bytes only: the single pass is pass 0, the all-zero
    pattern. *)
Theorem X4_quick_writes_zeros_only (fuel : nat) (filepath : string)
    (cb : option Callback) (chunk_size : Z) (w : World) :
  after w (shred_file fuel filepath "quick" cb chunk_size w)
    (fun _ evs => Forall (write_data (all_bytes 0)) evs).
Proof.
  apply writes_shred_file.
  intros pass_num size w0 Hp.
  change (dict_get PATTERNS "quick" 3) with 1 in Hp.
  assert (pass_num = 0) as -> by lia.
  unfold pattern_of, all_bytes. change (0 mod 3 =? 0) with true. cbv iota.
  now rewrite repeat_length.
Qed.

(** ** What the passes leave in the file *)

Lemma chunk_events_data (P : list Z -> Prop) cb path file_size pass_num passes chunks :
  forall off,
    Forall (write_data P) (chunk_events cb path file_size pass_num passes off chunks) ->
    Forall P chunks.
Proof.
  induction chunks as [|d ds IH]; intros off; cbn [chunk_events]; [constructor|].
  intros H. apply Forall_app in H as [Hw H]. apply Forall_app in H as [_ H].
  constructor; [|now apply IH in H].
  unfold synced_write in Hw. cbn [h_path h_pos] in Hw. now inversion Hw.
Qed.

Lemma concat_all_bytes b (chunks : list (list Z)) :
  Forall (all_bytes b) chunks -> concat chunks = repeat b (length (concat chunks)).
Proof.
  induction 1 as [|d ds Hd _ IH]; [reflexivity|].
  cbn [concat]. rewrite length_app, repeat_app, <- IH. now rewrite <- Hd.
Qed.

Lemma fill_byte_pattern pass_num b size w :
  fill_byte pass_num = Some b -> all_bytes b (pattern_of size pass_num w).
Proof.
  unfold fill_byte, pattern_of, all_bytes.
  destruct (pass_num mod 3 =? 0); [intros [= <-]; now rewrite repeat_length|].
  destruct (pass_num mod 3 =? 1); [intros [= <-]; now rewrite repeat_length|].
  discriminate.
Qed.

(** A pass in which nothing fails. *)
Lemma overwrite_pass_ok fuel path cb content pass_num passes chunk_size w :
  0 < chunk_size ->
  0 <= pass_num < passes ->
  fs w !! path = Some (RegularFile content) ->
  (length content <= fuel)%nat ->
  fault_free w ->
  quiet_sink cb ->
  exists w' content',
    overwrite_pass fuel path cb (Z.of_nat (length content)) passes chunk_size pass_num w
    = Ret tt w'
    /\ fs w' !! path = Some (RegularFile content')
    /\ length content' = length content
    /\ fault_free w'
    /\ (forall b, fill_byte pass_num = Some b -> content' = repeat b (length content)).
Proof.
  intros HC Hp Hlook Hfuel Hff Hquiet.
  set (file_size := Z.of_nat (length content)).
  set (w1 := emit (EvSys (SysOpen path) true) (tick w)).
  destruct (chunk_loop_ok cb path file_size pass_num passes chunk_size
              HC ltac:(lia) Hquiet fuel 0 w1 content)
    as (w2 & chunks & Hrun & Ht & Hch & Hfs & Hff2); auto; try (unfold file_size; lia).
  exists (emit (EvSys (SysClose path) true) (tick w2)), (concat chunks).
  pose proof (chunking_total _ _ _ _ Hch) as Htotal.
  split.
  { unfold overwrite_pass, with_open, py_open, fails, sys_ok.
    rewrite Hff, Hlook, set_fs_same. fold w1.
    unfold bind at 1. rewrite Hrun. unfold ret at 1. cbv beta iota.
    unfold bind, f_close, fails, sys_ok, ret. now rewrite Hff2, set_fs_same. }
  split; [exact Hfs|].
  split; [unfold file_size in Htotal; lia|].
  split; [exact Hff2|].
  intros b Hb.
  assert (Hpat : forall p size w0,
             pass_num = p -> all_bytes b (pattern_of size p w0)).
  { intros p size w0 <-. now apply fill_byte_pattern. }
  pose proof (writes_chunk_loop (all_bytes b) (eq pass_num) Hpat
                cb file_size pass_num passes chunk_size eq_refl fuel
                (mkHandle path 0) 0 w1) as Hdata.
  rewrite Hrun in Hdata. destruct Hdata as (evs & Ht' & Hq).
  rewrite Ht in Ht'. apply app_inv_head in Ht'. subst evs.
  apply chunk_events_data in Hq. apply concat_all_bytes in Hq.
  rewrite Hq. f_equal. unfold file_size in Htotal. lia.
Qed.

Lemma passes_ok fuel path cb passes chunk_size (l : list Z) :
  0 < chunk_size ->
  quiet_sink cb ->
  Forall (fun pass_num => 0 <= pass_num < passes) l ->
  forall w content,
    fs w !! path = Some (RegularFile content) ->
    (length content <= fuel)%nat ->
    fault_free w ->
    exists w' content',
      for_each l (overwrite_pass fuel path cb (Z.of_nat (length content)) passes chunk_size) w
      = Ret tt w'
      /\ fs w' !! path = Some (RegularFile content')
      /\ length content' = length content
      /\ fault_free w'
      /\ (forall pass_num b,
            last l = Some pass_num -> fill_byte pass_num = Some b ->
            content' = repeat b (length content)).
Proof.
  intros HC Hquiet. induction 1 as [|p l Hp _ IH]; intros w content Hlook Hfuel Hff.
  - exists w, content. cbn [for_each]. repeat split; auto. discriminate.
  - destruct (overwrite_pass_ok fuel path cb content p passes chunk_size w)
      as (w1 & c1 & Hrun1 & Hlook1 & Hlen1 & Hff1 & Hfill1); auto.
    destruct (IH w1 c1 Hlook1 ltac:(lia) Hff1)
      as (w' & c' & Hrun & Hlook' & Hlen' & Hff' & Hfill').
    exists w', c'. cbn [for_each]. unfold bind. rewrite Hrun1.
    rewrite Hlen1 in Hrun. split; [exact Hrun|].
    split; [exact Hlook'|]. split; [lia|]. split; [exact Hff'|].
    intros pass_num b Hlast Hb. destruct l as [|p' l'].
    + injection Hlast as <-. cbn [for_each] in Hrun. injection Hrun as <-.
      rewrite Hlook1 in Hlook'. injection Hlook' as <-. now apply Hfill1.
    + rewrite <- Hlen1. eapply Hfill'; [|exact Hb]. exact Hlast.
Qed.

Lemma py_range_last n : 0 < n -> last (py_range n) = Some (n - 1).
Proof.
  intros Hn. unfold py_range.
  replace (Z.to_nat n) with (S (Z.to_nat (n - 1))) by lia.
  rewrite seq_S, map_app. cbn [map]. rewrite last_snoc. f_equal. cbn [Nat.add]. lia.
Qed.

(** X5. When nothing fails, the passes of a run leave a file of the same
    size whose content is the pattern of the last pass: zeros after
    "quick" (pass 0) and after "dod" (last pass 6), [0xFF] after "gutmann"
    (last pass 34). *)
Theorem X5_content_after_the_passes (fuel : nat) (filepath method : string)
    (cb : option Callback) (content : list Z) (chunk_size : Z) (w : World) :
  0 < chunk_size ->
  fs w !! filepath = Some (RegularFile content) ->
  (length content <= fuel)%nat ->
  fault_free w ->
  quiet_sink cb ->
  let passes := dict_get PATTERNS method 3 in
  exists w' content',
    for_each (py_range passes)
      (overwrite_pass fuel filepath cb (Z.of_nat (length content)) passes chunk_size) w
    = Ret tt w'
    /\ fs w' !! filepath = Some (RegularFile content')
    /\ length content' = length content
    /\ (forall b, fill_byte (passes - 1) = Some b ->
                  content' = repeat b (length content))
    /\ (method = "quick"%string \/ method = "dod"%string ->
        content' = repeat 0 (length content))
    /\ (method = "gutmann"%string -> content' = repeat 255 (length content)).
Proof.
  intros HC Hlook Hfuel Hff Hquiet passes.
  assert (HN : 0 < passes) by (pose proof (PATTERNS_cases method); unfold passes; lia).
  destruct (passes_ok fuel filepath cb passes chunk_size (py_range passes) HC Hquiet
              (py_range_bounds passes) w content Hlook Hfuel Hff)
    as (w' & c' & Hrun & Hlook' & Hlen' & _ & Hfill).
  exists w', c'. split; [exact Hrun|]. split; [exact Hlook'|]. split; [exact Hlen'|].
  assert (Hlast : forall b, fill_byte (passes - 1) = Some b ->
                            c' = repeat b (length content)).
  { intros b Hb. eapply Hfill; [now apply py_range_last | exact Hb]. }
  split; [exact Hlast|]. split.
  - intros [->| ->]; apply Hlast; reflexivity.
  - intros ->. apply Hlast. reflexivity.
Qed.

(** The theorem at a "dod" run on a four-byte file. *)
Lemma X5_content_after_the_passes_witness :
  let w := mkWorld (<["a/f" := RegularFile [1; 2; 3; 4]]> ∅)
             (fun n => Z.of_nat n) 0 (fun _ => false) 0 [] in
  exists w',
    for_each (py_range 7) (overwrite_pass 4 "a/f" None 4 7 3) w = Ret tt w'
    /\ fs w' !! "a/f" = Some (RegularFile [0; 0; 0; 0]).
Proof.
  intros w.
  destruct (X5_content_after_the_passes 4 "a/f" "dod" None [1; 2; 3; 4] 3 w)
    as (w' & c' & Hrun & Hlook & _ & _ & Hzero & _).
  - lia.
  - reflexivity.
  - simpl; lia.
  - intros n; reflexivity.
  - intros c tr q l H; discriminate.
  - exists w'. split; [exact Hrun|]. rewrite Hlook, Hzero by now right. reflexivity.
Defined.

(** ** The batch *)

Lemma bounded_files_pass bound fuel path cb file_size passes chunk_size pass_num w :
  0 < chunk_size ->
  bounded_files bound (fs w) /\ file_len path file_size (fs w) ->
  holds_after (fun m => bounded_files bound m /\ file_len path file_size m)
    (overwrite_pass fuel path cb file_size passes chunk_size pass_num w).
Proof.
  intros HC [Hb Hlen].
  pose proof (Hpass := holds_and _ _ _
                (holds_overwrite_pass_len path fuel cb file_size passes chunk_size
                   pass_num w HC Hlen)
                (holds_overwrite_pass_any (unchanged_outside (eq path) (fs w)) path
                   fuel cb file_size passes chunk_size pass_num w
                   (fun m old pos data Hm _ =>
                      unchanged_outside_write (eq path) path (fs w) m old pos data
                        eq_refl Hm)
                   (fun q _ => eq_refl))).
  eapply holds_impl; [|exact Hpass].
  intros m [Hlen' Hout]. split; [|exact Hlen'].
  intros q c Hq. destruct (decide (path = q)) as [<-|Hne].
  - destruct Hlen' as (c' & Hc' & Hsize'). destruct Hlen as (c0 & Hc0 & Hsize0).
    rewrite Hc' in Hq. injection Hq as <-.
    apply Hb in Hc0. lia.
  - rewrite (Hout q Hne) in Hq. now apply Hb in Hq.
Qed.

Lemma bounded_files_shred_file bound fuel filepath method cb chunk_size w :
  0 < chunk_size ->
  bounded_files bound (fs w) ->
  holds_after (bounded_files bound) (shred_file fuel filepath method cb chunk_size w).
Proof.
  intros HC Hb. apply holds_shred_file; [| | |exact Hb].
  - intros m n src dst Hm _ _ Hsrc q c Hq.
    destruct (decide (dst = q)) as [<-|Hne].
    + rewrite lookup_insert_eq in Hq. injection Hq as ->. now apply Hm in Hsrc.
    + rewrite lookup_insert_ne in Hq by exact Hne.
      apply lookup_delete_Some in Hq as [_ Hq]. now apply Hm in Hq.
  - intros m p Hm _ q c Hq. apply lookup_delete_Some in Hq as [_ Hq]. now apply Hm in Hq.
  - intros file_size w1 H1 Hlen.
    eapply holds_impl with
      (I := fun m => bounded_files bound m /\ file_len filepath file_size m);
      [intros m Hm; exact (proj1 Hm)|].
    apply holds_for_each; [|now split].
    intros pass_num w2 H2. now apply bounded_files_pass.
Qed.

(** On a list of files, with fuel for the largest. *)
Lemma shred_files_loop_returns (fuel : nat) (method : string)
    (filepaths : list string) (w : World) :
  bounded_files fuel (fs w) ->
  exists results w',
    shred_files_loop fuel method filepaths w = Ret results w'
    /\ map fst results = filepaths
    /\ bounded_files fuel (fs w').
Proof.
  revert w. induction filepaths as [|filepath rest IH]; intros w Hb; cbn [shred_files_loop].
  - exists [], w. repeat split; auto.
  - pose proof (runs_shred_body fuel filepath method (Some ui_progress_callback)
                  default_chunk_size w ltac:(unfold default_chunk_size; lia)) as Hbody.
    pose proof (bounded_files_shred_file fuel fuel filepath method
                  (Some ui_progress_callback) default_chunk_size w
                  ltac:(unfold default_chunk_size; lia) Hb) as Hkeep.
    assert (Hrun : exists b w1,
               shred_file fuel filepath method (Some ui_progress_callback)
                 default_chunk_size w = Ret b w1).
    { unfold shred_file, try_except.
      destruct (shred_body _ _ _ _ _ w) as [b0 w0|e0 w0|]; simpl in Hbody.
      - eauto.
      - destruct Hbody as (He & _). rewrite He; [unfold bind, py_print, ret; eauto|].
        intros c tr q l e [= <-]. discriminate.
      - destruct Hbody as (c & Hlook & Hlt). apply Hb in Hlook. lia. }
    destruct Hrun as (b & w1 & Hrun). rewrite Hrun in Hkeep. simpl in Hkeep.
    destruct (IH w1 Hkeep) as (results & w' & Hrest & Hpaths & Hb').
    exists ((filepath, b) :: results), w'.
    unfold bind. rewrite Hrun, Hrest. unfold ret.
    split; [reflexivity|]. split; [cbn; now rewrite Hpaths | exact Hb'].
Qed.

Lemma shred_files_loop_on_reports r fuel method filepaths :
  reports r ->
  forall w,
    shred_files_loop_on r fuel method filepaths w
    = shred_files_loop fuel method filepaths w.
Proof.
  intros Hrep. induction filepaths as [|filepath rest IH]; intros w; [reflexivity|].
  cbn [shred_files_loop_on shred_files_loop]. unfold bind at 1 3.
  rewrite (shred_file_on_reports r fuel filepath method _ _ w Hrep).
  destruct (shred_file _ _ _ _ _ w) as [b w1|e w1|]; [|reflexivity|reflexivity].
  unfold bind. now rewrite IH.
Qed.

(** X6. Where the error of a run can be reported (neither [str(e)] nor
    [print] raises in the [except] branch of the engine), the worker of
    the application runs to the end of the list: with fuel for the largest
    file, every file of the list gets its result, in the order of the
    list, whatever files fail on the way. *)
Theorem X6_batch_runs_to_the_end (r : Reporting) (fuel : nat) (method : string)
    (filepaths : list string) (w : World) :
  reports r ->
  bounded_files fuel (fs w) ->
  exists results w',
    shred_files_loop_on r fuel method filepaths w = Ret results w'
    /\ map fst results = filepaths
    /\ bounded_files fuel (fs w').
Proof.
  intros Hrep Hb. rewrite (shred_files_loop_on_reports r fuel method filepaths Hrep w).
  now apply shred_files_loop_returns.
Qed.

(** The theorem at a list of a missing file, a file whose first write
    fails and a file that is shredded. *)
Lemma X6_batch_runs_to_the_end_witness :
  let w := mkWorld (<["b.txt" := RegularFile [7; 7]]> (<["c.txt" := RegularFile [8]]> ∅))
             (fun n => Z.of_nat n) 0 (fun n => (n =? 2)%nat) 0 [] in
  let r := mkReporting (fun _ => None) (fun _ _ => None) in
  exists w',
    shred_files_loop_on r 2 "quick" ["a.txt"; "b.txt"; "c.txt"] w
    = Ret [("a.txt", false); ("b.txt", false); ("c.txt", true)] w'
    /\ In (EvPrint "Error shredding b.txt: write") (trace w').
Proof.
  intros w r.
  destruct (X6_batch_runs_to_the_end r 2 "quick" ["a.txt"; "b.txt"; "c.txt"] w)
    as (results & w' & Hrun & _ & _).
  - split; reflexivity.
  - intros q c Hq. unfold w in Hq. cbn [fs] in Hq.
    apply lookup_insert_Some in Hq as [[_ Hq]|[_ Hq]];
      [injection Hq as <-; simpl; lia|].
    apply lookup_insert_Some in Hq as [[_ Hq]|[_ Hq]];
      [injection Hq as <-; simpl; lia | now rewrite lookup_empty in Hq].
  - exists w'. rewrite Hrun.
    vm_compute in Hrun. injection Hrun as <- <-.
    split; [reflexivity|]. cbn. tauto.
Defined.

(** ** The name shown for a file *)

Lemma py_len_take n s : py_len (py_take n s) = Nat.min n (py_len s).
Proof.
  revert n. induction s as [|c s IH]; intros n; cbn [py_take py_len].
  - now rewrite Nat.min_0_r.
  - destruct (is_continuation c) eqn:Hc.
    + cbn [py_len]. rewrite Hc. apply IH.
    + destruct n as [|n]; [reflexivity|].
      cbn [py_len]. rewrite Hc, IH. reflexivity.
Qed.

Lemma py_len_app s1 s2 : py_len (s1 ++ s2) = (py_len s1 + py_len s2)%nat.
Proof.
  induction s1 as [|c s1 IH]; [reflexivity|].
  cbn [app py_len]. destruct (is_continuation c); lia.
Qed.

Lemma list_ascii_of_string_app (s1 s2 : string) :
  list_ascii_of_string (s1 +:+ s2)
  = list_ascii_of_string s1 ++ list_ascii_of_string s2.
Proof.
  induction s1 as [|c s1 IH]; [reflexivity|].
  change (list_ascii_of_string (String c s1 +:+ s2))
    with (c :: list_ascii_of_string (s1 +:+ s2)).
  now rewrite IH.
Qed.

(** X7. The name shown in a row of the list has at most 40 characters: a
    name of fewer than 40 characters is shown as it is, a longer one (and
    one of exactly 40) as its first 37 characters and three dots. *)
Theorem X7_display_name_length (filename : string) :
  let chars := list_ascii_of_string filename in
  let shown := list_ascii_of_string (display_name filename) in
  (py_len shown <= 40)%nat
  /\ ((py_len chars < 40)%nat -> display_name filename = filename)
  /\ ((40 <= py_len chars)%nat ->
      shown = py_take 37 chars ++ list_ascii_of_string "..."
      /\ py_len shown = 40%nat).
Proof.
  intros chars shown. unfold shown, display_name. fold chars.
  destruct (py_len chars <? 40)%nat eqn:Hlen.
  - apply Nat.ltb_lt in Hlen. fold chars. repeat split; [lia|lia|lia].
  - apply Nat.ltb_ge in Hlen.
    rewrite list_ascii_of_string_app, list_ascii_of_string_of_list_ascii.
    assert (Hshown : py_len (py_take 37 chars ++ list_ascii_of_string "...") = 40%nat).
    { rewrite py_len_app, py_len_take.
      replace (py_len (list_ascii_of_string "...")) with 3%nat by reflexivity. lia. }
    repeat split; [lia|lia|exact Hshown].
Qed.

(** ** Sizes for the reader *)

Lemma round_half_even_near (n : Z) (d : positive) :
  2 * Z.abs (n - round_half_even (n # d) * Z.pos d) <= Z.pos d.
Proof.
  unfold round_half_even. cbn [Qnum Qden].
  pose proof (Z.div_mod n (Z.pos d) ltac:(lia)) as Hdm.
  pose proof (Z.mod_pos_bound n (Z.pos d) ltac:(lia)) as Hr.
  set (k := n / Z.pos d) in *. set (r := n mod Z.pos d) in *.
  destruct (2 * r <? Z.pos d) eqn:H1; [apply Z.ltb_lt in H1; nia|].
  apply Z.ltb_ge in H1.
  destruct (Z.pos d <? 2 * r) eqn:H2; [apply Z.ltb_lt in H2; nia|].
  apply Z.ltb_ge in H2.
  destruct (Z.even k); nia.
Qed.

Lemma format_1f_nonneg (x : Q) :
  0 <= Qnum x ->
  format_1f x = one_decimal (round_half_even ((Qnum x * 10) # Qden x)).
Proof.
  intros Hx. unfold format_1f.
  assert (H0 : Qle_bool 0 x = true).
  { unfold Qle_bool. cbn [Qnum Qden]. apply Z.leb_le. lia. }
  rewrite H0. unfold one_decimal, Qmult. cbn [Qnum Qden].
  now rewrite Pos.mul_1_r.
Qed.

Lemma Qlt_bool_1024 (x : Q) :
  Qlt_bool x 1024 = (Qnum x <? 1024 * Z.pos (Qden x)).
Proof.
  unfold Qlt_bool, Qle_bool. cbn [Qnum Qden].
  rewrite Z.mul_1_r. now rewrite Z.ltb_antisym.
Qed.

Lemma Qdiv_1024 (x : Q) :
  (x / 1024)%Q = (Qnum x * 1) # (Qden x * 1024).
Proof. reflexivity. Qed.

Lemma format_size_from_spec (units : list string) (x : Q) :
  0 <= Qnum x ->
  exists (k : nat) (t : Z),
    (k <= length units)%nat
    /\ format_size_from units x
       = one_decimal t +:+ " " +:+ nth k (units ++ ["TB"]) ""
    /\ 2 * Z.abs (10 * Qnum x - t * (Z.pos (Qden x) * 1024 ^ Z.of_nat k))
       <= Z.pos (Qden x) * 1024 ^ Z.of_nat k
    /\ ((0 < k)%nat -> 1024 ^ Z.of_nat k * Z.pos (Qden x) <= Qnum x)
    /\ ((k < length units)%nat -> Qnum x < 1024 ^ (Z.of_nat k + 1) * Z.pos (Qden x)).
Proof.
  revert x. induction units as [|unit units IH]; intros x Hx; cbn [format_size_from].
  - exists 0%nat, (round_half_even ((Qnum x * 10) # Qden x)).
    rewrite (format_1f_nonneg x Hx).
    pose proof (round_half_even_near (Qnum x * 10) (Qden x)) as Hnear.
    cbn [length app nth Z.of_nat]. rewrite Z.pow_0_r, Z.mul_1_r.
    repeat split; [lia | lia | lia | lia].
  - rewrite Qlt_bool_1024. destruct (Qnum x <? 1024 * Z.pos (Qden x)) eqn:Hlt.
    + apply Z.ltb_lt in Hlt.
      exists 0%nat, (round_half_even ((Qnum x * 10) # Qden x)).
      rewrite (format_1f_nonneg x Hx).
      pose proof (round_half_even_near (Qnum x * 10) (Qden x)) as Hnear.
      cbn [length app nth Z.of_nat]. rewrite Z.pow_0_r, Z.mul_1_r.
      repeat split; [lia | lia | lia | cbn; lia].
    + apply Z.ltb_ge in Hlt.
      destruct (IH (x / 1024)%Q) as (k & t & Hk & Hfmt & Hnear & Hlow & Hhigh).
      { rewrite Qdiv_1024. cbn [Qnum]. lia. }
      rewrite Qdiv_1024 in Hnear, Hlow, Hhigh. cbn [Qnum Qden] in Hnear, Hlow, Hhigh.
      rewrite Pos2Z.inj_mul, Z.mul_1_r in *.
      exists (S k), t.
      assert (Hpow : 1024 ^ Z.of_nat (S k) = 1024 * 1024 ^ Z.of_nat k).
      { rewrite Nat2Z.inj_succ, Z.pow_succ_r by lia. reflexivity. }
      assert (Hpos : 0 < 1024 ^ Z.of_nat k) by (apply Z.pow_pos_nonneg; lia).
      split; [cbn [length]; lia|].
      split; [rewrite Hfmt; reflexivity|].
      split; [rewrite Hpow;
              replace (Z.pos (Qden x) * (1024 * 1024 ^ Z.of_nat k))
                with (Z.pos (Qden x) * 1024 * 1024 ^ Z.of_nat k) by ring;
              exact Hnear|].
      split.
      * intros _. rewrite Hpow. destruct k as [|k'].
        -- cbn [Z.of_nat]. rewrite Z.pow_0_r. lia.
        -- specialize (Hlow ltac:(lia)). nia.
      * intros Hk'. cbn [length] in Hk'. specialize (Hhigh ltac:(lia)).
        replace (Z.of_nat (S k) + 1) with (Z.succ (Z.of_nat k + 1)) by lia.
        rewrite Z.pow_succ_r by lia. nia.
Qed.

(** X8. For a size a float holds exactly, [_format_size] shows the size
    divided by 1024 as often as it is 1024 or more, four times at most,
    rounded to one decimal, with the unit of that many divisions: below
    1024 the bytes themselves with ".0", from there on a number between 1.0
    and 1024.0 (1024.0 included), except that terabytes have no upper
    limit. *)
Theorem X8_format_size (size : Z) :
  0 <= size < 2 ^ 53 ->
  exists (k : nat) (t : Z),
    (k <= 4)%nat
    /\ _format_size size = one_decimal t +:+ " " +:+ unit_name k
    /\ 2 * Z.abs (10 * size - t * 1024 ^ Z.of_nat k) <= 1024 ^ Z.of_nat k
    /\ (k = 0%nat -> size < 1024 /\ t = 10 * size)
    /\ ((0 < k)%nat -> 1024 ^ Z.of_nat k <= size /\ 10 <= t)
    /\ ((0 < k < 4)%nat -> size < 1024 ^ (Z.of_nat k + 1) /\ t <= 10240).
Proof.
  intros Hsize. unfold _format_size.
  destruct (format_size_from_spec ["B"; "KB"; "MB"; "GB"] (inject_Z size))
    as (k & t & Hk & Hfmt & Hnear & Hlow & Hhigh); [cbn; lia|].
  cbn [inject_Z Qnum Qden length] in *.
  rewrite Z.mul_1_l in Hnear. rewrite Z.mul_1_r in Hlow, Hhigh.
  exists k, t.
  assert (Hpos : 0 < 1024 ^ Z.of_nat k) by (apply Z.pow_pos_nonneg; lia).
  split; [exact Hk|]. split; [exact Hfmt|]. split; [exact Hnear|].
  split; [|split].
  - intros ->. cbn [Z.of_nat] in *. rewrite Z.pow_0_r in Hnear.
    specialize (Hhigh ltac:(lia)). cbn in Hhigh. lia.
  - intros Hk0. specialize (Hlow Hk0). split; [exact Hlow|]. nia.
  - intros Hk4. specialize (Hhigh ltac:(lia)). split; [exact Hhigh|].
    rewrite Z.pow_add_r, Z.pow_1_r in Hhigh by lia. nia.
Qed.

(** The theorem at 1536 bytes, shown as 1.5 KB. *)
Lemma X8_format_size_witness :
  _format_size 1536 = "1.5 KB"
  /\ exists (k : nat) (t : Z),
       _format_size 1536 = one_decimal t +:+ " " +:+ unit_name k
       /\ (0 < k)%nat.
Proof.
  split; [reflexivity|].
  destruct (X8_format_size 1536 ltac:(lia))
    as (k & t & _ & Hfmt & _ & H0 & _ & _).
  exists k, t. split; [exact Hfmt|].
  destruct k; [destruct (H0 eq_refl); lia | lia].
Defined.

(** ** The list of the window *)

Lemma string_app_empty_r (s : string) : s +:+ "" = s.
Proof.
  induction s as [|c s IH]; [reflexivity|].
  change (String c s +:+ "") with (String c (s +:+ "")). now rewrite IH.
Qed.

Lemma has_path_In (filepath : string) (l : list FileItem) :
  existsb (fun item => String.eqb (item_filepath item) filepath) l = true
  <-> In filepath (map item_filepath l).
Proof.
  rewrite existsb_exists, in_map_iff. split.
  - intros (x & Hx & Heq). apply String.eqb_eq in Heq. eauto.
  - intros (x & Heq & Hx). exists x. split; [exact Hx|]. now apply String.eqb_eq.
Qed.

Lemma list_remove_Some id l l' :
  list_remove id l = Some l' ->
  exists l1 x l2, l = l1 ++ x :: l2 /\ l' = l1 ++ l2 /\ item_id x = id.
Proof.
  revert l'. induction l as [|x l IH]; intros l' H; cbn [list_remove] in H; [discriminate|].
  destruct (item_id x =? id)%nat eqn:Hid.
  - injection H as <-. apply Nat.eqb_eq in Hid. now exists [], x, l.
  - destruct (list_remove id l) as [l0|]; [|discriminate].
    injection H as <-. destruct (IH l0 eq_refl) as (l1 & y & l2 & -> & -> & Hy).
    now exists (x :: l1), y, l2.
Qed.

Lemma NoDup_map_remove {A B} (f : A -> B) (l1 l2 : list A) (x : A) :
  NoDup (map f (l1 ++ x :: l2)) -> NoDup (map f (l1 ++ l2)).
Proof.
  rewrite !map_app. cbn [map]. intros (H1 & H2 & H3)%NoDup_app.
  apply NoDup_cons in H3 as [_ H3]. apply NoDup_app.
  split; [exact H1|]. split; [|exact H3].
  intros y Hy Hy'. apply (H2 y Hy). apply elem_of_cons; now right.
Qed.

Section HandlersKeep.

Variable getsize_now : string -> option Z.

Lemma update_count_files app : files (_update_count getsize_now app) = files app.
Proof. reflexivity. Qed.

Lemma update_count_ok app :
  exists rest,
    count_label (_update_count getsize_now app)
    = count_text (length (files app)) +:+ rest.
Proof.
  unfold _update_count, set_count_label. cbn [count_label].
  destruct (0 <? total_size getsize_now (files app)).
  - eauto.
  - exists "". now rewrite string_app_empty_r.
Qed.

(** What [_add_file] does to the list. *)
Lemma add_file_files app filepath :
  files (_add_file getsize_now app filepath)
  = if existsb (fun item => String.eqb (item_filepath item) filepath) (files app)
    then files app
    else files app ++ [new_FileItem getsize_now (items_created app) filepath].
Proof. unfold _add_file. now destruct (existsb _ _). Qed.

Lemma add_file_is_shredding app filepath :
  is_shredding (_add_file getsize_now app filepath) = is_shredding app.
Proof. unfold _add_file. now destruct (existsb _ _). Qed.

Lemma add_file_ok app filepath :
  window_ok app -> window_ok (_add_file getsize_now app filepath).
Proof.
  intros [Hp Hi Hc He Hn Hb Hr]. unfold _add_file.
  destruct (existsb _ _) eqn:Hin; [now constructor|].
  assert (Hnew : ~ In filepath (map item_filepath (files app))).
  { rewrite <- has_path_In. now rewrite Hin. }
  constructor; cbn [files items_created empty_label_shown count_label controls_enabled
                    is_shredding _update_count set_count_label set_files count_item
                    set_empty_label_shown].
  - rewrite map_app. cbn [map new_FileItem item_filepath].
    apply NoDup_app. split; [exact Hp|]. split; [|apply NoDup_singleton].
    intros x Hx Hx'%list_elem_of_singleton. subst x.
    apply Hnew. now apply list_elem_of_In.
  - rewrite map_app. cbn [map new_FileItem item_id].
    apply NoDup_app. split; [exact Hi|]. split; [|apply NoDup_singleton].
    intros x Hx Hx'%list_elem_of_singleton. subst x.
    apply list_elem_of_In, in_map_iff in Hx as (item & Hid & Hitem).
    rewrite Forall_forall in Hc. apply (proj2 (list_elem_of_In _ _)), Hc in Hitem.
    cbn in Hid. lia.
  - apply Forall_app. split.
    + eapply Forall_impl; [exact Hc|]. intros x Hx. cbn in Hx |- *. lia.
    + constructor; [cbn; lia | constructor].
  - split; [discriminate|]. intros H. now apply app_eq_nil in H as [_ H].
  - apply (update_count_ok
             (set_files (files app ++ [new_FileItem getsize_now (items_created app) filepath])
                (count_item (set_empty_label_shown false app)))).
  - exact Hb.
  - intros _ H. now apply app_eq_nil in H as [_ H].
Qed.

Lemma remove_file_ok app item app' :
  window_ok app -> _remove_file getsize_now app item = Some app' -> window_ok app'.
Proof.
  intros Hok. unfold _remove_file.
  destruct (is_shredding app) eqn:Hs; [intros [= <-]; exact Hok|].
  destruct Hok as [Hp Hi Hc He Hn Hb Hr].
  destruct (list_remove (item_id item) (files app)) as [l|] eqn:Hrm; [|discriminate].
  intros [= <-].
  destruct (list_remove_Some _ _ _ Hrm) as (l1 & x & l2 & Hfiles & -> & _).
  rewrite Hfiles in Hp, Hi, Hc.
  assert (Hc' : Forall (fun item0 => (item_id item0 < items_created app)%nat) (l1 ++ l2)).
  { apply Forall_app in Hc as [H1 H2]. apply Forall_app. split; [exact H1|].
    now apply Forall_cons in H2 as [_ H2]. }
  cbv zeta.
  destruct (l1 ++ l2) as [|y l] eqn:Hl.
  - constructor; cbn [files items_created empty_label_shown count_label controls_enabled
                      is_shredding _update_count set_count_label set_files
                      set_empty_label_shown].
    + constructor.
    + constructor.
    + constructor.
    + tauto.
    + apply (update_count_ok (set_files [] app)).
    + exact Hb.
    + rewrite Hs. discriminate.
  - constructor; cbn [files items_created empty_label_shown count_label controls_enabled
                      is_shredding _update_count set_count_label set_files
                      set_empty_label_shown].
    + rewrite <- Hl. eapply NoDup_map_remove, Hp.
    + rewrite <- Hl. eapply NoDup_map_remove, Hi.
    + exact Hc'.
    + split; [|discriminate]. intros H. apply He in H.
      rewrite Hfiles in H. now destruct l1.
    + apply (update_count_ok (set_files (y :: l) app)).
    + exact Hb.
    + rewrite Hs. discriminate.
Qed.

Lemma clear_all_ok app : window_ok app -> window_ok (_clear_all getsize_now app).
Proof.
  intros Hok. unfold _clear_all. destruct (is_shredding app) eqn:Hs; [exact Hok|].
  destruct Hok as [Hp Hi Hc He Hn Hb Hr].
  constructor; cbn [files items_created empty_label_shown count_label controls_enabled
                    is_shredding _update_count set_count_label set_files
                    set_empty_label_shown].
  - constructor.
  - constructor.
  - constructor.
  - tauto.
  - apply (update_count_ok (set_empty_label_shown true (set_files [] app))).
  - exact Hb.
  - rewrite Hs. discriminate.
Qed.

Lemma add_files_ok (selected : list string) app :
  window_ok app -> window_ok (fold_left (_add_file getsize_now) selected app).
Proof.
  revert app. induction selected as [|p selected IH]; intros app Hok; [exact Hok|].
  cbn [fold_left]. apply IH. now apply add_file_ok.
Qed.

Lemma browse_files_ok app selected :
  window_ok app -> window_ok (_browse_files getsize_now app selected).
Proof.
  intros Hok. unfold _browse_files. destruct (is_shredding app); [exact Hok|].
  now apply add_files_ok.
Qed.

Lemma browse_folder_ok app folder walk :
  window_ok app -> window_ok (_browse_folder getsize_now app folder walk).
Proof.
  intros Hok. unfold _browse_folder. destruct (is_shredding app); [exact Hok|].
  destruct (String.eqb folder ""); [exact Hok|].
  revert app Hok. induction walk as [|[root names] walk IH]; intros app Hok; [exact Hok|].
  cbn [fold_left]. apply IH.
  clear IH. revert app Hok. induction names as [|file names IH]; intros app Hok; [exact Hok|].
  cbn [fold_left]. apply IH. now apply add_file_ok.
Qed.

End HandlersKeep.

Lemma start_shredding_ok app answer :
  window_ok app -> window_ok (_start_shredding app answer).
Proof.
  intros [Hp Hi Hc He Hn Hb Hr]. unfold _start_shredding.
  destruct (files app) as [|x l] eqn:Hfiles.
  - constructor; cbn [files items_created empty_label_shown count_label controls_enabled
                      is_shredding show_dialog]; rewrite ?Hfiles; auto.
  - destruct (is_shredding app) eqn:Hs; [constructor; rewrite ?Hfiles, ?Hs; auto|].
    destruct answer; cbn [negb];
      constructor; cbn [files items_created empty_label_shown count_label controls_enabled
                        is_shredding show_dialog start_thread set_controls_enabled
                        set_is_shredding]; rewrite ?Hfiles, ?Hs; auto.
Qed.

Lemma shredding_complete_ok app :
  window_ok app -> window_ok (_shredding_complete app).
Proof.
  intros [Hp Hi Hc He Hn Hb Hr]. unfold _shredding_complete.
  constructor; cbn [files items_created empty_label_shown count_label controls_enabled
                    is_shredding show_dialog set_controls_enabled set_is_shredding]; auto.
Qed.

Lemma on_method_change_ok app value app' :
  window_ok app -> _on_method_change app value = Some app' -> window_ok app'.
Proof.
  intros [Hp Hi Hc He Hn Hb Hr]. unfold _on_method_change.
  destruct (first_word value); [|discriminate]. intros [= <-].
  now constructor.
Qed.

Lemma step_ok getsize_now app a : window_ok app -> window_ok (step getsize_now app a).
Proof.
  intros Hok. destruct a; cbn [step].
  - now apply browse_files_ok.
  - now apply browse_folder_ok.
  - destruct (_remove_file getsize_now app item) eqn:Hrm; cbn [default]; [|exact Hok].
    eapply remove_file_ok; eauto.
  - now apply clear_all_ok.
  - destruct (_on_method_change app value) eqn:Hm; cbn [default]; [|exact Hok].
    eapply on_method_change_ok; eauto.
  - now apply start_shredding_ok.
  - now apply shredding_complete_ok.
Qed.

Lemma reachable_ok app : reachable app -> window_ok app.
Proof.
  induction 1 as [|getsize_now app a _ IH _].
  - constructor; cbn; try constructor; auto; try tauto; try discriminate.
    all: try now exists "".
  - now apply step_ok.
Qed.

(** X9. Between two events the list of the window holds no path twice, the
    empty-list text is on screen exactly when the list is empty, the
    counter starts with the number of rows and the right form of "Datei",
    the three controls are disabled exactly during a run, and a run is
    under way only over a list that is not empty. *)
Theorem X9_window_invariants (app : App) :
  reachable app ->
  NoDup (map item_filepath (files app))
  /\ (empty_label_shown app = true <-> files app = [])
  /\ (exists rest, count_label app = count_text (length (files app)) +:+ rest)
  /\ controls_enabled app = negb (is_shredding app)
  /\ (is_shredding app = true -> files app <> []).
Proof.
  intros [Hp Hi Hc He Hn Hb Hr]%reachable_ok. auto.
Qed.

(** The theorem after the same file is chosen twice with another one. *)
Lemma X9_window_invariants_witness :
  let app := step (fun _ => Some 1536) initial_app (BrowseFiles ["/tmp/a"; "/tmp/b"; "/tmp/a"]) in
  map item_filepath (files app) = ["/tmp/a"; "/tmp/b"]
  /\ count_label app = "2 Dateien ausgewählt (3.0 KB)"
  /\ NoDup (map item_filepath (files app)).
Proof.
  intros app. split; [reflexivity|]. split; [reflexivity|].
  apply (X9_window_invariants app).
  apply reachable_step; [apply reachable_initial | exact Logic.I].
Defined.

(** ** A run and the window *)

Lemma step_during_run getsize_now app a :
  is_shredding app = true ->
  a <> ShreddingComplete ->
  files (step getsize_now app a) = files app
  /\ is_shredding (step getsize_now app a) = true
  /\ threads_started (step getsize_now app a) = threads_started app
  /\ controls_enabled (step getsize_now app a) = controls_enabled app.
Proof.
  intros Hs Ha. destruct a; cbn [step].
  - unfold _browse_files. rewrite Hs. auto.
  - unfold _browse_folder. rewrite Hs. auto.
  - unfold _remove_file. rewrite Hs. cbn [default]. auto.
  - unfold _clear_all. rewrite Hs. auto.
  - unfold _on_method_change. destruct (first_word value); cbn [default]; auto.
  - unfold _start_shredding. destruct (files app) eqn:Hf; [cbn; auto|].
    rewrite Hs. rewrite Hf. auto.
  - congruence.
Qed.

(** X10. While a run is under way, no event other than its completion
    changes the list the worker goes through, starts a second worker, ends
    the run or enables the controls. *)
Theorem X10_run_freezes_the_list
    (events : list ((string -> option Z) * action)) (app : App) :
  is_shredding app = true ->
  Forall (fun e => snd e <> ShreddingComplete) events ->
  files (handle_all events app) = files app
  /\ is_shredding (handle_all events app) = true
  /\ threads_started (handle_all events app) = threads_started app
  /\ controls_enabled (handle_all events app) = controls_enabled app.
Proof.
  revert app. induction events as [|[getsize_now a] events IH]; intros app Hs Hev.
  - cbn. auto.
  - apply Forall_cons in Hev as [Ha Hev]. cbn [snd] in Ha.
    destruct (step_during_run getsize_now app a Hs Ha) as (Hf & Hs' & Ht & Hc).
    unfold handle_all in *. cbn [fold_left].
    destruct (IH (step getsize_now app a) Hs' Hev) as (Hf2 & Hs2 & Ht2 & Hc2).
    rewrite Hf2, Hs2, Ht2, Hc2. auto.
Qed.

(** The theorem at a run over one file, with every button pressed. *)
Lemma X10_run_freezes_the_list_witness :
  let sizes := fun _ : string => Some 10 in
  let app := handle_all [(sizes, BrowseFiles ["/tmp/a"]); (sizes, StartShredding true)]
               initial_app in
  let events := [(sizes, ClearAll); (sizes, BrowseFiles ["/tmp/b"]);
                 (sizes, StartShredding true); (sizes, MethodChange "dod (7 Durchgänge)")] in
  is_shredding app = true
  /\ map item_filepath (files (handle_all events app)) = ["/tmp/a"]
  /\ threads_started (handle_all events app) = 1%nat.
Proof.
  intros sizes app events.
  assert (Hs : is_shredding app = true) by reflexivity.
  assert (Hev : Forall (fun e => snd e <> ShreddingComplete) events)
    by (repeat constructor; discriminate).
  destruct (X10_run_freezes_the_list events app Hs Hev) as (Hf & _ & Ht & _).
  split; [exact Hs|]. rewrite Hf, Ht. split; reflexivity.
Defined.

(** ** The method of a run *)

Section MethodKept.

Variable getsize_now : string -> option Z.

Lemma add_file_method_var app filepath :
  method_var (_add_file getsize_now app filepath) = method_var app.
Proof. unfold _add_file. now destruct (existsb _ _). Qed.

Lemma add_files_method_var selected app :
  method_var (fold_left (_add_file getsize_now) selected app) = method_var app.
Proof.
  revert app. induction selected as [|p selected IH]; intros app; [reflexivity|].
  cbn [fold_left]. now rewrite IH, add_file_method_var.
Qed.

Lemma browse_folder_method_var app folder walk :
  method_var (_browse_folder getsize_now app folder walk) = method_var app.
Proof.
  unfold _browse_folder. destruct (is_shredding app); [reflexivity|].
  destruct (String.eqb folder ""); [reflexivity|].
  revert app. induction walk as [|[root names] walk IH]; intros app; [reflexivity|].
  cbn [fold_left]. rewrite IH. clear IH.
  revert app. induction names as [|file names IH]; intros app; [reflexivity|].
  cbn [fold_left]. now rewrite IH, add_file_method_var.
Qed.

Lemma step_method_var app a :
  offered a ->
  In (method_var app) method_names ->
  In (method_var (step getsize_now app a)) method_names.
Proof.
  intros Ha Hm. destruct a; cbn [step].
  - unfold _browse_files. destruct (is_shredding app); [exact Hm|].
    now rewrite add_files_method_var.
  - now rewrite browse_folder_method_var.
  - unfold _remove_file. destruct (is_shredding app); [exact Hm|].
    destruct (list_remove _ _); cbn [default]; [|exact Hm].
    cbv zeta. now destruct l.
  - unfold _clear_all. now destruct (is_shredding app).
  - cbn [offered] in Ha. unfold menu_values in Ha. cbn [In] in Ha.
    destruct Ha as [<-|[<-|[<-|[<-|[]]]]]; vm_compute; tauto.
  - unfold _start_shredding. destruct (files app); [exact Hm|].
    destruct (is_shredding app); [exact Hm|]. now destruct answer.
  - exact Hm.
Qed.

End MethodKept.

Lemma reachable_method_var app : reachable app -> In (method_var app) method_names.
Proof.
  induction 1 as [|getsize_now app a _ IH Ha].
  - cbn. tauto.
  - now apply step_method_var.
Qed.

(** X11. The method the worker hands to the engine is always one of the
    four keys of [PATTERNS]: taking the first word of the variable never
    raises, and the engine's default of 3 passes for an unknown method is
    never what decides the number of passes of a run from the window. *)
Theorem X11_worker_method_is_a_key (fuel : nat) (app : App) :
  reachable app ->
  exists method passes,
    first_word (method_var app) = Some method
    /\ PATTERNS !! method = Some passes
    /\ _shred_files fuel app
       = Some (shred_files_loop fuel method (map item_filepath (files app))).
Proof.
  intros Hm%reachable_method_var. unfold _shred_files.
  unfold method_names in Hm. cbn [In] in Hm.
  destruct Hm as [<-|[<-|[<-|[<-|[]]]]].
  - exists "quick", 1. repeat split; reflexivity.
  - exists "secure", 3. repeat split; reflexivity.
  - exists "dod", 7. repeat split; reflexivity.
  - exists "gutmann", 35. repeat split; reflexivity.
Qed.

(** The theorem after the 35-pass entry of the menu is chosen. *)
Lemma X11_worker_method_is_a_key_witness :
  let app := step (fun _ => None) initial_app (MethodChange "gutmann (35 Durchgänge)") in
  method_var app = "gutmann"
  /\ exists method passes,
       first_word (method_var app) = Some method /\ PATTERNS !! method = Some passes.
Proof.
  intros app. split; [reflexivity|].
  destruct (X11_worker_method_is_a_key 0 app) as (method & passes & H1 & H2 & _).
  - apply reachable_step; [apply reachable_initial|].
    cbn. tauto.
  - eauto.
Defined.

(** ** Filling and emptying the list *)

Section Adding.

Variable getsize_now : string -> option Z.

Lemma add_file_adds app filepath :
  exists added,
    files (_add_file getsize_now app filepath) = files app ++ added
    /\ forall q, In q (map item_filepath (files app ++ added))
                 <-> In q (map item_filepath (files app)) \/ q = filepath.
Proof.
  rewrite add_file_files.
  destruct (existsb _ _) eqn:Hin.
  - exists []. rewrite app_nil_r. split; [reflexivity|].
    apply has_path_In in Hin. intros q. split; [tauto|]. intros [H| ->]; assumption.
  - eexists. split; [reflexivity|]. intros q.
    rewrite map_app, in_app_iff. cbn. intuition (subst; auto).
Qed.

Lemma add_files_add selected app :
  exists added,
    files (fold_left (_add_file getsize_now) selected app) = files app ++ added
    /\ forall q, In q (map item_filepath (files app ++ added))
                 <-> In q (map item_filepath (files app)) \/ In q selected.
Proof.
  revert app. induction selected as [|p selected IH]; intros app; cbn [fold_left].
  - exists []. rewrite app_nil_r. split; [reflexivity|]. cbn. tauto.
  - destruct (add_file_adds app p) as (a1 & Hf1 & Hin1).
    destruct (IH (_add_file getsize_now app p)) as (a2 & Hf2 & Hin2).
    rewrite Hf1 in Hf2, Hin2. exists (a1 ++ a2). rewrite app_assoc.
    split; [exact Hf2|]. intros q. rewrite Hin2, Hin1. cbn [In].
    intuition (subst; auto).
Qed.

Lemma browse_folder_walk app walk :
  fold_left
    (fun app '(root, names) =>
       fold_left (fun app file => _add_file getsize_now app (path_join root file)) names app)
    walk app
  = fold_left (_add_file getsize_now) (walked_paths walk) app.
Proof.
  revert app. induction walk as [|[root names] walk IH]; intros app; [reflexivity|].
  unfold walked_paths. cbn [fold_left map concat]. rewrite fold_left_app.
  fold (walked_paths walk). rewrite <- IH. f_equal.
  clear IH. revert app. induction names as [|file names IH]; intros app; [reflexivity|].
  cbn [fold_left map]. apply IH.
Qed.

End Adding.

(** X12. Outside a run, both browse handlers append to the list and leave
    its rows in place; the paths of the list are then the ones it had and
    the ones chosen, for a folder every [os.path.join(root, file)] of the
    walk.  A cancelled folder dialog (the empty string) changes nothing. *)
Theorem X12_browse_appends_the_choice (getsize_now : string -> option Z) (app : App)
    (selected : list string) (folder : string) (walk : list (string * list string)) :
  is_shredding app = false ->
  (exists added,
      files (_browse_files getsize_now app selected) = files app ++ added
      /\ forall q, In q (map item_filepath (files app ++ added))
                   <-> In q (map item_filepath (files app)) \/ In q selected)
  /\ (folder <> "" ->
      exists added,
        files (_browse_folder getsize_now app folder walk) = files app ++ added
        /\ forall q, In q (map item_filepath (files app ++ added))
                     <-> In q (map item_filepath (files app)) \/ In q (walked_paths walk))
  /\ _browse_folder getsize_now app "" walk = app.
Proof.
  intros Hs. unfold _browse_files, _browse_folder. rewrite Hs.
  split; [apply add_files_add|]. split; [|reflexivity].
  intros Hfolder. destruct (String.eqb folder "") eqn:Heq.
  - apply String.eqb_eq in Heq. contradiction.
  - rewrite browse_folder_walk. apply add_files_add.
Qed.

(** The theorem at a folder with a file and a sub-folder with two. *)
Lemma X12_browse_appends_the_choice_witness :
  let sizes := fun _ : string => Some 1 in
  let app := _browse_files sizes initial_app ["/d/x"] in
  let walk := [("/d", ["x"; "y"]); ("/d/sub", ["z"])] in
  map item_filepath (files (_browse_folder sizes app "/d" walk))
  = ["/d/x"; "/d/y"; "/d/sub/z"]
  /\ exists added, files (_browse_folder sizes app "/d" walk) = files app ++ added.
Proof.
  intros sizes app walk. split; [reflexivity|].
  destruct (X12_browse_appends_the_choice sizes app [] "/d" walk eq_refl)
    as (_ & Hfolder & _).
  destruct (Hfolder ltac:(discriminate)) as (added & Hfiles & _).
  now exists added.
Defined.

Lemma list_remove_last (l : list FileItem) (item : FileItem) :
  Forall (fun x => item_id x <> item_id item) l ->
  list_remove (item_id item) (l ++ [item]) = Some l.
Proof.
  induction l as [|x l IH]; intros Hl; cbn [app list_remove].
  - now rewrite Nat.eqb_refl.
  - apply Forall_cons in Hl as [Hx Hl].
    apply Nat.eqb_neq in Hx. rewrite Hx, (IH Hl). reflexivity.
Qed.

(** X13. Adding a file that is not in the list and then removing its row
    gives back the list as it was, rows and empty-list text; the counter is
    again one of that many rows. *)
Theorem X13_add_then_remove (sizes sizes' : string -> option Z) (app : App)
    (filepath : string) :
  reachable app ->
  is_shredding app = false ->
  ~ In filepath (map item_filepath (files app)) ->
  exists item app',
    files (_add_file sizes app filepath) = files app ++ [item]
    /\ item_filepath item = filepath
    /\ _remove_file sizes' (_add_file sizes app filepath) item = Some app'
    /\ files app' = files app
    /\ empty_label_shown app' = empty_label_shown app
    /\ exists rest, count_label app' = count_text (length (files app)) +:+ rest.
Proof.
  intros [Hp Hi Hc He Hn Hb Hr]%reachable_ok Hs Hnew.
  assert (Hin : existsb (fun item => String.eqb (item_filepath item) filepath) (files app)
                = false).
  { destruct (existsb _ _) eqn:Hin; [|reflexivity]. now apply has_path_In in Hin. }
  set (item := new_FileItem sizes (items_created app) filepath).
  assert (Hfiles : files (_add_file sizes app filepath) = files app ++ [item]).
  { rewrite add_file_files, Hin. reflexivity. }
  assert (Hrm : list_remove (item_id item) (files app ++ [item]) = Some (files app)).
  { apply list_remove_last. eapply Forall_impl; [exact Hc|].
    intros x Hx. cbn in Hx |- *. lia. }
  assert (Hshown1 : empty_label_shown (_add_file sizes app filepath) = false).
  { unfold _add_file. rewrite Hin. reflexivity. }
  exists item. unfold _remove_file.
  rewrite add_file_is_shredding, Hs, Hfiles, Hrm. cbv zeta.
  eexists. split; [reflexivity|]. split; [reflexivity|]. split; [reflexivity|].
  rewrite update_count_files. cbn [files set_files].
  assert (Hcount : exists rest,
             count_label (_update_count sizes'
                            (set_files (files app) (_add_file sizes app filepath)))
             = count_text (length (files app)) +:+ rest).
  { apply (update_count_ok sizes'
             (set_files (files app) (_add_file sizes app filepath))). }
  destruct (files app) as [|x l] eqn:Hf.
  - split; [reflexivity|]. split; [|exact Hcount].
    cbn [empty_label_shown set_empty_label_shown]. symmetry. now apply He.
  - split; [reflexivity|]. split; [|exact Hcount].
    cbn [empty_label_shown _update_count set_count_label set_files].
    rewrite Hshown1. destruct (empty_label_shown app); [|reflexivity].
    discriminate (proj1 He eq_refl).
Qed.

(** The theorem at the fresh window. *)
Lemma X13_add_then_remove_witness :
  let sizes := fun _ : string => Some 5 in
  exists item app',
    _remove_file sizes (_add_file sizes initial_app "/tmp/a") item = Some app'
    /\ files app' = []
    /\ empty_label_shown app' = true.
Proof.
  intros sizes.
  destruct (X13_add_then_remove sizes sizes initial_app "/tmp/a")
    as (item & app' & _ & _ & Hrm & Hfiles & Hshown & _).
  - apply reachable_initial.
  - reflexivity.
  - cbn. tauto.
  - exists item, app'. auto.
Defined.

(** ** Runs that fail and runs that cannot *)

Lemma os_rename_Exn src dst w e w' :
  os_rename src dst w = Exn e w' -> fs w' = fs w.
Proof.
  unfold os_rename, sys_fail, sys_ok. destruct (fails w); [now intros [= _ <-]|].
  destruct (fs w !! src) as [n|]; [|now intros [= _ <-]].
  destruct (fs w !! dst) as [[| |]|]; try discriminate; now intros [= _ <-].
Qed.

Lemma os_rename_returns src dst w : os_rename src dst w <> Diverge.
Proof.
  unfold os_rename, sys_fail, sys_ok. destruct (fails w); [discriminate|].
  destruct (fs w !! src) as [n|]; [|discriminate].
  destruct (fs w !! dst) as [[| |]|]; discriminate.
Qed.

Lemma os_remove_Exn p w e w' :
  os_remove p w = Exn e w' -> fs w' = fs w.
Proof.
  unfold os_remove, sys_fail, sys_ok. destruct (fails w); [now intros [= _ <-]|].
  destruct (fs w !! p) as [[| |]|]; try discriminate; now intros [= _ <-].
Qed.

Lemma final_progress_quiet cb w :
  quiet_sink cb -> exists w', final_progress cb w = Ret tt w' /\ fs w' = fs w.
Proof.
  intros Hq. unfold final_progress, call_progress, ret. destruct cb as [c|]; [|eauto].
  rewrite (Hq c _ _ _ eq_refl). eauto.
Qed.

Lemma rename_loop_keeps filepath size n :
  forall current_path w,
    own_paths filepath current_path ->
    file_len current_path size (fs w) ->
    match rename_loop n (dirname filepath) current_path w with
    | Ret last_path w' => own_paths filepath last_path /\ file_len last_path size (fs w')
    | Exn _ w' => file_kept filepath size (fs w')
    | Diverge => True
    end.
Proof.
  induction n as [|n IH]; intros cur w Hown Hlen; cbn [rename_loop].
  - unfold ret. auto.
  - unfold bind at 1. rewrite random_choices_hex.
    fold (hex_name (rand_src w) (rand_pos w)).
    set (t := path_join (dirname filepath) (hex_name (rand_src w) (rand_pos w))).
    assert (Hdrawn : own_paths filepath t).
    { right. eexists. split; [apply hex_name_is_hex_name | reflexivity]. }
    unfold bind at 1.
    destruct (os_rename cur t (advance_rand_by 32 w)) as [[] w1|e w1|] eqn:Hren.
    + apply os_rename_Ret in Hren as (nd & Hsrc & ->).
      apply IH; [exact Hdrawn|].
      destruct Hlen as (c & Hc & Hsize). cbn [fs advance_rand_by] in Hsrc.
      rewrite Hc in Hsrc. injection Hsrc as <-.
      exists c. cbn [fs emit tick set_fs]. now rewrite lookup_insert_eq.
    + apply os_rename_Exn in Hren. exists cur. rewrite Hren. auto.
    + exact Logic.I.
Qed.

Lemma shred_body_failure fuel filepath method cb chunk_size w content :
  0 < chunk_size ->
  fs w !! filepath = Some (RegularFile content) ->
  quiet_sink cb ->
  match shred_body fuel filepath method cb chunk_size w with
  | Ret b _ => b = true
  | Exn _ w' => file_kept filepath (Z.of_nat (length content)) (fs w')
  | Diverge => True
  end.
Proof.
  intros HC Hlook Hquiet. set (size := Z.of_nat (length content)).
  assert (Hlen : file_len filepath size (fs w)) by (now exists content).
  assert (Hkept : forall m, file_len filepath size m -> file_kept filepath size m).
  { intros m Hm. exists filepath. split; [now left | exact Hm]. }
  unfold shred_body, isfile. rewrite Hlook. cbn [negb].
  unfold bind at 1, get_file_size.
  pose proof (holds_getsize (file_len filepath size) w Hlen filepath) as Hg.
  destruct (getsize filepath w) as [n w1|e w1|] eqn:Hsize; cbn [holds_after] in Hg;
    [|now apply Hkept|exact Logic.I].
  apply getsize_Ret in Hsize as (c & Hc & -> & _ & _).
  rewrite Hlook in Hc. injection Hc as <-. fold size.
  unfold bind at 1.
  pose proof (holds_for_each (file_len filepath size)
                (overwrite_pass fuel filepath cb size (dict_get PATTERNS method 3) chunk_size)
                (py_range (dict_get PATTERNS method 3))
                (fun p w0 H0 =>
                   holds_overwrite_pass_len filepath fuel cb size
                     (dict_get PATTERNS method 3) chunk_size p w0 HC H0)
                w1 Hg) as Hp.
  destruct (for_each _ _ w1) as [[] w2|e w2|]; cbn [holds_after] in Hp;
    [|now apply Hkept|exact Logic.I].
  unfold bind at 1.
  pose proof (rename_loop_keeps filepath size 3 filepath w2 (or_introl eq_refl) Hp) as Hr.
  destruct (rename_loop 3 (dirname filepath) filepath w2) as [cur w3|e w3|];
    [|exact Hr|exact Logic.I].
  destruct Hr as (Hown & Hcur).
  unfold bind at 1.
  destruct (os_remove cur w3) as [[] w4|e w4|] eqn:Hrm.
  - unfold bind. destruct (final_progress_quiet cb w4 Hquiet) as (w5 & -> & _).
    reflexivity.
  - apply os_remove_Exn in Hrm. exists cur. rewrite Hrm. auto.
  - exact Logic.I.
Qed.

(** X14. With a callback that does not raise, a run on a regular file that
    returns [False] has not lost the file: it is still a regular file of
    its length, under its own name or, when a rename or the delete failed,
    under one of the drawn names in its directory. *)
Theorem X14_failed_run_keeps_the_file (fuel : nat) (filepath method : string)
    (cb : option Callback) (chunk_size : Z) (w w' : World) (content : list Z) :
  0 < chunk_size ->
  fs w !! filepath = Some (RegularFile content) ->
  quiet_sink cb ->
  shred_file fuel filepath method cb chunk_size w = Ret false w' ->
  file_kept filepath (Z.of_nat (length content)) (fs w').
Proof.
  intros HC Hlook Hquiet.
  pose proof (shred_body_failure fuel filepath method cb chunk_size w content
                HC Hlook Hquiet) as Hbody.
  unfold shred_file, try_except.
  destruct (shred_body fuel filepath method cb chunk_size w) as [b w1|e w1|].
  - intros [= -> _]. discriminate.
  - destruct (is_Exception e); [|discriminate].
    unfold bind, py_print, ret. intros [= <-]. exact Hbody.
  - discriminate.
Qed.

(** The theorem at a run whose second rename fails: the file is left under
    the first drawn name. *)
Lemma X14_failed_run_keeps_the_file_witness :
  let w := mkWorld (<["d/f" := RegularFile [1; 2; 3]]> ∅)
             (fun _ => 10) 0 (fun n => (n =? 10)%nat) 0 [] in
  exists w',
    shred_file 3 "d/f" "quick" None 2 w = Ret false w'
    /\ fs w' !! "d/f" = None
    /\ fs w' !! "d/aaaaaaaaaaaaaaaaaaaaaaaaaaaaaaaa" = Some (RegularFile [0; 0; 0])
    /\ file_kept "d/f" 3 (fs w').
Proof.
  intros w.
  destruct (shred_file 3 "d/f" "quick" None 2 w) as [[|] w'|e w'|] eqn:Hrun;
    try (vm_compute in Hrun; discriminate).
  exists w'. split; [reflexivity|].
  pose proof (X14_failed_run_keeps_the_file 3 "d/f" "quick" None 2 w w' [1; 2; 3]
                ltac:(lia) eq_refl ltac:(intros c tr q l H; discriminate) Hrun) as Hkept.
  vm_compute in Hrun. injection Hrun as <-.
  split; [reflexivity|]. split; [reflexivity|]. exact Hkept.
Defined.

Lemma passes_keep_no_name_clash fuel path cb file_size passes chunk_size directory l :
  forall w,
    no_name_clash directory w ->
    holds_after
      (fun m => forall name, String.length name = 32%nat ->
                             m !! path_join directory name <> Some Directory)
      (for_each l (overwrite_pass fuel path cb file_size passes chunk_size) w).
Proof.
  intros w Hclash.
  apply (holds_for_each
           (fun m => forall name, String.length name = 32%nat ->
                                  m !! path_join directory name <> Some Directory));
    [|exact Hclash].
  intros pass_num w1 H1.
  apply holds_overwrite_pass_any; [|exact H1].
  intros m old pos data Hm Hold name Hname.
  destruct (decide (path = path_join directory name)) as [<-|Hne].
  - rewrite lookup_insert_eq. discriminate.
  - rewrite lookup_insert_ne by exact Hne. now apply Hm.
Qed.

(** X15. When no system call fails, the callback does not raise, the chunk
    size is positive and no directory of the file's directory bears a name
    of 32 characters, a run on a regular file returns [True]. *)
Theorem X15_fault_free_run_succeeds (fuel : nat) (filepath method : string)
    (cb : option Callback) (chunk_size : Z) (w : World) (content : list Z) :
  0 < chunk_size ->
  fs w !! filepath = Some (RegularFile content) ->
  (length content <= fuel)%nat ->
  fault_free w ->
  quiet_sink cb ->
  no_name_clash (dirname filepath) w ->
  exists w', shred_file fuel filepath method cb chunk_size w = Ret true w'.
Proof.
  intros HC Hlook Hfuel Hff Hquiet Hclash.
  set (passes := dict_get PATTERNS method 3).
  set (w1 := emit (EvSys (SysGetsize filepath) true) (tick w)).
  assert (Hsize : get_file_size filepath w = Ret (Z.of_nat (length content)) w1).
  { unfold get_file_size, getsize, fails, sys_ok. rewrite (Hff (clock w)), Hlook.
    now rewrite set_fs_same. }
  destruct (passes_ok fuel filepath cb passes chunk_size (py_range passes) HC Hquiet
              (py_range_bounds passes) w1 content Hlook Hfuel Hff)
    as (w2 & c2 & Hpasses & Hlook2 & _ & Hff2 & _).
  pose proof (passes_keep_no_name_clash fuel filepath cb (Z.of_nat (length content))
                passes chunk_size (dirname filepath) (py_range passes) w1 Hclash)
    as Hclash2.
  rewrite Hpasses in Hclash2. cbn [holds_after] in Hclash2.
  destruct (rename_loop_ok 3 (dirname filepath) c2 filepath w2 Hff2 Hlook2 Hclash2)
    as (cur & w3 & Hren & Hff3 & Hlook3).
  assert (Hrm : exists w4, os_remove cur w3 = Ret tt w4).
  { unfold os_remove, fails, sys_ok. rewrite (Hff3 (clock w3)), Hlook3. eauto. }
  destruct Hrm as (w4 & Hrm).
  destruct (final_progress_quiet cb w4 Hquiet) as (w5 & Hfin & _).
  exists w5. unfold shred_file, try_except, shred_body, isfile.
  rewrite Hlook. cbn [negb]. unfold bind. fold passes.
  rewrite Hsize, Hpasses, Hren, Hrm, Hfin. reflexivity.
Qed.

(** The theorem at a file of five bytes shredded with the 7-pass method. *)
Lemma X15_fault_free_run_succeeds_witness :
  let w := mkWorld (<["d/f" := RegularFile [1; 2; 3; 4; 5]]> ∅)
             (fun n => Z.of_nat n) 0 (fun _ => false) 0 [] in
  exists w', shred_file 5 "d/f" "dod" None 2 w = Ret true w'.
Proof.
  intros w.
  apply (X15_fault_free_run_succeeds 5 "d/f" "dod" None 2 w [1; 2; 3; 4; 5]).
  - lia.
  - reflexivity.
  - simpl. lia.
  - intros n. reflexivity.
  - intros c tr q l H. discriminate.
  - intros name Hname. unfold w. cbn [fs].
    destruct (decide ("d/f" = path_join (dirname "d/f") name)) as [Heq|Hne].
    + rewrite <- Heq. rewrite lookup_insert_eq. discriminate.
    + rewrite lookup_insert_ne by exact Hne. now rewrite lookup_empty.
Defined.

(** X16. A file shredded with success cannot be shredded again: a second
    run on the same path, with whatever method, callback and chunk size,
    returns [False] at once, without a system call, a line printed or a
    change to the file system. *)
Theorem X16_second_run_does_nothing (fuel fuel' : nat) (filepath method method' : string)
    (cb cb' : option Callback) (chunk_size chunk_size' : Z) (w w' : World) :
  shred_file fuel filepath method cb chunk_size w = Ret true w' ->
  shred_file fuel' filepath method' cb' chunk_size' w' = Ret false w'.
Proof.
  intros Hrun.
  assert (Hgone : fs w' !! filepath = None).
  { apply shred_file_true in Hrun
      as (file_size & w1 & w2 & cur & w3 & w4 & _ & _ & _ & Hren & Hrm & Hfin).
    apply (rename_loop_gone filepath) in Hren; [|now left].
    apply os_remove_Ret in Hrm as ->.
    apply final_progress_trace in Hfin as (_ & ->).
    cbn [fs emit tick set_fs].
    destruct Hren as [->|Hnone]; [apply lookup_delete_eq|].
    destruct (decide (cur = filepath)) as [->|Hne];
      [apply lookup_delete_eq | now rewrite lookup_delete_ne]. }
  unfold shred_file, try_except, shred_body, isfile. now rewrite Hgone.
Qed.

(** The theorem at two runs on a file of two bytes. *)
Lemma X16_second_run_does_nothing_witness :
  let w := mkWorld (<["d/f" := RegularFile [1; 2]]> ∅)
             (fun n => Z.of_nat n) 0 (fun _ => false) 0 [] in
  exists w',
    shred_file 2 "d/f" "secure" None 1 w = Ret true w'
    /\ shred_file 2 "d/f" "quick" None 1 w' = Ret false w'.
Proof.
  intros w.
  destruct (shred_file 2 "d/f" "secure" None 1 w) as [[|] w'|e w'|] eqn:Hrun;
    try (vm_compute in Hrun; discriminate).
  exists w'. split; [reflexivity|].
  exact (X16_second_run_does_nothing 2 2 "d/f" "secure" "quick" None None 1 1 w w' Hrun).
Defined.
